(** * ljdump-go: incremental journal synchronisation, verified against main.go

    A shallow embedding of the synchronisation engine of [src/main.go]:
    the persisted state encoders, the post, comment and picture
    synchronisation loops, and the journal driver.  Everything the Go code
    obtains from outside (remote calls, the file system's failures, library
    codecs) is an oracle of the environment [Env]; every effect the code has
    is recorded in the state [St]. *)

From Stdlib Require Import ZArith String Ascii List Lia Bool Permutation.
From stdpp Require Import base decidable option list gmap strings pretty sorting.

Local Open Scope string_scope.
Local Open Scope list_scope.
Local Open Scope Z_scope.

(** ** Go runtime values *)

(** A Go [error] is represented by its [Error()] text. *)
Definition error : Type := string.

Definition int64_min : Z := - 2 ^ 63.
Definition int64_max : Z := 2 ^ 63 - 1.

(** Two's complement wrap-around of [int64] (and of [int] on 64-bit targets). *)
Definition wrap64 (z : Z) : Z := (z + 2 ^ 63) mod 2 ^ 64 - 2 ^ 63.

Definition in_int64 (z : Z) : bool := (int64_min <=? z) && (z <=? int64_max).

Definition nl : string := String (ascii_of_nat 10) EmptyString.
Definition dquote : string := String (ascii_of_nat 34) EmptyString.

(** [s[n:]] *)
Fixpoint string_drop (n : nat) (s : string) : string :=
  match n, s with
  | O, _ => s
  | S n', String _ s' => string_drop n' s'
  | S _, EmptyString => EmptyString
  end.

Definition is_digit (c : ascii) : bool :=
  (48 <=? nat_of_ascii c)%nat && (nat_of_ascii c <=? 57)%nat.

Fixpoint parse_digits (acc : Z) (s : string) : option Z :=
  match s with
  | EmptyString => Some acc
  | String c s' =>
      if is_digit c
      then parse_digits (10 * acc + (Z.of_nat (nat_of_ascii c) - 48)) s'
      else None
  end.

(** [strconv.ParseInt(s, 10, 64)]; [None] stands for a non-nil error
    (syntax or range). *)
Definition ParseInt (s : string) : option Z :=
  let '(neg, body) :=
    match s with
    | String "-" s' => (true, s')
    | String "+" s' => (false, s')
    | _ => (false, s)
    end in
  match body with
  | EmptyString => None
  | _ =>
      match parse_digits 0 body with
      | None => None
      | Some n =>
          let v := if neg then - n else n in
          if in_int64 v then Some v else None
      end
  end.

(** [fmt.Sprintf("%d", z)] *)
Definition fmt_d (z : Z) : string := pretty z.

(** [fmt.Sprintf("%s", b)] for a [byte] operand: the verb does not apply to
    integers, so [fmt] prints its bad-verb form. *)
Definition fmt_s_byte (b : ascii) : string :=
  "%!s(uint8=" +:+ pretty (N_of_ascii b) +:+ ")".

(** [filepath.Join] of two elements: empty elements are ignored and a
    leading current-directory element is cleaned away (the rest of the
    lexical clean-up is not modelled). *)
Definition filepath_Join (a b : string) : string :=
  if decide (a = "") then b
  else if decide (b = "") then a
  else if decide (a = ".") then b
  else a +:+ "/" +:+ b.

(** ** Go maps

    A map is its list of entries in the order a [range] loop would visit
    them, which Go leaves unspecified; [None] is the nil map.  Keys are
    unique in every map built by [make] and [set]. *)
Module GoMap.

Definition t (K V : Type) : Type := option (list (K * V)).

Section ops.
  Context {K V : Type} `{EqDecision K}.

Definition make : t K V := Some [].

Fixpoint assoc (k : K) (l : list (K * V)) : option V :=
    match l with
    | [] => None
    | (k', v) :: l' => if decide (k = k') then Some v else assoc k l'
    end.

Fixpoint update (k : K) (v : V) (l : list (K * V)) : list (K * V) :=
    match l with
    | [] => [(k, v)]
    | (k', v') :: l' =>
        if decide (k = k') then (k, v) :: l' else (k', v') :: update k v l'
    end.

  (** [range m]: the entries, none for the nil map. *)
Definition range (m : t K V) : list (K * V) := default [] m.

  (** [v, present := m[k]] *)
Definition get (m : t K V) (k : K) : option V := assoc k (range m).

  (** [m[k] = v]; [None] is the run-time panic of an assignment to an
      entry of the nil map. *)
Definition set (m : t K V) (k : K) (v : V) : option (t K V) :=
    match m with
    | None => None
    | Some l => Some (Some (update k v l))
    end.

Definition len (m : t K V) : nat := length (range m).

Definition keys (m : t K V) : list K := map fst (range m).

Definition is_nil (m : t K V) : bool :=
    match m with None => true | Some _ => false end.
End ops.

End GoMap.

(** ** Reports *)

#[local] Unset Elimination Schemes.
Inductive Report : Type :=
  mkReport (message : string) (err : option error) (combined : list Report).
#[local] Set Elimination Schemes.

Definition ReportMsg (msg : string) : Report := mkReport msg None [].

Definition WrapErr (e : error) (msg : string) : Report := mkReport msg (Some e) [].

Definition CombineReports (r1 r2 : option Report) : option Report :=
  match r1, r2 with
  | None, _ => r2
  | _, None => r1
  | Some a, Some b => Some (mkReport "" None [a; b])
  end.

Definition fuseErr (e e2 : option error) : option error :=
  match e, e2 with
  | None, _ => e2
  | _, None => e
  | Some a, Some b => Some (a +:+ "; " +:+ b)
  end.

(** [AsText], the method of a report: a combined report is the text of its parts, one
    after the other; [combined] is nil in every report that [ReportMsg] and
    [WrapErr] build. *)
Fixpoint AsText (r : Report) : string :=
  match r with
  | mkReport message err combined =>
      match combined with
      | [] =>
          match err with
          | Some e => "ERROR: " +:+ message +:+ " - " +:+ e +:+ nl
          | None => "ERROR: " +:+ message +:+ nl
          end
      | _ => fold_left (fun s r2 => s +:+ r2) (map AsText combined) ""
      end
  end.

(** ** The data of the program *)

Definition CommentId : Type := Z.
Definition UserId : Type := Z.

Record commentMeta : Type := mkCommentMeta { posterId : UserId; state : string }.

Record accountData : Type := mkAccountData {
  fileCounter : Z;
  pictureDefaultUrl : string;
  pictureUrlFileMap : GoMap.t string string;
  pictureKeywordUrlMap : GoMap.t string string
}.

Record journalDB : Type := mkJournalDB {
  lastSync : string;
  userMap : GoMap.t UserId string;
  commentMap : GoMap.t CommentId commentMeta
}.

Record Config : Type := mkConfig {
  server : string;
  username : string;
  journals : list string;
  password : string;
  dumpDir : string;
  accountDataDir : string
}.

Record journalContext : Type := mkJournalContext {
  config : Config;
  name : string;
  dir : string;
  db : journalDB;
  shouldWriteDB : bool;
  origDbLastSync : string;
  newEntries : Z;
  newComments : Z
}.

Definition journalDBFileName : string := "journal.linedb".
Definition accountDataDBFileName : string := "account.linedb".

(** The zero value of [journalDB]: both maps are nil. *)
Definition zero_journalDB : journalDB :=
  {| lastSync := ""; userMap := None; commentMap := None |}.

Definition newJournalContext (cfg : Config) (journalName : string) : journalContext :=
  {| config := cfg;
     name := journalName;
     dir := filepath_Join (dumpDir cfg) journalName;
     db := zero_journalDB;
     shouldWriteDB := false;
     origDbLastSync := "";
     newEntries := 0;
     newComments := 0 |}.

(** The change feed ([LJSyncItem]). *)
Record LJSyncItem : Type := mkLJSyncItem { Item : string; Action : string; Time : string }.

(** A decoded XML-RPC value ([interface{}] in an [LJEvent]). *)
#[local] Unset Elimination Schemes.
Inductive LJValue : Type :=
| VNil
| VInt (v : Z)
| VInt64 (v : Z)
| VString (s : string)
| VMap (m : list (string * LJValue))
| VArray (a : list LJValue)
| VOther (typeName : string).
#[local] Set Elimination Schemes.

(** [LJEvent] is [map[string]interface{}], a non-nil map when decoded. *)
Definition LJEvent : Type := list (string * LJValue).

Record LJCommentMeta : Type := mkLJCommentMeta {
  cm_Id : CommentId; cm_PosterId : UserId; cm_State : string
}.

Record LJComment : Type := mkLJComment {
  c_Id : CommentId;
  c_PosterId : UserId;
  c_State : string;
  c_JItemId : Z;
  c_ParentId : string;
  c_Subject : string;
  c_Body : string;
  c_Date : string
}.

Record LJUserMap : Type := mkLJUserMap { um_Id : UserId; um_User : string }.

Record LJCommentMetaChunk : Type := mkLJCommentMetaChunk {
  MaxId : CommentId;
  mc_Comments : list LJCommentMeta;
  UserMaps : list LJUserMap
}.

Record LJCommentChunk : Type := mkLJCommentChunk { cc_Comments : list LJComment }.

Record CommentRecord : Type := mkCommentRecord {
  r_Id : CommentId;
  r_State : string;
  r_User : string;
  r_ParentId : string;
  r_Date : string;
  r_Subject : string;
  r_Body : string
}.

#[global] Instance commentMeta_eq_dec : EqDecision commentMeta.
Proof. solve_decision. Defined.

#[global] Instance CommentRecord_eq_dec : EqDecision CommentRecord.
Proof. solve_decision. Defined.

(** ** The outside world *)

(** What the program does to, or asks of, its environment, in order. *)
Inductive Event : Type :=
| EvLog (line : string)
| EvMkdirAll (path : string)
| EvReadFile (path : string)
| EvWriteFile (path data : string) (ok : bool)
| EvRename (src dst : string) (ok : bool)
| EvFlatLogin
| EvSyncItems (lastsync usejournal : string)
| EvGetEvents (itemid : Z) (usejournal : string)
| EvExportComments (kind : string) (startid : Z) (authas : string)
| EvHttpGet (url : string).

(** [http.Get] followed by [ioutil.ReadAll] and [Body.Close]. *)
Inductive HttpGetResult : Type :=
| GetErr (e : error)
| GetOk (contentType : string) (body : error + string) (closeErr : option error).

(** [jcx.session.client.Get], [ioutil.ReadAll], [xml.Unmarshal] of an
    [export_comments.bml] request. *)
Inductive ExportResult (A : Type) : Type :=
| ExportReadErr (e : error)
| ExportParseErr (e : error)
| ExportOk (a : A).
Arguments ExportReadErr {A} e.
Arguments ExportParseErr {A} e.
Arguments ExportOk {A} a.

(** The calls the program makes on a [linedb.Encoder], in order; the
    package is not part of the sources, so the bytes it produces are an
    oracle of the call sequence. *)
Inductive EncCall : Type :=
| EScalar (itemName : string)
| ETable (tableName : string)
| EEndTable
| EAddInt (v : Z)
| EAddInt64 (v : Z)
| EAddString (s : string)
| EEndRow
| EEmptyLine
| EComment (text : string).

(** What a [linedb.Decoder] yields, item by item. *)
Inductive DField : Type := DInt (v : Z) | DStr (s : string).
Inductive DItem : Type :=
| DScalar (itemName : string) (value : DField)
| DTable (tableName : string) (rows : list (list DField)).

(** Unpickled Python values, as [stalecucumber] hands them over. *)
#[local] Unset Elimination Schemes.
Inductive PyVal : Type :=
| PyInt (v : Z)
| PyStr (s : string)
| PyDict (d : list (PyVal * PyVal))
| PyOther (typeName : string).
#[local] Set Elimination Schemes.

(** The environment: every oracle sees the history of events so far, so
    that a remote service or a disk may answer differently each time. *)
Record Env : Type := mkEnv {
  io_MkdirAll : list Event -> string -> option error;
  io_ReadFile_fault : list Event -> string -> option error;
  io_WriteFile : list Event -> string -> string -> option error;
  io_Rename : list Event -> string -> string -> option error;
  xmlrpc_NewClient : string -> option error;
  xmlrpc_syncitems : list Event -> string -> string -> error + list LJSyncItem;
  xmlrpc_getevents : list Event -> Z -> string -> error + list LJEvent;
  flat_login : list Event -> Report + list (string * string);
  export_comments_meta : list Event -> Z -> string -> ExportResult LJCommentMetaChunk;
  export_comments_body : list Event -> Z -> string -> ExportResult LJCommentChunk;
  http_Get : list Event -> string -> HttpGetResult;
  mime_ExtensionsByType : string -> error + list string;
  url_QueryEscape : string -> string;
  blacklistedPictureFilenameChars_ReplaceAllString : string -> string;
  xml_Unmarshal_CommentFile : string -> error + list CommentRecord;
  xml_Encode_CommentFile : list CommentRecord -> string;
  linedb_GetBytes : list EncCall -> string;
  linedb_Decode : string -> list DItem * option error;
  pickle_Dict : string -> error + list (PyVal * PyVal);
  pickle_DictString : string -> error + list (string * PyVal);
  (** what a failed [ioutil.WriteFile] leaves behind: [None] when the file
      could not be opened (it is as before), [Some n] when it was created
      or truncated and the first [n] bytes of the data were written *)
  io_WriteFile_partial : list Event -> string -> string -> option nat;
  (** [make([]string, count)] for [count >= 0]: [Some msg] when the
      run-time system cannot allocate the array (it panics with
      "makeslice: len out of range", or aborts for lack of memory) *)
  runtime_makeslice : Z -> option string
}.

(** The state a run acts on: the event history, the files, and the two
    objects the Go code mutates through pointers. *)
Record St : Type := mkSt {
  trace : list Event;
  fs : gmap string string;
  jcx : journalContext;
  acct : accountData
}.

Definition set_trace (f : list Event -> list Event) (st : St) : St :=
  {| trace := f (trace st); fs := fs st; jcx := jcx st; acct := acct st |}.
Definition set_fs (f : gmap string string -> gmap string string) (st : St) : St :=
  {| trace := trace st; fs := f (fs st); jcx := jcx st; acct := acct st |}.
Definition set_jcx (f : journalContext -> journalContext) (st : St) : St :=
  {| trace := trace st; fs := fs st; jcx := f (jcx st); acct := acct st |}.
Definition set_acct (f : accountData -> accountData) (st : St) : St :=
  {| trace := trace st; fs := fs st; jcx := jcx st; acct := f (acct st) |}.

Definition set_db (f : journalDB -> journalDB) (j : journalContext) : journalContext :=
  {| config := config j; name := name j; dir := dir j; db := f (db j);
     shouldWriteDB := shouldWriteDB j; origDbLastSync := origDbLastSync j;
     newEntries := newEntries j; newComments := newComments j |}.
Definition set_shouldWriteDB (b : bool) (j : journalContext) : journalContext :=
  {| config := config j; name := name j; dir := dir j; db := db j;
     shouldWriteDB := b; origDbLastSync := origDbLastSync j;
     newEntries := newEntries j; newComments := newComments j |}.
Definition set_origDbLastSync (s : string) (j : journalContext) : journalContext :=
  {| config := config j; name := name j; dir := dir j; db := db j;
     shouldWriteDB := shouldWriteDB j; origDbLastSync := s;
     newEntries := newEntries j; newComments := newComments j |}.
Definition set_newEntries (n : Z) (j : journalContext) : journalContext :=
  {| config := config j; name := name j; dir := dir j; db := db j;
     shouldWriteDB := shouldWriteDB j; origDbLastSync := origDbLastSync j;
     newEntries := n; newComments := newComments j |}.
Definition set_newComments (n : Z) (j : journalContext) : journalContext :=
  {| config := config j; name := name j; dir := dir j; db := db j;
     shouldWriteDB := shouldWriteDB j; origDbLastSync := origDbLastSync j;
     newEntries := newEntries j; newComments := n |}.

Definition set_lastSync (s : string) (d : journalDB) : journalDB :=
  {| lastSync := s; userMap := userMap d; commentMap := commentMap d |}.
Definition set_userMap (m : GoMap.t UserId string) (d : journalDB) : journalDB :=
  {| lastSync := lastSync d; userMap := m; commentMap := commentMap d |}.
Definition set_commentMap (m : GoMap.t CommentId commentMeta) (d : journalDB) : journalDB :=
  {| lastSync := lastSync d; userMap := userMap d; commentMap := m |}.

(** ** The monad of the program

    A computation transforms the state and either returns, fails with a
    value of [E] (a returned [error] or [*Report]), panics, or runs out of
    the fuel its unbounded loops were given. *)
Inductive Res (E A : Type) : Type :=
| Ret (a : A)
| Failed (e : E)
| Panic (msg : string)
| OutOfFuel.
Arguments Ret {E A} a.
Arguments Failed {E A} e.
Arguments Panic {E A} msg.
Arguments OutOfFuel {E A}.

Definition M (E A : Type) : Type := St -> St * Res E A.

Definition ret {E A} (a : A) : M E A := fun st => (st, Ret a).
Definition throw {E A} (e : E) : M E A := fun st => (st, Failed e).
Definition panic {E A} (msg : string) : M E A := fun st => (st, Panic msg).
Definition outOfFuel {E A} : M E A := fun st => (st, OutOfFuel).

Definition bind {E A B} (m : M E A) (k : A -> M E B) : M E B :=
  fun st =>
    match m st with
    | (st', Ret a) => k a st'
    | (st', Failed e) => (st', Failed e)
    | (st', Panic msg) => (st', Panic msg)
    | (st', OutOfFuel) => (st', OutOfFuel)
    end.

Declare Scope go_scope.
Delimit Scope go_scope with go.
Notation "x <- m ;; k" := (bind m (fun x => k))
  (at level 100, m at next level, right associativity) : go_scope.
Notation "m ;; k" := (bind m (fun _ => k))
  (at level 100, right associativity) : go_scope.
Local Open Scope go_scope.

(** Run [m] and hand its failure to the caller as a value, the way Go code
    receives a returned [error] or [*Report]. *)
Definition catch {E E' A} (m : M E A) : M E' (option E) :=
  fun st =>
    match m st with
    | (st', Ret _) => (st', Ret None)
    | (st', Failed e) => (st', Ret (Some e))
    | (st', Panic msg) => (st', Panic msg)
    | (st', OutOfFuel) => (st', OutOfFuel)
    end.

(** Turn a returned [error] into a returned [*Report]. *)
Definition wrap {A} (f : error -> Report) (m : M error A) : M Report A :=
  fun st =>
    match m st with
    | (st', Ret a) => (st', Ret a)
    | (st', Failed e) => (st', Failed (f e))
    | (st', Panic msg) => (st', Panic msg)
    | (st', OutOfFuel) => (st', OutOfFuel)
    end.

Definition gets {E A} (f : St -> A) : M E A := fun st => (st, Ret (f st)).
Definition modify {E} (f : St -> St) : M E unit := fun st => (f st, Ret tt).
Definition emit {E} (ev : Event) : M E unit := modify (set_trace (fun t => t ++ [ev])).

(** [log(format, a...)]: one line on standard error. *)
Definition log {E} (line : string) : M E unit := emit (EvLog line).

(** [for _, x := range l { body }] where the body may return early. *)
Fixpoint forEach {E A} (l : list A) (body : A -> M E unit) : M E unit :=
  match l with
  | [] => ret tt
  | x :: l' => body x ;; forEach l' body
  end.

(** ** Sorting, as [sort.Strings] and [sort.Sort(sortIds)] do

    Both sort ascending by [<]; on a total order the ascending arrangement
    of a list is unique, so any correct sort models them exactly. *)
Definition string_le (s1 s2 : string) : Prop := Is_true (String.leb s1 s2).

#[global] Instance string_le_dec : RelDecision string_le.
Proof. intros s1 s2. unfold string_le. apply _. Defined.

Definition sort_Strings (keys : list string) : list string := merge_sort string_le keys.

Definition sort_sortIds (ids : list Z) : list Z := merge_sort Z.le ids.

(** ** Entry files: [writeLJEventDump] *)

Definition xml_Header : string :=
  "<?xml version=" +:+ dquote +:+ "1.0" +:+ dquote +:+
  " encoding=" +:+ dquote +:+ "UTF-8" +:+ dquote +:+ "?>" +:+ nl.

Definition is_upper (c : ascii) : bool :=
  (65 <=? nat_of_ascii c)%nat && (nat_of_ascii c <=? 90)%nat.
Definition is_lower (c : ascii) : bool :=
  (97 <=? nat_of_ascii c)%nat && (nat_of_ascii c <=? 122)%nat.

(** The loop of [isValidXmlTagName]; [first] says whether the index [j] is 0.
    Every accepted character is a one-byte rune, and the first byte of
    any other rune is rejected, so walking bytes is walking runes. *)
Fixpoint isValidXmlTagName_loop (first : bool) (s : string) : bool :=
  match s with
  | EmptyString => true
  | String c s' =>
      if is_upper c || is_lower c || Ascii.eqb c "_" then
        isValidXmlTagName_loop false s'
      else if negb first && (is_digit c || Ascii.eqb c "-" || Ascii.eqb c ".") then
        isValidXmlTagName_loop false s'
      else false
  end.

Definition isValidXmlTagName (s : string) : bool := isValidXmlTagName_loop true s.

(** What [addEscapeXmlValue] appends to the buffer. *)
Fixpoint addEscapeXmlValue (s : string) : string :=
  match s with
  | EmptyString => EmptyString
  | String b s' =>
      (if Ascii.eqb b "<" then "&lt;"
       else if Ascii.eqb b ">" then "&gt;"
       else if Ascii.eqb b "&" then "&amp;"
       else String b EmptyString) +:+ addEscapeXmlValue s'
  end.

(** The buffer is append-only, so each call is modelled by the text it
    appends, paired with the report it returns. *)
Section serializeMap.
  (** What the calls of [serializeTagValue] for one key append: one call per
      element for an array value ([serializeMap] drops their reports). *)
  Variable tagValue : string -> LJValue -> string.

Definition serializeKey (key : string) (value : LJValue) : string :=
    match value with
    | VArray a => String.concat "" (map (tagValue key) a)
    | _ => tagValue key value
    end.

  (** The first loop returns at the first invalid key it meets, in range
      order; the second walks the sorted keys and looks each value up. *)
Definition serializeMap_with (m : list (string * LJValue)) : string * option Report :=
    match List.find (fun key => negb (isValidXmlTagName key)) (map fst m) with
    | Some key =>
        ("", Some (ReportMsg ("cannot serialize map key '" +:+ key +:+ "' as XML name")))
    | None =>
        let appended := map (fun kv => (fst kv, serializeKey (fst kv) (snd kv))) m in
        (String.concat ""
           (map (fun key => default "" (GoMap.assoc key appended))
                (sort_Strings (map fst m))),
         None)
    end.
End serializeMap.

Fixpoint serializeTagValue (tag : string) (value : LJValue) {struct value}
  : string * option Report :=
  let opening := "<" +:+ tag in
  let closing := "</" +:+ tag +:+ ">" +:+ nl in
  match value with
  | VNil => (opening +:+ "/>" +:+ nl, None)
  | VInt v => (opening +:+ ">" +:+ fmt_d v +:+ closing, None)
  | VInt64 v => (opening +:+ ">" +:+ fmt_d v +:+ closing, None)
  | VString s => (opening +:+ ">" +:+ addEscapeXmlValue s +:+ closing, None)
  | VMap m =>
      match serializeMap_with (fun key v => fst (serializeTagValue key v)) m with
      | (out, Some r) => (opening +:+ ">" +:+ nl +:+ out, Some r)
      | (out, None) => (opening +:+ ">" +:+ nl +:+ out +:+ closing, None)
      end
  | VArray _ =>
      (opening +:+ ">", Some (ReportMsg "unsupported []interface {} type in received LJEvent"))
  | VOther ty =>
      (opening +:+ ">", Some (ReportMsg ("unsupported " +:+ ty +:+ " type in received LJEvent")))
  end.

Definition serializeMap (m : list (string * LJValue)) : string * option Report :=
  serializeMap_with (fun key v => fst (serializeTagValue key v)) m.

Section Program.
Variable env : Env.

(** ** Files *)

(** [ioutil.ReadFile]: [Ret None] is the error that satisfies
    [os.IsNotExist], [Failed e] any other error. *)
Definition ReadFile (path : string) : M error (option string) :=
  emit (EvReadFile path) ;;
  t <- gets trace ;;
  match io_ReadFile_fault env t path with
  | Some e => throw e
  | None => gets (fun st => fs st !! path)
  end.

(** [writeFileTempRename]: write a sibling temporary file, then rename it
    onto the target.  A write that fails may have created or truncated the
    temporary file already, and leaves what it had written of the data. *)
Definition writeFileTempRename (filePath data : string) : M error unit :=
  let tmp := filePath +:+ ".tmp" in
  t <- gets trace ;;
  match io_WriteFile env t tmp data with
  | Some e =>
      emit (EvWriteFile tmp data false) ;;
      modify (set_fs (fun f =>
        match io_WriteFile_partial env t tmp data with
        | Some n => <[tmp := String.substring 0 n data]> f
        | None => f
        end)) ;;
      throw e
  | None =>
      emit (EvWriteFile tmp data true) ;;
      modify (set_fs (insert tmp data)) ;;
      t' <- gets trace ;;
      match io_Rename env t' tmp filePath with
      | Some e => emit (EvRename tmp filePath false) ;; throw e
      | None =>
          emit (EvRename tmp filePath true) ;;
          modify (set_fs (fun f => <[filePath := data]> (delete tmp f)))
      end
  end.

Definition writeLJEventDump (eventType : ascii) (itemId : Z) (event : LJEvent)
  : M Report unit :=
  match serializeMap event with
  | (_, Some r) => throw r
  | (body, None) =>
      let buf := xml_Header +:+ "<event>" +:+ nl +:+ body +:+ "</event>" +:+ nl in
      d <- gets (fun st => dir (jcx st)) ;;
      let eventPath :=
        filepath_Join d (String eventType EmptyString +:+ "-" +:+ fmt_d itemId) in
      wrap (fun e => WrapErr e "") (writeFileTempRename eventPath buf)
  end.

(** ** Post synchronisation: [dumpJournalPosts] *)

(** [callWithLogin("getevents", ...)]. *)
Definition call_getevents (itemid : Z) : M Report (list LJEvent) :=
  j <- gets (fun st => name (jcx st)) ;;
  emit (EvGetEvents itemid j) ;;
  t <- gets trace ;;
  match xmlrpc_getevents env t itemid j with
  | inl e => throw (WrapErr e "")
  | inr events => ret events
  end.

(** [callWithLogin("syncitems", ...)]. *)
Definition call_syncitems : M Report (list LJSyncItem) :=
  j <- gets (fun st => name (jcx st)) ;;
  ls <- gets (fun st => lastSync (db (jcx st))) ;;
  emit (EvSyncItems ls j) ;;
  t <- gets trace ;;
  match xmlrpc_syncitems env t ls j with
  | inl e => throw (WrapErr e "")
  | inr items => ret items
  end.

(** The warning of both malformed-id branches: its argument is
    [item.Item[1]], an index expression that panics on an id shorter than
    two bytes. *)
Definition warnInvalidSyncItem (item : LJSyncItem) : M Report unit :=
  match String.get 1 (Item item) with
  | None => panic "runtime error: index out of range"
  | Some b => log ("WARNING: invalid SyncItems id " +:+ fmt_s_byte b)
  end.

(** The body of [for _, item := range syncItemsResult.SyncItems]. *)
Definition syncItem (item : LJSyncItem) : M Report unit :=
  if (String.length (Item item) <? 3)%nat
     || negb (bool_decide (String.get 1 (Item item) = Some "-"%char))
  then warnInvalidSyncItem item
  else
    match ParseInt (string_drop 2 (Item item)) with
    | None => warnInvalidSyncItem item
    | Some itemid =>
        (if bool_decide (String.get 0 (Item item) = Some "L"%char) then
           log ("Fetching journal entry " +:+ Item item +:+ " (" +:+ Action item +:+ ")") ;;
           events <- call_getevents itemid ;;
           match events with
           | [] => throw (ReportMsg ("Unexpected empty item " +:+ Item item))
           | event :: _ =>
               writeLJEventDump "L" itemid event ;;
               modify (set_jcx (fun j => set_newEntries (wrap64 (newEntries j + 1)) j))
           end
         else ret tt) ;;
        modify (set_jcx (fun j =>
          set_shouldWriteDB true (set_db (set_lastSync (Time item)) j)))
    end.

(** The outer [for] loop: one iteration per page of the change feed. *)
Fixpoint dumpJournalPosts_loop (fuel : nat) : M Report unit :=
  match fuel with
  | O => outOfFuel
  | S fuel' =>
      items <- call_syncitems ;;
      match items with
      | [] => ret tt
      | _ => forEach items syncItem ;; dumpJournalPosts_loop fuel'
      end
  end.

Definition dumpJournalPosts (fuel : nat) : M Report unit :=
  j <- gets jcx ;;
  log ("Fetching journal entries for: " +:+ name j) ;;
  match xmlrpc_NewClient env (server (config j) +:+ "/interface/xmlrpc") with
  | Some e => throw (WrapErr e "")
  | None => dumpJournalPosts_loop fuel
  end.

(** ** Comment synchronisation: [dumpJournalComments] *)

Definition authas_of (j : journalContext) : string :=
  if decide (username (config j) = name j) then ""
  else "&authas=" +:+ url_QueryEscape env (name j).

Definition metaChunk_in_int64 (chunk : LJCommentMetaChunk) : bool :=
  in_int64 (MaxId chunk)
  && forallb (fun c => in_int64 (cm_Id c) && in_int64 (cm_PosterId c)) (mc_Comments chunk)
  && forallb (fun u => in_int64 (um_Id u)) (UserMaps chunk).

Definition chunk_in_int64 (chunk : LJCommentChunk) : bool :=
  forallb (fun c => in_int64 (c_Id c) && in_int64 (c_PosterId c) && in_int64 (c_JItemId c))
          (cc_Comments chunk).

(** [fetchCommentData("meta", maxid, &metaChunk)].  The request asks for
    [startid = maxid+1], an [int64] sum.  [xml.Unmarshal] reads every
    [int64] field with [strconv.ParseInt] and fails on a value outside the
    type, so a decoded chunk only holds [int64] values. *)
Definition fetchCommentData_meta (maxid : CommentId) : M Report LJCommentMetaChunk :=
  j <- gets jcx ;;
  emit (EvExportComments "meta" (wrap64 (maxid + 1)) (authas_of j)) ;;
  t <- gets trace ;;
  match export_comments_meta env t (wrap64 (maxid + 1)) (authas_of j) with
  | ExportReadErr e => throw (WrapErr e "failed to read comment_meta response")
  | ExportParseErr e =>
      throw (WrapErr e "failed to process comments_meta response, possibly not community maintainer?")
  | ExportOk chunk =>
      if metaChunk_in_int64 chunk then ret chunk
      else throw (WrapErr "value out of range"
             "failed to process comments_meta response, possibly not community maintainer?")
  end.

(** [fetchCommentData("body", maxid, &chunk)]. *)
Definition fetchCommentData_body (maxid : CommentId) : M Report LJCommentChunk :=
  j <- gets jcx ;;
  emit (EvExportComments "body" (wrap64 (maxid + 1)) (authas_of j)) ;;
  t <- gets trace ;;
  match export_comments_body env t (wrap64 (maxid + 1)) (authas_of j) with
  | ExportReadErr e => throw (WrapErr e "failed to read comment_body response")
  | ExportParseErr e =>
      throw (WrapErr e "failed to process comments_body response, possibly not community maintainer?")
  | ExportOk chunk =>
      if chunk_in_int64 chunk then ret chunk
      else throw (WrapErr "value out of range"
             "failed to process comments_body response, possibly not community maintainer?")
  end.

(** [maxStoredCommentId]: the largest key of [jcx.db.commentMap], or -1. *)
Definition maxStoredCommentId_of (m : GoMap.t CommentId commentMeta) : CommentId :=
  fold_left (fun mx id => if mx <? id then id else mx) (GoMap.keys m) (-1).

(** The locals of [dumpJournalComments] that the meta pass fills:
    [newComments], [newCommentUsers] (both made, never nil) and [newMaxId]. *)
Record MetaLocals : Type := mkMetaLocals {
  l_newComments : list (CommentId * commentMeta);
  l_newCommentUsers : list (UserId * string);
  l_newMaxId : CommentId
}.

(** One chunk of the meta pass: the two [for] loops over its content. *)
Definition absorbMetaChunk (chunk : LJCommentMetaChunk) (l : MetaLocals) : MetaLocals :=
  let after_comments :=
    fold_left
      (fun acc c =>
         (GoMap.update (cm_Id c) (mkCommentMeta (cm_PosterId c) (cm_State c)) (fst acc),
          if snd acc <? cm_Id c then cm_Id c else snd acc))
      (mc_Comments chunk) (l_newComments l, l_newMaxId l) in
  {| l_newComments := fst after_comments;
     l_newCommentUsers :=
       fold_left (fun acc u => GoMap.update (um_Id u) (um_User u) acc)
                 (UserMaps chunk) (l_newCommentUsers l);
     l_newMaxId := snd after_comments |}.

(** The meta pass: the first [for] loop. *)
Fixpoint metaPass (fuel : nat) (l : MetaLocals) : M Report MetaLocals :=
  match fuel with
  | O => outOfFuel
  | S fuel' =>
      metaChunk <- fetchCommentData_meta (l_newMaxId l) ;;
      let l' := absorbMetaChunk metaChunk l in
      if l_newMaxId l' >=? MaxId metaChunk then ret l'
      else metaPass fuel' l'
  end.

(** The scan of the stored records for one with the id of [record]:
    [None] when there is none ([foundDup] stays false), otherwise the
    records after the scan and [shouldStore]. *)
Fixpoint scanStored (stored : list CommentRecord) (record : CommentRecord)
  : option (list CommentRecord * bool) :=
  match stored with
  | [] => None
  | s :: rest =>
      if decide (r_Id s = r_Id record) then
        if decide (s = record) then Some (s :: rest, false)
        else Some (record :: rest, true)
      else
        match scanStored rest record with
        | None => None
        | Some (rest', shouldStore) => Some (s :: rest', shouldStore)
        end
  end.

(** The merge of a fetched record into the records of its file:
    the new records, [foundDup] and [shouldStore]. *)
Definition mergeComment (stored : list CommentRecord) (record : CommentRecord)
  : list CommentRecord * bool * bool :=
  match scanStored stored record with
  | Some (stored', shouldStore) => (stored', true, shouldStore)
  | None => (stored ++ [record], false, true)
  end.

(** The record of a fetched comment, with its state and user resolved from
    the meta pass first and from the persisted state second. *)
Definition makeRecord (l : MetaLocals) (d : journalDB) (c : LJComment) : CommentRecord :=
  let st :=
    if decide (c_State c = "") then
      match GoMap.assoc (c_Id c) (l_newComments l) with
      | Some cm => state cm
      | None =>
          match GoMap.get (commentMap d) (c_Id c) with
          | Some cm => state cm
          | None => ""
          end
      end
    else c_State c in
  let user :=
    if decide (c_PosterId c = 0) then ""
    else
      match GoMap.assoc (c_PosterId c) (l_newCommentUsers l) with
      | Some u => u
      | None => default "" (GoMap.get (userMap d) (c_PosterId c))
      end in
  {| r_Id := c_Id c; r_State := st; r_User := user; r_ParentId := c_ParentId c;
     r_Date := c_Date c; r_Subject := c_Subject c; r_Body := c_Body c |}.

Definition commentFilePath_of (j : journalContext) (jitemid : Z) : string :=
  filepath_Join (dir j) ("C-" +:+ fmt_d jitemid).

(** The records of the comment file at [path]; none when it does not exist. *)
Definition readStoredComments (path : string) : M Report (list CommentRecord) :=
  olddata <- wrap (fun e => WrapErr e ("error while reading old comments from " +:+ path))
                  (ReadFile path) ;;
  match olddata with
  | None => ret []
  | Some data =>
      match xml_Unmarshal_CommentFile env data with
      | inl e => throw (WrapErr e ("failed to parse old comments from " +:+ path))
      | inr comments => ret comments
      end
  end.

Definition already_downloaded_line (record : CommentRecord) (path : string) : string :=
  "comment id " +:+ fmt_d (r_Id record) +:+ " was already downloaded in " +:+ path.

Definition duplicate_line (record : CommentRecord) (path : string) : string :=
  "Warning: downloaded duplicate comment id " +:+ fmt_d (r_Id record)
  +:+ " with different content in " +:+ path.

(** The end of the loop body, once the stored records are read: the scan,
    the append, and the write under [shouldStore]. *)
Definition storeMerged (path : string) (record : CommentRecord)
    (stored : list CommentRecord) : M Report unit :=
  match mergeComment stored record with
  | (stored', foundDup, shouldStore) =>
      (if foundDup then
         if shouldStore then log (duplicate_line record path)
         else log (already_downloaded_line record path)
       else ret tt) ;;
      if shouldStore then
        wrap (fun e => WrapErr e "")
             (writeFileTempRename path
                (xml_Header +:+ xml_Encode_CommentFile env stored' +:+ nl)) ;;
        modify (set_jcx (fun j => set_newComments (wrap64 (newComments j + 1)) j))
      else ret tt
  end.

(** The body of [for i := range chunk.Comments], after [maxFetchedId] is
    updated. *)
Definition storeComment (l : MetaLocals) (c : LJComment) : M Report unit :=
  j <- gets jcx ;;
  let record := makeRecord l (db j) c in
  let commentFilePath := commentFilePath_of j (c_JItemId c) in
  stored <- readStoredComments commentFilePath ;;
  storeMerged commentFilePath record stored.

(** [for i := range chunk.Comments]: stores each comment and returns the
    new [maxFetchedId]. *)
Fixpoint storeChunk (l : MetaLocals) (comments : list LJComment) (maxFetchedId : CommentId)
  : M Report CommentId :=
  match comments with
  | [] => ret maxFetchedId
  | c :: rest =>
      storeComment l c ;;
      storeChunk l rest (if maxFetchedId <? c_Id c then c_Id c else maxFetchedId)
  end.

(** The body pass: the second [for] loop. *)
Fixpoint bodyPass (fuel : nat) (l : MetaLocals) (maxFetchedId : CommentId)
  : M Report CommentId :=
  match fuel with
  | O => outOfFuel
  | S fuel' =>
      chunk <- fetchCommentData_body maxFetchedId ;;
      maxFetchedId' <- storeChunk l (cc_Comments chunk) maxFetchedId ;;
      if maxFetchedId' >=? l_newMaxId l then ret maxFetchedId'
      else bodyPass fuel' l maxFetchedId'
  end.

(** [jcx.db.commentMap[commentId] = commentMeta] *)
Definition assign_commentMap (kv : CommentId * commentMeta) : M Report unit :=
  m <- gets (fun st => commentMap (db (jcx st))) ;;
  match GoMap.set m (fst kv) (snd kv) with
  | None => panic "assignment to entry in nil map"
  | Some m' => modify (set_jcx (set_db (set_commentMap m')))
  end.

(** [jcx.db.userMap[userId] = user] *)
Definition assign_userMap (kv : UserId * string) : M Report unit :=
  m <- gets (fun st => userMap (db (jcx st))) ;;
  match GoMap.set m (fst kv) (snd kv) with
  | None => panic "assignment to entry in nil map"
  | Some m' => modify (set_jcx (set_db (set_userMap m')))
  end.

(** The merge that ends [dumpJournalComments]. *)
Definition mergeNewMeta (l : MetaLocals) : M Report unit :=
  if negb (length (l_newComments l) =? 0)%nat || negb (length (l_newCommentUsers l) =? 0)%nat
  then
    forEach (l_newComments l) assign_commentMap ;;
    forEach (l_newCommentUsers l) assign_userMap ;;
    modify (set_jcx (set_shouldWriteDB true))
  else ret tt.

Definition dumpJournalComments (fuel : nat) : M Report unit :=
  j <- gets jcx ;;
  log ("Fetching journal comments for: " +:+ name j) ;;
  let maxStoredCommentId := maxStoredCommentId_of (commentMap (db j)) in
  l <- metaPass fuel {| l_newComments := []; l_newCommentUsers := [];
                        l_newMaxId := maxStoredCommentId |} ;;
  bodyPass fuel l maxStoredCommentId ;;
  mergeNewMeta l.

(** ** The journal state file: [writeJournalDB], [readJournalDB] *)

(** The calls [writeJournalDB] makes on its encoder. *)
Definition journalDB_calls (d : journalDB) : list EncCall :=
  [EScalar "lastSync"; EAddString (lastSync d);
   EEmptyLine; EComment "map from user-id to user-name"; ETable "users"]
  ++ flat_map
       (fun userId =>
          [EAddInt64 userId; EAddString (default "" (GoMap.get (userMap d) userId)); EEndRow])
       (sort_sortIds (GoMap.keys (userMap d)))
  ++ [EEndTable;
      EEmptyLine; EComment "map from comment-id to (poster-id state)"; ETable "commentMeta"]
  ++ flat_map
       (fun commentId =>
          let cm := default (mkCommentMeta 0 "") (GoMap.get (commentMap d) commentId) in
          [EAddInt64 commentId; EAddInt64 (posterId cm); EAddString (state cm); EEndRow])
       (sort_sortIds (GoMap.keys (commentMap d)))
  ++ [EEndTable].

Definition writeJournalDB : M Report unit :=
  j <- gets jcx ;;
  let dbpath := filepath_Join (dir j) journalDBFileName in
  wrap (fun e => WrapErr e ("failed to write journal db file " +:+ dbpath))
       (writeFileTempRename dbpath (linedb_GetBytes env (journalDB_calls (db j)))).

(** [bufio.Scanner]'s first line: up to the first line feed, without a
    trailing carriage return; none for empty input. *)
Fixpoint upto_newline (s : string) : string :=
  match s with
  | EmptyString => EmptyString
  | String c s' => if Ascii.eqb c (ascii_of_nat 10) then EmptyString else String c (upto_newline s')
  end.

Fixpoint drop_trailing_cr (s : string) : string :=
  match s with
  | EmptyString => EmptyString
  | String c EmptyString => if Ascii.eqb c (ascii_of_nat 13) then EmptyString else s
  | String c s' => String c (drop_trailing_cr s')
  end.

Definition firstLine (data : string) : option string :=
  match data with
  | EmptyString => None
  | _ => Some (drop_trailing_cr (upto_newline data))
  end.

(** [os.Open] followed by reading the whole file; [Ret None] when the file
    does not exist. *)
Definition openAndRead (path : string) : M error (option string) := ReadFile path.

Definition readPythonLastRunFile : M error unit :=
  modify (set_jcx (set_db (set_lastSync ""))) ;;
  d <- gets (fun st => dir (jcx st)) ;;
  content <- openAndRead (filepath_Join d ".last") ;;
  match content with
  | None => ret tt
  | Some data =>
      match firstLine data with
      | Some line => modify (set_jcx (set_db (set_lastSync line)))
      | None => ret tt
      end
  end.

Definition parseUserId (idstr : string) : error + UserId :=
  if decide (idstr = "") then inr 0
  else
    match ParseInt idstr with
    | Some id => inr id
    | None => inl "failed to parse user id string as int64"
    end.

Definition py_typeName (v : PyVal) : string :=
  match v with
  | PyInt _ => "int64"
  | PyStr _ => "string"
  | PyDict _ => "map[interface {}]interface {}"
  | PyOther ty => ty
  end.

(** [structValue[key]] for a string key of an unpickled dictionary. *)
Fixpoint py_index (key : string) (d : list (PyVal * PyVal)) : option PyVal :=
  match d with
  | [] => None
  | (PyStr k, v) :: d' => if decide (k = key) then Some v else py_index key d'
  | _ :: d' => py_index key d'
  end.

Definition py_field_typeName (v : option PyVal) : string :=
  match v with Some x => py_typeName x | None => "<nil>" end.

(** One entry of the pickled comment map. *)
Definition pythonCommentMetaEntry (p : string) (kv : PyVal * PyVal) : M error unit :=
  match fst kv with
  | PyInt idnum =>
      match snd kv with
      | PyDict structValue =>
          match py_index "posterid" structValue with
          | Some (PyStr posterIdStr) =>
              match py_index "state" structValue with
              | Some (PyStr st) =>
                  match parseUserId posterIdStr with
                  | inl e => throw e
                  | inr pid =>
                      modify (set_jcx (set_db (fun d =>
                        set_commentMap
                          (option_map (GoMap.update idnum (mkCommentMeta pid st)) (commentMap d)) d)))
                  end
              | other =>
                  throw ("Unexpected state type " +:+ py_field_typeName other +:+ " in " +:+ p)
              end
          | other =>
              throw ("Unexpected posterid type " +:+ py_field_typeName other +:+ " in " +:+ p)
          end
      | other => throw ("Unexpected value type " +:+ py_typeName other +:+ " in " +:+ p)
      end
  | other => throw ("Unexpected key type " +:+ py_typeName other +:+ " in " +:+ p)
  end.

Definition readPythonCommentMeta : M error unit :=
  d <- gets (fun st => dir (jcx st)) ;;
  let p := filepath_Join d "comment.meta" in
  content <- openAndRead p ;;
  match content with
  | None => ret tt
  | Some data =>
      match pickle_Dict env data with
      | inl e => throw e
      | inr pythonData =>
          modify (set_jcx (set_db (set_commentMap GoMap.make))) ;;
          forEach pythonData (pythonCommentMetaEntry p)
      end
  end.

(** One entry of the pickled user map. *)
Definition pythonUserMapEntry (p : string) (kv : string * PyVal) : M error unit :=
  match snd kv with
  | PyStr user =>
      match parseUserId (fst kv) with
      | inl e => throw e
      | inr userId =>
          modify (set_jcx (set_db (fun d =>
            set_userMap (option_map (GoMap.update userId user) (userMap d)) d)))
      end
  | other => throw ("Unexpected user name type " +:+ py_typeName other +:+ " in " +:+ p)
  end.

Definition readPythonUserMap : M error unit :=
  d <- gets (fun st => dir (jcx st)) ;;
  let p := filepath_Join d "user.map" in
  content <- openAndRead p ;;
  match content with
  | None => ret tt
  | Some data =>
      match pickle_DictString env data with
      | inl e => throw e
      | inr pythonData =>
          modify (set_jcx (set_db (set_userMap GoMap.make))) ;;
          forEach pythonData (pythonUserMapEntry p)
      end
  end.

(** Typed field extraction from a decoded row; a missing or ill-typed
    field yields the zero value. *)
Definition field_GetInt64 (row : list DField) : Z * list DField :=
  match row with
  | DInt v :: rest => (v, rest)
  | _ :: rest => (0, rest)
  | [] => (0, [])
  end.

Definition field_GetString (row : list DField) : string * list DField :=
  match row with
  | DStr s :: rest => (s, rest)
  | _ :: rest => ("", rest)
  | [] => ("", [])
  end.

(** One decoded item of the journal state file, applied to the state the
    current-format branch of [readJournalDB] has prepared (both maps made). *)
Definition journalDB_item (d : journalDB) (it : DItem) : journalDB :=
  match it with
  | DScalar nm v =>
      if decide (nm = "lastSync") then set_lastSync (fst (field_GetString [v])) d else d
  | DTable nm rows =>
      fold_left
        (fun d row =>
           if decide (nm = "users") then
             let '(uid, row1) := field_GetInt64 row in
             let '(user, _) := field_GetString row1 in
             set_userMap (option_map (GoMap.update uid user) (userMap d)) d
           else if decide (nm = "commentMeta") then
             let '(cid, row1) := field_GetInt64 row in
             let '(pid, row2) := field_GetInt64 row1 in
             let '(st, _) := field_GetString row2 in
             set_commentMap (option_map (GoMap.update cid (mkCommentMeta pid st)) (commentMap d)) d
           else d)
        rows d
  end.

Definition readJournalDB : M Report unit :=
  j <- gets jcx ;;
  let dbpath := filepath_Join (dir j) journalDBFileName in
  dbdata <- wrap (fun e => WrapErr e "") (ReadFile dbpath) ;;
  (if (String.length (default "" dbdata) =? 0)%nat then
     log ("Converting Python Journal DB into " +:+ dbpath) ;;
     wrap (fun e => WrapErr e ("error while reading old python-generated DB files for journal "
                               +:+ name j))
          (readPythonLastRunFile ;; readPythonCommentMeta ;; readPythonUserMap) ;;
     writeJournalDB
   else
     modify (set_jcx (set_db (fun d =>
       fold_left journalDB_item (fst (linedb_Decode env (default "" dbdata)))
                 (set_commentMap GoMap.make (set_userMap GoMap.make d)))))) ;;
  modify (set_jcx (fun j => set_origDbLastSync (lastSync (db j)) j)).

(** ** The journal driver: [dumpJournal] *)

Definition MkdirAll (path : string) : M error unit :=
  emit (EvMkdirAll path) ;;
  t <- gets trace ;;
  match io_MkdirAll env t path with
  | Some e => throw e
  | None => ret tt
  end.

(** [r := dumpJournalPosts(jcx); if r == nil { r = dumpJournalComments(jcx) }] *)
Definition syncJournal (fuel : nat) : M Report (option Report) :=
  r <- catch (dumpJournalPosts fuel) ;;
  match r with
  | None => catch (dumpJournalComments fuel)
  | Some _ => ret r
  end.

(** [if jcx.shouldWriteDB { r = CombineReports(r, writeJournalDB(jcx)) }] *)
Definition persistJournal (r : option Report) : M Report (option Report) :=
  shouldWrite <- gets (fun st => shouldWriteDB (jcx st)) ;;
  if shouldWrite : bool then
    r2 <- catch writeJournalDB ;; ret (CombineReports r r2)
  else ret r.

Definition dumpJournal (fuel : nat) : M Report unit :=
  readJournalDB ;;
  j <- gets jcx ;;
  wrap (fun e => WrapErr e ("failed to create directory for journal " +:+ dir j))
       (MkdirAll (dir j)) ;;
  r <- syncJournal fuel ;;
  r <- persistJournal r ;;
  match r with
  | None =>
      j <- gets jcx ;;
      (if decide (origDbLastSync j = "") then
         log (fmt_d (newEntries j) +:+ " new entries, " +:+ fmt_d (newComments j)
              +:+ " new comments")
       else
         log (fmt_d (newEntries j) +:+ " new entries, " +:+ fmt_d (newComments j)
              +:+ " new comments (since " +:+ origDbLastSync j +:+ ")"))
  | Some rep => throw rep
  end.

(** ** The account state file: [writeAccountData], [readAccountData] *)

(** The calls of [addSortedMapKeyValue] on the encoder. *)
Definition addSortedMapKeyValue (tableName : string) (m : GoMap.t string string)
  : list EncCall :=
  [ETable tableName]
  ++ flat_map
       (fun key => [EAddString key; EAddString (default "" (GoMap.get m key)); EEndRow])
       (sort_Strings (GoMap.keys m))
  ++ [EEndTable].

Definition accountData_calls (a : accountData) : list EncCall :=
  [EScalar "fileCounter"; EAddInt (fileCounter a);
   EScalar "pictureDefaultUrl"; EAddString (pictureDefaultUrl a);
   EEmptyLine; EComment "map from url to filename"]
  ++ addSortedMapKeyValue "pictureUrlFileMap" (pictureUrlFileMap a)
  ++ [EEmptyLine; EComment "map from picture-keyword to picture-url"]
  ++ addSortedMapKeyValue "pictureKeywordUrlMap" (pictureKeywordUrlMap a).

Definition writeAccountData (cfg : Config) : M Report unit :=
  a <- gets acct ;;
  let dbpath := filepath_Join (accountDataDir cfg) accountDataDBFileName in
  wrap (fun e => WrapErr e ("failed to write account data db file " +:+ dbpath))
       (writeFileTempRename dbpath (linedb_GetBytes env (accountData_calls a))).

Definition set_fileCounter (n : Z) (a : accountData) : accountData :=
  {| fileCounter := n; pictureDefaultUrl := pictureDefaultUrl a;
     pictureUrlFileMap := pictureUrlFileMap a;
     pictureKeywordUrlMap := pictureKeywordUrlMap a |}.
Definition set_pictureDefaultUrl (u : string) (a : accountData) : accountData :=
  {| fileCounter := fileCounter a; pictureDefaultUrl := u;
     pictureUrlFileMap := pictureUrlFileMap a;
     pictureKeywordUrlMap := pictureKeywordUrlMap a |}.
Definition set_pictureUrlFileMap (m : GoMap.t string string) (a : accountData) : accountData :=
  {| fileCounter := fileCounter a; pictureDefaultUrl := pictureDefaultUrl a;
     pictureUrlFileMap := m;
     pictureKeywordUrlMap := pictureKeywordUrlMap a |}.
Definition set_pictureKeywordUrlMap (m : GoMap.t string string) (a : accountData) : accountData :=
  {| fileCounter := fileCounter a; pictureDefaultUrl := pictureDefaultUrl a;
     pictureUrlFileMap := pictureUrlFileMap a;
     pictureKeywordUrlMap := m |}.

(** One decoded item of the account state file. *)
Definition accountData_item (a : accountData) (it : DItem) : accountData :=
  match it with
  | DScalar nm v =>
      if decide (nm = "fileCounter") then set_fileCounter (fst (field_GetInt64 [v])) a
      else if decide (nm = "pictureDefaultUrl") then
        set_pictureDefaultUrl (fst (field_GetString [v])) a
      else a
  | DTable nm rows =>
      fold_left
        (fun a row =>
           let '(k, row1) := field_GetString row in
           let '(v, _) := field_GetString row1 in
           if decide (nm = "pictureUrlFileMap") then
             set_pictureUrlFileMap (option_map (GoMap.update k v) (pictureUrlFileMap a)) a
           else if decide (nm = "pictureKeywordUrlMap") then
             set_pictureKeywordUrlMap (option_map (GoMap.update k v) (pictureKeywordUrlMap a)) a
           else a)
        rows a
  end.

(** The account data [readAccountData] starts from: both maps are made
    "so entries can be added". *)
Definition empty_accountData : accountData :=
  {| fileCounter := 0; pictureDefaultUrl := "";
     pictureUrlFileMap := GoMap.make; pictureKeywordUrlMap := GoMap.make |}.

Definition readAccountData (cfg : Config) : M Report unit :=
  modify (set_acct (fun _ => empty_accountData)) ;;
  let dbpath := filepath_Join (accountDataDir cfg) accountDataDBFileName in
  dbdata <- wrap (fun e => WrapErr e "") (ReadFile dbpath) ;;
  match dbdata with
  | None => ret tt
  | Some data =>
      let '(items, derr) := linedb_Decode env data in
      modify (set_acct (fun a => fold_left accountData_item items a)) ;;
      match derr with
      | Some e =>
          throw (WrapErr e ("error while parsing account data file " +:+ dbpath +:+ " as linedb"))
      | None => ret tt
      end
  end.

(** ** Picture synchronisation: [dumpAccountData] *)

(** The elements [1..count] of a flat-protocol array, read in order; the
    loop returns at the first missing key. *)
Fixpoint getLJFlatArray_loop (arrayName : string) (m : list (string * string))
    (i : Z) (count : nat) : Report + list string :=
  match count with
  | O => inr []
  | S count' =>
      let key := arrayName +:+ "_" +:+ fmt_d (i + 1) in
      match GoMap.assoc key m with
      | None => inl (ReportMsg ("no " +:+ key +:+ " key in LJ flat response"))
      | Some value =>
          match getLJFlatArray_loop arrayName m (i + 1) count' with
          | inl r => inl r
          | inr rest => inr (value :: rest)
          end
      end
  end.

Definition getLJFlatArray (arrayName : string) (m : list (string * string))
  : Res Report (list string) :=
  let key := arrayName +:+ "_count" in
  let countStr := default "" (GoMap.assoc key m) in
  if decide (countStr = "") then Failed (ReportMsg ("no " +:+ key +:+ " key in LJ flat response"))
  else
    match ParseInt countStr with
    | None =>
        Failed (WrapErr "strconv.Atoi: parsing failed"
                  ("value '" +:+ countStr +:+ "' for " +:+ key
                   +:+ " key in LJ flat response is not an integer"))
    | Some count =>
        if count <? 0 then
          Failed (ReportMsg ("value '" +:+ countStr +:+ "' for " +:+ key
                             +:+ " key in LJ flat response is negative"))
        else
          (* a := make([]string, count) *)
          match runtime_makeslice env count with
          | Some msg => Panic msg
          | None =>
              match getLJFlatArray_loop arrayName m 0 (Z.to_nat count) with
              | inl r => Failed r
              | inr a => Ret a
              end
          end
    end.

Definition convertPictureKeywordToFilename (keyword : string) : string :=
  blacklistedPictureFilenameChars_ReplaceAllString env keyword.

(** The extension chosen for a downloaded picture. *)
Definition pictureExtension (contentType : string) : string :=
  if decide (contentType = "") then ".bin"
  else
    match mime_ExtensionsByType env contentType with
    | inr (ext :: _) => ext
    | _ => ".bin"
    end.

(** [accountData.pictureUrlFileMap[url] = pictureFile] and the like: an
    assignment to an entry of a map of the account data. *)
Definition assign_acct (getm : accountData -> GoMap.t string string)
    (setm : GoMap.t string string -> accountData -> accountData)
    (k v : string) : M Report unit :=
  m <- gets (fun st => getm (acct st)) ;;
  match GoMap.set m k v with
  | None => panic "assignment to entry in nil map"
  | Some m' => modify (set_acct (setm m'))
  end.

(** The closure [fetchAnsStorePictureUrl]; [keywordIndex] is -1 for the
    default picture.  It takes the captured variable [updated] and returns
    its value after the call. *)
Definition fetchAnsStorePictureUrl (cfg : Config) (keywords : list string)
    (keywordIndex : Z) (url : string) (updated : bool) : M Report bool :=
  a <- gets acct ;;
  if bool_decide (url = "")
     || negb (bool_decide (default "" (GoMap.get (pictureUrlFileMap a) url) = ""))
  then ret updated
  else
    match (if 0 <=? keywordIndex then keywords !! Z.to_nat keywordIndex else Some "") with
    | None => panic "runtime error: index out of range"
    | Some keyword =>
        if (0 <=? keywordIndex) && bool_decide (keyword = "") then
          log ("WARNING: got empty keyword for user picture " +:+ url) ;;
          ret updated
        else
          (if bool_decide (keyword = "")
           then log ("Fetching new default user picture " +:+ url)
           else log ("Fetching new '" +:+ keyword +:+ "' user picture " +:+ url)) ;;
          emit (EvHttpGet url) ;;
          t <- gets trace ;;
          match http_Get env t url with
          | GetOk contentType (inr data) None =>
              let extension := pictureExtension contentType in
              let separator := if bool_decide (keyword = "") then "" else "-" in
              let fileName :=
                if bool_decide (keyword = "") then ""
                else convertPictureKeywordToFilename keyword in
              modify (set_acct (fun a => set_fileCounter (wrap64 (fileCounter a + 1)) a)) ;;
              n <- gets (fun st => fileCounter (acct st)) ;;
              let pictureFile :=
                "user-picture-" +:+ fmt_d n +:+ separator +:+ fileName +:+ extension in
              let picturePath := filepath_Join (accountDataDir cfg) pictureFile in
              wrap (fun e => WrapErr e "") (writeFileTempRename picturePath data) ;;
              assign_acct pictureUrlFileMap set_pictureUrlFileMap url pictureFile ;;
              (if bool_decide (keyword = "")
               then modify (set_acct (set_pictureDefaultUrl url))
               else assign_acct pictureKeywordUrlMap set_pictureKeywordUrlMap keyword url) ;;
              ret true
          | _ =>
              log ("WARNING: failed to download userpic " +:+ url) ;;
              ret updated
          end
    end.

(** [for i, url := range urls]. *)
Fixpoint fetchKeywordPictures (cfg : Config) (keywords : list string) (i : Z)
    (urls : list string) (updated : bool) : M Report bool :=
  match urls with
  | [] => ret updated
  | url :: rest =>
      updated' <- fetchAnsStorePictureUrl cfg keywords i url updated ;;
      fetchKeywordPictures cfg keywords (i + 1) rest updated'
  end.

Definition lift_report {A} (x : Report + A) : M Report A :=
  match x with
  | inl r => throw r
  | inr a => ret a
  end.

(** The outcome of a call that does not touch the state. *)
Definition lift_res {E A} (x : Res E A) : M E A := fun st => (st, x).

Definition dumpAccountData (cfg : Config) : M Report unit :=
  log ("Fetching user info for: " +:+ username cfg) ;;
  wrap (fun e => WrapErr e ("failed to create directory for account data " +:+ accountDataDir cfg))
       (MkdirAll (accountDataDir cfg)) ;;
  emit EvFlatLogin ;;
  t <- gets trace ;;
  responseMap <- lift_report (flat_login env t) ;;
  keywords <- lift_res (getLJFlatArray "pickw" responseMap) ;;
  urls <- lift_res (getLJFlatArray "pickwurl" responseMap) ;;
  if negb (length keywords =? length urls)%nat then
    throw (ReportMsg ("pickw and pickwurl arrays in LJ flat response have different lengths, "
                     +:+ "%!s(bool=true)d != %!d(MISSING)"))
  else
    updated <- fetchAnsStorePictureUrl cfg keywords (-1)
                 (default "" (GoMap.assoc "defaultpicurl" responseMap)) false ;;
    updated <- fetchKeywordPictures cfg keywords 0 urls updated ;;
    if updated : bool then writeAccountData cfg else ret tt.

End Program.

Arguments writeFileTempRename : simpl never.
Arguments readStoredComments : simpl never.

(** * Scenarios: concrete environments and states *)

Module Scenario.

(** An environment in which every remote call answers with nothing, every
    download fails, and the disk never fails. *)
Definition quiet : Env :=
  {| io_MkdirAll := fun _ _ => None;
     io_ReadFile_fault := fun _ _ => None;
     io_WriteFile := fun _ _ _ => None;
     io_Rename := fun _ _ _ => None;
     xmlrpc_NewClient := fun _ => None;
     xmlrpc_syncitems := fun _ _ _ => inr [];
     xmlrpc_getevents := fun _ _ _ => inr [];
     flat_login := fun _ => inr [];
     export_comments_meta := fun _ _ _ => ExportOk (mkLJCommentMetaChunk 0 [] []);
     export_comments_body := fun _ _ _ => ExportOk (mkLJCommentChunk []);
     http_Get := fun _ _ => GetErr "connection refused";
     mime_ExtensionsByType := fun _ => inr [];
     url_QueryEscape := fun s => s;
     blacklistedPictureFilenameChars_ReplaceAllString := fun s => s;
     xml_Unmarshal_CommentFile := fun _ => inr [];
     xml_Encode_CommentFile := fun _ => "";
     linedb_GetBytes := fun _ => "";
     linedb_Decode := fun _ => ([], None);
     pickle_Dict := fun _ => inr [];
     pickle_DictString := fun _ => inr [];
     io_WriteFile_partial := fun _ _ _ => None;
     runtime_makeslice := fun count =>
       if 2 ^ 44 <? count then Some "runtime error: makeslice: len out of range"
       else None |}.

Definition cfg : Config :=
  {| server := "https://livejournal.com"; username := "alice"; journals := ["alice"];
     password := "secret"; dumpDir := "."; accountDataDir := "account.data" |}.

Definition jcx0 : journalContext := newJournalContext cfg "alice".

(** A state before anything happened: no events, no files. *)
Definition st0 : St :=
  {| trace := []; fs := ∅; jcx := jcx0; acct := empty_accountData |}.

Definition with_acct (a : accountData) : St := set_acct (fun _ => a) st0.

(** A picture URL recorded with an empty file name, as a hand-edited
    account state file can hold it. *)
Definition acct_empty_filename : accountData :=
  {| fileCounter := 7; pictureDefaultUrl := "";
     pictureUrlFileMap := Some [("http://pics/1", "")];
     pictureKeywordUrlMap := GoMap.make |}.

(** A picture URL recorded with the file it was stored in. *)
Definition acct_known : accountData :=
  {| fileCounter := 7; pictureDefaultUrl := "http://pics/1";
     pictureUrlFileMap := Some [("http://pics/1", "user-picture-7.png")];
     pictureKeywordUrlMap := GoMap.make |}.

(** An environment whose downloads succeed. *)
Definition downloads_ok : Env :=
  {| io_MkdirAll := io_MkdirAll quiet;
     io_ReadFile_fault := io_ReadFile_fault quiet;
     io_WriteFile := io_WriteFile quiet;
     io_Rename := io_Rename quiet;
     xmlrpc_NewClient := xmlrpc_NewClient quiet;
     xmlrpc_syncitems := xmlrpc_syncitems quiet;
     xmlrpc_getevents := xmlrpc_getevents quiet;
     flat_login := flat_login quiet;
     export_comments_meta := export_comments_meta quiet;
     export_comments_body := export_comments_body quiet;
     http_Get := fun _ _ => GetOk "image/png" (inr "PNG") None;
     mime_ExtensionsByType := fun _ => inr [".png"];
     url_QueryEscape := url_QueryEscape quiet;
     blacklistedPictureFilenameChars_ReplaceAllString :=
       blacklistedPictureFilenameChars_ReplaceAllString quiet;
     xml_Unmarshal_CommentFile := xml_Unmarshal_CommentFile quiet;
     xml_Encode_CommentFile := xml_Encode_CommentFile quiet;
     linedb_GetBytes := linedb_GetBytes quiet;
     linedb_Decode := linedb_Decode quiet;
     pickle_Dict := pickle_Dict quiet;
     pickle_DictString := pickle_DictString quiet;
     io_WriteFile_partial := io_WriteFile_partial quiet;
     runtime_makeslice := runtime_makeslice quiet |}.

Definition rec2_screened : CommentRecord :=
  {| r_Id := 12; r_State := "S"; r_User := "carol"; r_ParentId := "11";
     r_Date := "2016-01-02T00:00:00Z"; r_Subject := ""; r_Body := "second" |}.




(** A change feed: two entries, and an item with an empty identifier. *)
Definition item1 : LJSyncItem :=
  {| Item := "L-1"; Action := "create"; Time := "2016-01-01 10:00:00" |}.
Definition item2 : LJSyncItem :=
  {| Item := "L-2"; Action := "create"; Time := "2016-01-02 10:00:00" |}.
Definition item_short : LJSyncItem :=
  {| Item := ""; Action := "create"; Time := "2016-01-03 10:00:00" |}.
Definition item_nodash : LJSyncItem :=
  {| Item := "Lx7"; Action := "create"; Time := "2016-01-04 10:00:00" |}.

Definition event1 : LJEvent := [("subject", VString "hello"); ("itemid", VInt 1)].

(** [quiet] with another change feed and entry service. *)
Definition with_posts
    (sync : list Event -> string -> string -> error + list LJSyncItem)
    (getev : list Event -> Z -> string -> error + list LJEvent) : Env :=
  {| io_MkdirAll := io_MkdirAll quiet;
     io_ReadFile_fault := io_ReadFile_fault quiet;
     io_WriteFile := io_WriteFile quiet;
     io_Rename := io_Rename quiet;
     xmlrpc_NewClient := xmlrpc_NewClient quiet;
     xmlrpc_syncitems := sync;
     xmlrpc_getevents := getev;
     flat_login := flat_login quiet;
     export_comments_meta := export_comments_meta quiet;
     export_comments_body := export_comments_body quiet;
     http_Get := http_Get quiet;
     mime_ExtensionsByType := mime_ExtensionsByType quiet;
     url_QueryEscape := url_QueryEscape quiet;
     blacklistedPictureFilenameChars_ReplaceAllString :=
       blacklistedPictureFilenameChars_ReplaceAllString quiet;
     xml_Unmarshal_CommentFile := xml_Unmarshal_CommentFile quiet;
     xml_Encode_CommentFile := xml_Encode_CommentFile quiet;
     linedb_GetBytes := linedb_GetBytes quiet;
     linedb_Decode := linedb_Decode quiet;
     pickle_Dict := pickle_Dict quiet;
     pickle_DictString := pickle_DictString quiet;
     io_WriteFile_partial := io_WriteFile_partial quiet;
     runtime_makeslice := runtime_makeslice quiet |}.

(** The feed serves both entries; the second entry cannot be fetched. *)
Definition second_fetch_fails : Env :=
  with_posts
    (fun _ lastsync _ => if decide (lastsync = "") then inr [item1; item2] else inr [])
    (fun _ itemid _ => if decide (itemid = 1) then inr [event1] else inl "connection reset").

(** A second entry of the same second as [item1]. *)
Definition item2_same_second : LJSyncItem :=
  {| Item := "L-2"; Action := "create"; Time := "2016-01-01 10:00:00" |}.

Definition event2 : LJEvent := [("subject", VString "again"); ("itemid", VInt 2)].

(** What a change feed over [items] serves for a cursor: the items later
    than it.  (A feed that also served the items of the cursor's own time
    would serve the last item for ever, and the loop over the pages would
    not end.) *)
Definition later_than (items : list LJSyncItem) (lastsync : string) : list LJSyncItem :=
  List.filter (fun item => String.ltb lastsync (Time item)) items.

(** The entry [itemid] was requested before the request that ends [t]. *)
Definition requested_before (t : list Event) (itemid : Z) : bool :=
  existsb (fun ev => match ev with EvGetEvents i _ => i =? itemid | _ => false end)
          (removelast t).

(** The first entry can be fetched; the second cannot at the first
    attempt and can from then on. *)
Definition second_fails_once (t : list Event) (itemid : Z) (_ : string)
  : error + list LJEvent :=
  if decide (itemid = 1) then inr [event1]
  else if requested_before t itemid then inr [event2]
  else inl "connection reset".

(** Two entries a day apart, behind a feed that serves what is later than
    the cursor. *)
Definition second_fetch_fails_once : Env :=
  with_posts (fun _ lastsync _ => inr (later_than [item1; item2] lastsync)) second_fails_once.

(** The same, with both entries of the same second. *)
Definition same_second : Env :=
  with_posts (fun _ lastsync _ => inr (later_than [item1; item2_same_second] lastsync))
             second_fails_once.

(** The feed serves the item with the empty identifier, then an entry. *)
Definition feed_with_short_id : Env :=
  with_posts
    (fun _ lastsync _ => if decide (lastsync = "") then inr [item_short; item1] else inr [])
    (fun _ _ _ => inr [event1]).

(** The feed serves an identifier without its dash, then an entry. *)
Definition feed_with_nodash_id : Env :=
  with_posts
    (fun _ lastsync _ => if decide (lastsync = "") then inr [item_nodash; item1] else inr [])
    (fun _ _ _ => inr [event1]).

(** [quiet] with another comment export service. *)
Definition with_comments
    (meta : list Event -> Z -> string -> ExportResult LJCommentMetaChunk)
    (body : list Event -> Z -> string -> ExportResult LJCommentChunk) : Env :=
  {| io_MkdirAll := io_MkdirAll quiet;
     io_ReadFile_fault := io_ReadFile_fault quiet;
     io_WriteFile := io_WriteFile quiet;
     io_Rename := io_Rename quiet;
     xmlrpc_NewClient := xmlrpc_NewClient quiet;
     xmlrpc_syncitems := xmlrpc_syncitems quiet;
     xmlrpc_getevents := xmlrpc_getevents quiet;
     flat_login := flat_login quiet;
     export_comments_meta := meta;
     export_comments_body := body;
     http_Get := http_Get quiet;
     mime_ExtensionsByType := mime_ExtensionsByType quiet;
     url_QueryEscape := url_QueryEscape quiet;
     blacklistedPictureFilenameChars_ReplaceAllString :=
       blacklistedPictureFilenameChars_ReplaceAllString quiet;
     xml_Unmarshal_CommentFile := xml_Unmarshal_CommentFile quiet;
     xml_Encode_CommentFile := fun _ => "<comments>...</comments>";
     linedb_GetBytes := fun _ => "lastSync ...";
     linedb_Decode := linedb_Decode quiet;
     pickle_Dict := pickle_Dict quiet;
     pickle_DictString := pickle_DictString quiet;
     io_WriteFile_partial := io_WriteFile_partial quiet;
     runtime_makeslice := runtime_makeslice quiet |}.

(** The journal has one comment, number 1 on post 5, by user 9. *)
Definition meta_one_comment : LJCommentMetaChunk :=
  {| MaxId := 1;
     mc_Comments := [mkLJCommentMeta 1 9 "A"];
     UserMaps := [mkLJUserMap 9 "bob"] |}.

Definition body_one_comment : LJCommentChunk :=
  {| cc_Comments :=
       [{| c_Id := 1; c_PosterId := 9; c_State := ""; c_JItemId := 5; c_ParentId := "";
           c_Subject := "hi"; c_Body := "first"; c_Date := "2016-01-01T00:00:00Z" |}] |}.

(** Both export requests are answered. *)
Definition one_new_comment : Env :=
  with_comments (fun _ _ _ => ExportOk meta_one_comment)
                (fun _ _ _ => ExportOk body_one_comment).


(** A journal whose state file is in the current format: [readJournalDB]
    takes the branch that makes both maps. *)
Definition st_current_db : St :=
  set_fs (insert "alice/journal.linedb" "lastSync ...") st0.


(** The journal holds comments up to number 105 and the export service
    hands out ten ids per request: a request from [startid] is answered
    with the comment numbered [startid + 9], or 105 if that is less. *)
Definition paged_comments : Env :=
  with_comments
    (fun _ startid _ =>
       ExportOk {| MaxId := 105;
                   mc_Comments := [mkLJCommentMeta (Z.min (startid + 9) 105) 9 "A"];
                   UserMaps := [mkLJUserMap 9 "bob"] |})
    (fun _ startid _ =>
       ExportOk {| cc_Comments :=
                     [{| c_Id := Z.min (startid + 9) 105; c_PosterId := 9; c_State := "";
                         c_JItemId := 5; c_ParentId := ""; c_Subject := ""; c_Body := "text";
                         c_Date := "2016-01-01T00:00:00Z" |}] |}).

(** The same journal behind a service that answers a request from past
    the last comment with an empty chunk. *)
Definition paged_comments_then_empty : Env :=
  with_comments
    (fun _ startid _ =>
       ExportOk {| MaxId := 105;
                   mc_Comments :=
                     if startid <=? 105 then [mkLJCommentMeta (Z.min (startid + 9) 105) 9 "A"]
                     else [];
                   UserMaps := [mkLJUserMap 9 "bob"] |})
    (fun _ startid _ =>
       ExportOk {| cc_Comments :=
                     if startid <=? 105 then
                       [{| c_Id := Z.min (startid + 9) 105; c_PosterId := 9; c_State := "";
                           c_JItemId := 5; c_ParentId := ""; c_Subject := ""; c_Body := "text";
                           c_Date := "2016-01-01T00:00:00Z" |}]
                     else [] |}).

(** The persisted state knows the comments up to number 80. *)
Definition st_upto_80 : St :=
  set_jcx (set_db (fun d =>
    set_commentMap (Some [(80, mkCommentMeta 9 "A")]) (set_userMap GoMap.make d))) st0.

(** The same account, journal state and event built in two orders. *)
Definition acct_one_order : accountData :=
  {| fileCounter := 2; pictureDefaultUrl := "http://l-userpic.example/1";
     pictureUrlFileMap :=
       Some [("http://l-userpic.example/1", "default.jpg");
             ("http://l-userpic.example/2", "cat.png")];
     pictureKeywordUrlMap :=
       Some [("cat", "http://l-userpic.example/2");
             ("me", "http://l-userpic.example/1")] |}.
Definition acct_other_order : accountData :=
  {| fileCounter := 2; pictureDefaultUrl := "http://l-userpic.example/1";
     pictureUrlFileMap :=
       Some [("http://l-userpic.example/2", "cat.png");
             ("http://l-userpic.example/1", "default.jpg")];
     pictureKeywordUrlMap :=
       Some [("me", "http://l-userpic.example/1");
             ("cat", "http://l-userpic.example/2")] |}.
Definition db_one_order : journalDB :=
  {| lastSync := "2016-01-02 03:04:05";
     userMap := Some [(7, "alice"); (3, "bob")];
     commentMap := Some [(12, mkCommentMeta 7 ""); (5, mkCommentMeta 3 "D")] |}.
Definition db_other_order : journalDB :=
  {| lastSync := "2016-01-02 03:04:05";
     userMap := Some [(3, "bob"); (7, "alice")];
     commentMap := Some [(5, mkCommentMeta 3 "D"); (12, mkCommentMeta 7 "")] |}.
Definition event_one_order : LJEvent :=
  [("subject", VString "a <b>");
   ("props", VMap [("taglist", VString "x"); ("opt_nocomments", VInt 1)])].
Definition event_other_order : LJEvent :=
  [("props", VMap [("opt_nocomments", VInt 1); ("taglist", VString "x")]);
   ("subject", VString "a <b>")].

(** A state file that the decoder reads in part, before it reports an
    error. *)
Definition truncated_state_file : Env :=
  {| io_MkdirAll := io_MkdirAll quiet;
     io_ReadFile_fault := io_ReadFile_fault quiet;
     io_WriteFile := io_WriteFile quiet;
     io_Rename := io_Rename quiet;
     xmlrpc_NewClient := xmlrpc_NewClient quiet;
     xmlrpc_syncitems := xmlrpc_syncitems quiet;
     xmlrpc_getevents := xmlrpc_getevents quiet;
     flat_login := flat_login quiet;
     export_comments_meta := export_comments_meta quiet;
     export_comments_body := export_comments_body quiet;
     http_Get := http_Get quiet;
     mime_ExtensionsByType := mime_ExtensionsByType quiet;
     url_QueryEscape := url_QueryEscape quiet;
     blacklistedPictureFilenameChars_ReplaceAllString :=
       blacklistedPictureFilenameChars_ReplaceAllString quiet;
     xml_Unmarshal_CommentFile := xml_Unmarshal_CommentFile quiet;
     xml_Encode_CommentFile := xml_Encode_CommentFile quiet;
     linedb_GetBytes := linedb_GetBytes quiet;
     linedb_Decode := fun _ =>
       ([DScalar "lastSync" (DStr "2016-01-02 03:04:05");
         DTable "users" [[DInt 3; DStr "bob"]; [DInt 3; DStr "robert"]];
         DTable "commentMeta" [[DInt 12; DInt 3; DStr "A"]];
         DScalar "fileCounter" (DInt 4);
         DTable "pictureUrlFileMap" [[DStr "http://pics/1"; DStr "user-picture-4.png"]]],
        Some "unexpected end of input");
     pickle_Dict := pickle_Dict quiet;
     pickle_DictString := pickle_DictString quiet;
     io_WriteFile_partial := io_WriteFile_partial quiet;
     runtime_makeslice := runtime_makeslice quiet |}.

(** The account state file exists. *)
Definition st_account_file : St :=
  set_fs (insert "account.data/account.linedb" "fileCounter 4 ...") st0.

(** Downloads succeed, but no file can be written. *)
Definition disk_full : Env :=
  {| io_MkdirAll := io_MkdirAll quiet;
     io_ReadFile_fault := io_ReadFile_fault quiet;
     io_WriteFile := fun _ _ _ => Some "no space left on device";
     io_Rename := io_Rename quiet;
     xmlrpc_NewClient := xmlrpc_NewClient quiet;
     xmlrpc_syncitems := xmlrpc_syncitems quiet;
     xmlrpc_getevents := xmlrpc_getevents quiet;
     flat_login := flat_login quiet;
     export_comments_meta := export_comments_meta quiet;
     export_comments_body := export_comments_body quiet;
     http_Get := fun _ _ => GetOk "image/png" (inr "PNG") None;
     mime_ExtensionsByType := fun _ => inr [".png"];
     url_QueryEscape := url_QueryEscape quiet;
     blacklistedPictureFilenameChars_ReplaceAllString :=
       blacklistedPictureFilenameChars_ReplaceAllString quiet;
     xml_Unmarshal_CommentFile := xml_Unmarshal_CommentFile quiet;
     xml_Encode_CommentFile := xml_Encode_CommentFile quiet;
     linedb_GetBytes := linedb_GetBytes quiet;
     linedb_Decode := linedb_Decode quiet;
     pickle_Dict := pickle_Dict quiet;
     pickle_DictString := pickle_DictString quiet;
     io_WriteFile_partial := fun _ _ data => if decide (data = "") then None else Some 2%nat;
     runtime_makeslice := runtime_makeslice quiet |}.

(** Downloads succeed and files are written, but no file can be renamed. *)
Definition rename_refused : Env :=
  {| io_MkdirAll := io_MkdirAll quiet;
     io_ReadFile_fault := io_ReadFile_fault quiet;
     io_WriteFile := io_WriteFile quiet;
     io_Rename := fun _ _ _ => Some "permission denied";
     xmlrpc_NewClient := xmlrpc_NewClient quiet;
     xmlrpc_syncitems := xmlrpc_syncitems quiet;
     xmlrpc_getevents := xmlrpc_getevents quiet;
     flat_login := flat_login quiet;
     export_comments_meta := export_comments_meta quiet;
     export_comments_body := export_comments_body quiet;
     http_Get := fun _ _ => GetOk "image/png" (inr "PNG") None;
     mime_ExtensionsByType := fun _ => inr [".png"];
     url_QueryEscape := url_QueryEscape quiet;
     blacklistedPictureFilenameChars_ReplaceAllString :=
       blacklistedPictureFilenameChars_ReplaceAllString quiet;
     xml_Unmarshal_CommentFile := xml_Unmarshal_CommentFile quiet;
     xml_Encode_CommentFile := xml_Encode_CommentFile quiet;
     linedb_GetBytes := linedb_GetBytes quiet;
     linedb_Decode := linedb_Decode quiet;
     pickle_Dict := pickle_Dict quiet;
     pickle_DictString := pickle_DictString quiet;
     io_WriteFile_partial := io_WriteFile_partial quiet;
     runtime_makeslice := runtime_makeslice quiet |}.

(** The server declares more keywords than any runtime allocates. *)
Definition huge_keyword_count : Env :=
  {| io_MkdirAll := io_MkdirAll quiet;
     io_ReadFile_fault := io_ReadFile_fault quiet;
     io_WriteFile := io_WriteFile quiet;
     io_Rename := io_Rename quiet;
     xmlrpc_NewClient := xmlrpc_NewClient quiet;
     xmlrpc_syncitems := xmlrpc_syncitems quiet;
     xmlrpc_getevents := xmlrpc_getevents quiet;
     flat_login := fun _ => inr [("pickw_count", "9223372036854775807")];
     export_comments_meta := export_comments_meta quiet;
     export_comments_body := export_comments_body quiet;
     http_Get := http_Get quiet;
     mime_ExtensionsByType := mime_ExtensionsByType quiet;
     url_QueryEscape := url_QueryEscape quiet;
     blacklistedPictureFilenameChars_ReplaceAllString :=
       blacklistedPictureFilenameChars_ReplaceAllString quiet;
     xml_Unmarshal_CommentFile := xml_Unmarshal_CommentFile quiet;
     xml_Encode_CommentFile := xml_Encode_CommentFile quiet;
     linedb_GetBytes := linedb_GetBytes quiet;
     linedb_Decode := linedb_Decode quiet;
     pickle_Dict := pickle_Dict quiet;
     pickle_DictString := pickle_DictString quiet;
     io_WriteFile_partial := io_WriteFile_partial quiet;
     runtime_makeslice := runtime_makeslice quiet |}.

(** The server lists the default picture and one picture with a keyword. *)
Definition login_two_pictures : list (string * string) :=
  [("success", "OK"); ("defaultpicurl", "http://pics/1");
   ("pickw_count", "1"); ("pickw_1", "cat");
   ("pickwurl_count", "1"); ("pickwurl_1", "http://pics/2")].

Definition pictures_listed : Env :=
  {| io_MkdirAll := io_MkdirAll quiet;
     io_ReadFile_fault := io_ReadFile_fault quiet;
     io_WriteFile := io_WriteFile quiet;
     io_Rename := io_Rename quiet;
     xmlrpc_NewClient := xmlrpc_NewClient quiet;
     xmlrpc_syncitems := xmlrpc_syncitems quiet;
     xmlrpc_getevents := xmlrpc_getevents quiet;
     flat_login := fun _ => inr login_two_pictures;
     export_comments_meta := export_comments_meta quiet;
     export_comments_body := export_comments_body quiet;
     http_Get := fun _ _ => GetOk "image/png" (inr "PNG") None;
     mime_ExtensionsByType := fun _ => inr [".png"];
     url_QueryEscape := url_QueryEscape quiet;
     blacklistedPictureFilenameChars_ReplaceAllString :=
       blacklistedPictureFilenameChars_ReplaceAllString quiet;
     xml_Unmarshal_CommentFile := xml_Unmarshal_CommentFile quiet;
     xml_Encode_CommentFile := xml_Encode_CommentFile quiet;
     linedb_GetBytes := linedb_GetBytes quiet;
     linedb_Decode := linedb_Decode quiet;
     pickle_Dict := pickle_Dict quiet;
     pickle_DictString := pickle_DictString quiet;
     io_WriteFile_partial := io_WriteFile_partial quiet;
     runtime_makeslice := runtime_makeslice quiet |}.

(** Both pictures were stored by an earlier run. *)
Definition acct_two_pictures : accountData :=
  {| fileCounter := 2; pictureDefaultUrl := "http://pics/1";
     pictureUrlFileMap :=
       Some [("http://pics/1", "user-picture-1.png"); ("http://pics/2", "user-picture-2-cat.png")];
     pictureKeywordUrlMap := Some [("cat", "http://pics/2")] |}.

(** Change-feed items that are not entries. *)
Definition item_comment : LJSyncItem :=
  {| Item := "C-41"; Action := "create"; Time := "2016-01-05 10:00:00" |}.
Definition item_comment2 : LJSyncItem :=
  {| Item := "C-42"; Action := "update"; Time := "2016-01-06 10:00:00" |}.

(** A feed that answers every request with the same malformed item. *)
Definition feed_stuck : Env :=
  with_posts (fun _ _ _ => inr [item_nodash]) (fun _ _ _ => inr [event1]).

(** A legacy journal directory that holds the pickled comment map, but no
    user map and no state file. *)
Definition st_legacy_comments : St :=
  set_fs (insert "alice/comment.meta" "(dp0 ...") st0.

End Scenario.

(** * Properties *)

(** ** Picture synchronisation *)

(** A download counts as failed when [http.Get], the body read or the
    body close returns an error. *)
Definition download_failed (r : HttpGetResult) : Prop :=
  match r with
  | GetOk _ (inr _) None => False
  | _ => True
  end.

(** The line logged before a download. *)
Definition fetching_line (keyword url : string) : string :=
  if bool_decide (keyword = "") then "Fetching new default user picture " +:+ url
  else "Fetching new '" +:+ keyword +:+ "' user picture " +:+ url.

(** The guard "fetch only unknown URLs" lets [url] through. *)
Definition url_unknown (a : accountData) (url : string) : bool :=
  negb (bool_decide (url = ""))
  && bool_decide (default "" (GoMap.get (pictureUrlFileMap a) url) = "").

(** [keyword] is what the closure finds for [keywordIndex], and it lets
    the download go ahead. *)
Definition keyword_selected (keywords : list string) (keywordIndex : Z) (keyword : string)
  : Prop :=
  (keywordIndex < 0 /\ keyword = "")
  \/ (0 <= keywordIndex /\ keywords !! Z.to_nat keywordIndex = Some keyword /\ keyword <> "").


(** ** The event history only grows *)

Definition grows {E A} (m : M E A) : Prop :=
  forall st, exists evs, trace (fst (m st)) = trace st ++ evs.

Lemma grows_ret {E A} (a : A) : grows (@ret E A a).
Proof. intros st. exists []. simpl. by rewrite app_nil_r. Qed.

Lemma grows_throw {E A} (e : E) : grows (@throw E A e).
Proof. intros st. exists []. simpl. by rewrite app_nil_r. Qed.

Lemma grows_panic {E A} msg : grows (@panic E A msg).
Proof. intros st. exists []. simpl. by rewrite app_nil_r. Qed.

Lemma grows_outOfFuel {E A} : grows (@outOfFuel E A).
Proof. intros st. exists []. simpl. by rewrite app_nil_r. Qed.

Lemma grows_gets {E A} (f : St -> A) : grows (@gets E A f).
Proof. intros st. exists []. simpl. by rewrite app_nil_r. Qed.

Lemma grows_emit {E} ev : grows (@emit E ev).
Proof. intros st. by exists [ev]. Qed.

Lemma grows_log {E} line : grows (@log E line).
Proof. apply grows_emit. Qed.

Lemma grows_modify {E} (f : St -> St) :
  (forall st, trace (f st) = trace st) -> grows (@modify E f).
Proof. intros Hf st. exists []. simpl. by rewrite Hf, app_nil_r. Qed.

Lemma grows_bind {E A B} (m : M E A) (k : A -> M E B) :
  grows m -> (forall a, grows (k a)) -> grows (bind m k).
Proof.
  intros Hm Hk st. unfold bind. destruct (Hm st) as [evs Hevs].
  destruct (m st) as [st' [a| | |]]; simpl in *; eauto.
  destruct (Hk a st') as [evs' Hevs']. exists (evs ++ evs').
  by rewrite Hevs', Hevs, app_assoc.
Qed.

Lemma grows_wrap {A} f (m : M error A) : grows m -> grows (wrap f m).
Proof.
  intros Hm st. unfold wrap. destruct (Hm st) as [evs Hevs].
  destruct (m st) as [st' [a| | |]]; simpl in *; eauto.
Qed.

Lemma grows_catch {E E' A} (m : M E A) : grows m -> grows (@catch E E' A m).
Proof.
  intros Hm st. unfold catch. destruct (Hm st) as [evs Hevs].
  destruct (m st) as [st' [a| | |]]; simpl in *; eauto.
Qed.

Lemma grows_forEach {E A} (l : list A) (body : A -> M E unit) :
  (forall x, grows (body x)) -> grows (forEach l body).
Proof.
  intros Hb. induction l as [|x l IH]; simpl.
  - apply grows_ret.
  - apply grows_bind; auto.
Qed.

Lemma grows_lift_report {A} (x : Report + A) : grows (lift_report x).
Proof. destruct x; [apply grows_throw | apply grows_ret]. Qed.

Create HintDb grows.
#[export] Hint Resolve grows_ret grows_throw grows_panic grows_outOfFuel grows_gets
  grows_emit grows_log grows_bind grows_wrap grows_catch grows_forEach
  grows_lift_report : grows.

(** Decompose a computation along its binds and branches. *)
Ltac grows_step :=
  first
    [ apply grows_bind; [|intros ?]
    | apply grows_ret | apply grows_throw | apply grows_panic | apply grows_outOfFuel
    | apply grows_gets | apply grows_emit | apply grows_log
    | apply grows_wrap | apply grows_catch | apply grows_lift_report
    | apply grows_modify; intros []; reflexivity
    | apply grows_forEach; intros ?
    | match goal with
      | |- grows (match ?x with _ => _ end) => destruct x
      | |- grows (let '(_, _) := ?x in _) => destruct x
      end ].

Ltac solve_grows := repeat grows_step; eauto with grows.

Lemma grows_ReadFile env path : grows (ReadFile env path).
Proof. unfold ReadFile. solve_grows. Qed.

Lemma grows_writeFileTempRename env filePath data :
  grows (writeFileTempRename env filePath data).
Proof. unfold writeFileTempRename. solve_grows. Qed.

#[export] Hint Resolve grows_ReadFile grows_writeFileTempRename : grows.

Lemma grows_fetchAnsStorePictureUrl env cfg keywords keywordIndex url updated :
  grows (fetchAnsStorePictureUrl env cfg keywords keywordIndex url updated).
Proof. unfold fetchAnsStorePictureUrl, assign_acct. solve_grows. Qed.

(** Unfold the monad's operations in place. *)
Ltac run := unfold bind, gets, ret, modify, emit, log, throw, panic, wrap; simpl.

(** ** Picture synchronisation: the closure [fetchAnsStorePictureUrl] *)

Lemma url_unknown_guard a url :
  url_unknown a url = true ->
  bool_decide (url = "")
  || negb (bool_decide (default "" (GoMap.get (pictureUrlFileMap a) url) = "")) = false.
Proof.
  unfold url_unknown. intros H. apply andb_true_iff in H as [H1 H2].
  apply negb_true_iff in H1. rewrite H1, H2. reflexivity.
Qed.

Lemma url_known_guard a url :
  url_unknown a url = false ->
  bool_decide (url = "")
  || negb (bool_decide (default "" (GoMap.get (pictureUrlFileMap a) url) = "")) = true.
Proof.
  unfold url_unknown. intros H. apply andb_false_iff in H as [H|H].
  - apply negb_false_iff in H. by rewrite H.
  - rewrite H. apply orb_true_r.
Qed.

Lemma keyword_selected_eval keywords keywordIndex keyword :
  keyword_selected keywords keywordIndex keyword ->
  (if 0 <=? keywordIndex then keywords !! Z.to_nat keywordIndex else Some "") = Some keyword
  /\ (0 <=? keywordIndex) && bool_decide (keyword = "") = false.
Proof.
  intros [[Hlt ->]|(Hge & Hl & Hne)].
  - destruct (Z.leb_spec 0 keywordIndex); [lia|]. done.
  - destruct (Z.leb_spec 0 keywordIndex); [|lia]. split; [done|].
    rewrite bool_decide_eq_false_2; done.
Qed.

(** Past its two guards, the closure logs, requests the picture, and goes
    on according to the answer. *)
Lemma fetch_past_guards env cfg keywords keywordIndex url updated st keyword :
  url_unknown (acct st) url = true ->
  keyword_selected keywords keywordIndex keyword ->
  exists k : M Report bool,
    grows k /\
    (forall st1, download_failed (http_Get env (trace st1) url) ->
       k st1 = (set_trace (fun t => t ++ [EvLog ("WARNING: failed to download userpic " +:+ url)]) st1,
                Ret updated)) /\
    fetchAnsStorePictureUrl env cfg keywords keywordIndex url updated st =
    k (set_trace (fun t => t ++ [EvLog (fetching_line keyword url); EvHttpGet url]) st).
Proof.
  intros Hu Hk. unfold fetchAnsStorePictureUrl.
  unfold bind at 1. unfold gets at 1.
  rewrite (url_unknown_guard _ _ Hu).
  destruct (keyword_selected_eval _ _ _ Hk) as [-> ->].
  eexists. split; [|split]; cycle 2.
  - assert (Hline : (if bool_decide (keyword = "")
                     then @log Report ("Fetching new default user picture " +:+ url)
                     else log ("Fetching new '" +:+ keyword +:+ "' user picture " +:+ url))
                    = log (fetching_line keyword url)).
    { unfold fetching_line. by destruct (bool_decide (keyword = "")). }
    rewrite Hline.
    unfold bind at 1; unfold log at 1, emit at 1, modify at 1;
      unfold bind at 1; unfold emit at 1, modify at 1;
      unfold set_trace; simpl; rewrite <- app_assoc; simpl; reflexivity.
  - unfold assign_acct. solve_grows.
  - intros st1 Hf. run.
    destruct (http_Get env (trace st1) url) as [e|ct [e1|data] [e2|]]; simpl in Hf; done.
Qed.

(** C6 (amended): a picture URL that the URL-to-filename map sends to a
    non-empty file name is skipped without any effect: no event (so no
    download and no log line), the file counter, both maps, the default URL
    and the files exactly as before. *)
Theorem fetchAnsStorePictureUrl_known_url env cfg keywords keywordIndex url updated st file :
  GoMap.get (pictureUrlFileMap (acct st)) url = Some file ->
  file <> "" ->
  fetchAnsStorePictureUrl env cfg keywords keywordIndex url updated st = (st, Ret updated).
Proof.
  intros Hget Hne. unfold fetchAnsStorePictureUrl, bind, gets, ret. simpl.
  rewrite Hget. simpl.
  rewrite (bool_decide_eq_false_2 (file = "")) by done.
  simpl. rewrite orb_true_r. reflexivity.
Qed.

Lemma fetchAnsStorePictureUrl_known_url_witness :
  fetchAnsStorePictureUrl Scenario.downloads_ok Scenario.cfg [] (-1) "http://pics/1" false
    (Scenario.with_acct Scenario.acct_known)
  = (Scenario.with_acct Scenario.acct_known, Ret false).
Proof.
  apply (fetchAnsStorePictureUrl_known_url Scenario.downloads_ok Scenario.cfg [] (-1)
           "http://pics/1" false (Scenario.with_acct Scenario.acct_known) "user-picture-7.png").
  - reflexivity.
  - discriminate.
Defined.

(** C6 as stated fails: a URL that is a key of the map, but with an empty
    file name, is downloaded again and the counter moves. *)
Lemma known_key_with_empty_filename_is_downloaded :
  let st := Scenario.with_acct Scenario.acct_empty_filename in
  let out := fetchAnsStorePictureUrl Scenario.downloads_ok Scenario.cfg [] (-1)
               "http://pics/1" false st in
  In "http://pics/1" (GoMap.keys (pictureUrlFileMap (acct st)))
  /\ In (EvHttpGet "http://pics/1") (trace (fst out))
  /\ fileCounter (acct (fst out)) = fileCounter (acct st) + 1
  /\ GoMap.get (pictureUrlFileMap (acct (fst out))) "http://pics/1" = Some "user-picture-8.png".
Proof. vm_compute. intuition. Qed.

(** C7: when the download, the body read or the body close of a picture
    fails, the closure logs a warning and returns success with the value
    of [updated] it was given; the state differs only by the three events
    (the announcement, the request, the warning), so the counter, both
    maps, the default URL and the files are unchanged; and from any later
    state with that account data the closure requests the URL again. *)
Theorem fetchAnsStorePictureUrl_download_failure
    env cfg keywords keywordIndex url updated st keyword :
  url_unknown (acct st) url = true ->
  keyword_selected keywords keywordIndex keyword ->
  download_failed
    (http_Get env (trace st ++ [EvLog (fetching_line keyword url); EvHttpGet url]) url) ->
  fetchAnsStorePictureUrl env cfg keywords keywordIndex url updated st =
    (set_trace (fun t => t ++ [EvLog (fetching_line keyword url); EvHttpGet url;
                               EvLog ("WARNING: failed to download userpic " +:+ url)]) st,
     Ret updated)
  /\ forall env' updated' st',
       acct st' = acct st ->
       exists evs,
         trace (fst (fetchAnsStorePictureUrl env' cfg keywords keywordIndex url updated' st'))
         = trace st' ++ [EvLog (fetching_line keyword url); EvHttpGet url] ++ evs.
Proof.
  intros Hu Hk Hf. split.
  - destruct (fetch_past_guards env cfg keywords keywordIndex url updated st keyword Hu Hk)
      as (k & _ & Hfail & ->).
    rewrite Hfail by exact Hf.
    unfold set_trace. simpl. rewrite <- app_assoc. reflexivity.
  - intros env' updated' st' Hacct.
    assert (Hu' : url_unknown (acct st') url = true) by (by rewrite Hacct).
    destruct (fetch_past_guards env' cfg keywords keywordIndex url updated' st' keyword Hu' Hk)
      as (k & Hgrows & _ & ->).
    destruct (Hgrows (set_trace (fun t => t ++ [EvLog (fetching_line keyword url); EvHttpGet url]) st'))
      as [evs Hevs].
    exists evs. rewrite Hevs. simpl. by rewrite <- app_assoc.
Qed.

Lemma fetchAnsStorePictureUrl_download_failure_witness :
  fetchAnsStorePictureUrl Scenario.quiet Scenario.cfg ["me"] 0 "http://pics/2" false Scenario.st0
  = (set_trace (fun t => t ++ [EvLog (fetching_line "me" "http://pics/2");
                               EvHttpGet "http://pics/2";
                               EvLog ("WARNING: failed to download userpic " +:+ "http://pics/2")])
       Scenario.st0,
     Ret false).
Proof.
  apply (fetchAnsStorePictureUrl_download_failure Scenario.quiet Scenario.cfg ["me"] 0
           "http://pics/2" false Scenario.st0 "me").
  - reflexivity.
  - right. split; [lia|]. split; [reflexivity|discriminate].
  - exact I.
Defined.

(** C10 (amended): a keyword-tagged picture whose keyword is empty is
    always skipped: the closure returns success, attempts no download and
    leaves the counter, both maps, the default URL and the files unchanged.
    The warning is its only event, logged exactly when the URL is non-empty
    and not yet mapped to a file name; otherwise the first guard has
    already returned, silently. *)
Theorem fetchAnsStorePictureUrl_empty_keyword env cfg keywords keywordIndex url updated st :
  0 <= keywordIndex ->
  keywords !! Z.to_nat keywordIndex = Some "" ->
  let out := fetchAnsStorePictureUrl env cfg keywords keywordIndex url updated st in
  snd out = Ret updated
  /\ acct (fst out) = acct st
  /\ fs (fst out) = fs st
  /\ jcx (fst out) = jcx st
  /\ trace (fst out) =
       trace st ++
       (if url_unknown (acct st) url
        then [EvLog ("WARNING: got empty keyword for user picture " +:+ url)]
        else []).
Proof.
  intros Hge Hkw out.
  assert (Heq : out =
    (set_trace (fun t => t ++
       (if url_unknown (acct st) url
        then [EvLog ("WARNING: got empty keyword for user picture " +:+ url)]
        else [])) st, Ret updated)).
  { subst out. unfold fetchAnsStorePictureUrl.
    unfold bind at 1. unfold gets at 1.
    destruct (url_unknown (acct st) url) eqn:Hu.
    - rewrite (url_unknown_guard _ _ Hu).
      destruct (Z.leb_spec 0 keywordIndex); [|lia].
      rewrite Hkw. reflexivity.
    - rewrite (url_known_guard _ _ Hu). unfold ret, set_trace.
      rewrite app_nil_r. by destruct st. }
  rewrite Heq. repeat split; reflexivity.
Qed.

Lemma fetchAnsStorePictureUrl_empty_keyword_witness :
  let out := fetchAnsStorePictureUrl Scenario.downloads_ok Scenario.cfg [""] 0 "http://pics/2"
               false Scenario.st0 in
  snd out = Ret false
  /\ acct (fst out) = acct Scenario.st0
  /\ fs (fst out) = fs Scenario.st0
  /\ jcx (fst out) = jcx Scenario.st0
  /\ trace (fst out) =
       trace Scenario.st0 ++
       (if url_unknown (acct Scenario.st0) "http://pics/2"
        then [EvLog ("WARNING: got empty keyword for user picture " +:+ "http://pics/2")]
        else []).
Proof.
  apply (fetchAnsStorePictureUrl_empty_keyword Scenario.downloads_ok Scenario.cfg [""] 0
           "http://pics/2" false Scenario.st0).
  - lia.
  - reflexivity.
Defined.

(** C10 as stated fails: for a keyword-tagged picture with an empty
    keyword whose URL is already stored, nothing is logged at all. *)
Lemma empty_keyword_known_url_logs_nothing :
  let st := Scenario.with_acct Scenario.acct_known in
  let out := fetchAnsStorePictureUrl Scenario.downloads_ok Scenario.cfg [""] 0
               "http://pics/1" false st in
  [""] !! Z.to_nat 0 = Some ""
  /\ snd out = Ret false
  /\ trace (fst out) = trace st
  /\ forall line, ~ In (EvLog line) (trace (fst out)).
Proof. vm_compute. intuition. Qed.

(** ** Comment merge *)








Lemma wrap_Ret {A} f (m : M error A) st st' a :
  wrap f m st = (st', Ret a) -> m st = (st', Ret a).
Proof. unfold wrap. destruct (m st) as [s [x| | |]]; congruence. Qed.

Lemma writeFileTempRename_written env filePath data st st' :
  writeFileTempRename env filePath data st = (st', Ret tt) ->
  fs st' !! filePath = Some data
  /\ jcx st' = jcx st /\ acct st' = acct st
  /\ trace st' = trace st ++ [EvWriteFile (filePath +:+ ".tmp") data true;
                              EvRename (filePath +:+ ".tmp") filePath true].
Proof.
  unfold writeFileTempRename. run.
  destruct (io_WriteFile env (trace st) _ data); simpl; [discriminate|].
  destruct (io_Rename env _ _ filePath); simpl; [discriminate|].
  intros [= <-]. simpl. rewrite lookup_insert_eq, <- app_assoc. done.
Qed.


Lemma storeComment_after_read env l c st st1 stored :
  readStoredComments env (commentFilePath_of (jcx st) (c_JItemId c)) st = (st1, Ret stored) ->
  storeComment env l c st =
  storeMerged env (commentFilePath_of (jcx st) (c_JItemId c))
    (makeRecord l (db (jcx st)) c) stored st1.
Proof.
  intros Hread. unfold storeComment. unfold bind at 1. unfold gets at 1.
  unfold bind. by rewrite Hread.
Qed.




(** ** Post synchronisation *)

(** The numeric id of a change-feed item whose identifier has the shape
    "type letter, dash, number"; [None] for any other identifier. *)
Definition parsed_item (item : LJSyncItem) : option Z :=
  if (String.length (Item item) <? 3)%nat
     || negb (bool_decide (String.get 1 (Item item) = Some "-"%char))
  then None
  else ParseInt (string_drop 2 (Item item)).

(** The item denotes a journal entry. *)
Definition is_entry (item : LJSyncItem) : bool :=
  bool_decide (String.get 0 (Item item) = Some "L"%char).

Definition eventPath_of (j : journalContext) (itemid : Z) : string :=
  filepath_Join (dir j) ("L-" +:+ fmt_d itemid).

(** The cursor after the items of [items] were all processed: the time of
    the last well-formed one. *)
Definition cursorAfter (cur : string) (items : list LJSyncItem) : string :=
  fold_left (fun cur item => match parsed_item item with Some _ => Time item | None => cur end)
            items cur.

Definition advance (item : LJSyncItem) : St -> St :=
  set_jcx (fun j => set_shouldWriteDB true (set_db (set_lastSync (Time item)) j)).

(** What [syncItem] does for a well-formed entry item. *)
Definition syncEntry (env : Env) (item : LJSyncItem) (itemid : Z) : M Report unit :=
  log ("Fetching journal entry " +:+ Item item +:+ " (" +:+ Action item +:+ ")") ;;
  events <- call_getevents env itemid ;;
  match events with
  | [] => throw (ReportMsg ("Unexpected empty item " +:+ Item item))
  | event :: _ =>
      writeLJEventDump env "L" itemid event ;;
      modify (set_jcx (fun j => set_newEntries (wrap64 (newEntries j + 1)) j))
  end.

Lemma syncItem_parsed env item itemid :
  parsed_item item = Some itemid ->
  syncItem env item =
  ((if is_entry item then syncEntry env item itemid else ret tt) ;; modify (advance item)).
Proof.
  unfold parsed_item, syncItem. intros H.
  destruct ((String.length (Item item) <? 3)%nat
            || negb (bool_decide (String.get 1 (Item item) = Some "-"%char))); [done|].
  rewrite H. reflexivity.
Qed.

Lemma syncItem_malformed env item :
  parsed_item item = None ->
  syncItem env item = warnInvalidSyncItem item.
Proof.
  unfold parsed_item, syncItem. intros H.
  destruct ((String.length (Item item) <? 3)%nat
            || negb (bool_decide (String.get 1 (Item item) = Some "-"%char))); [done|].
  by rewrite H.
Qed.

Lemma writeFileTempRename_frame env filePath data st st' r :
  writeFileTempRename env filePath data st = (st', r) ->
  jcx st' = jcx st /\ acct st' = acct st.
Proof.
  unfold writeFileTempRename. run.
  destruct (io_WriteFile env (trace st) _ data); simpl; [intros [= <- <-]; done|].
  destruct (io_Rename env _ _ filePath); simpl; intros [= <- <-]; done.
Qed.

Lemma writeLJEventDump_frame env ty itemid event st st' r :
  writeLJEventDump env ty itemid event st = (st', r) ->
  jcx st' = jcx st /\ acct st' = acct st.
Proof.
  unfold writeLJEventDump.
  destruct (serializeMap event) as [body [rep|]].
  - intros [= <- <-]. done.
  - unfold bind at 1. unfold gets at 1. unfold wrap.
    destruct (writeFileTempRename env _ _ st) as [s res] eqn:Hw.
    apply writeFileTempRename_frame in Hw.
    destruct res; intros [= <- <-]; done.
Qed.

Lemma writeLJEventDump_written env itemid event st st' :
  writeLJEventDump env "L" itemid event st = (st', Ret tt) ->
  exists body,
    serializeMap event = (body, None)
    /\ fs st' !! eventPath_of (jcx st) itemid
       = Some (xml_Header +:+ "<event>" +:+ nl +:+ body +:+ "</event>" +:+ nl)
    /\ trace st' = trace st ++
         [EvWriteFile (eventPath_of (jcx st) itemid +:+ ".tmp")
            (xml_Header +:+ "<event>" +:+ nl +:+ body +:+ "</event>" +:+ nl) true;
          EvRename (eventPath_of (jcx st) itemid +:+ ".tmp") (eventPath_of (jcx st) itemid) true].
Proof.
  unfold writeLJEventDump.
  destruct (serializeMap event) as [body [rep|]]; [discriminate|].
  unfold bind at 1. unfold gets at 1. intros H. apply wrap_Ret in H.
  apply writeFileTempRename_written in H. exists body. split; [done|]. 
  unfold eventPath_of. simpl. tauto.
Qed.

Lemma call_getevents_frame env itemid st st' r :
  call_getevents env itemid st = (st', r) ->
  jcx st' = jcx st /\ acct st' = acct st /\ fs st' = fs st
  /\ trace st' = trace st ++ [EvGetEvents itemid (name (jcx st))].
Proof.
  unfold call_getevents. run.
  destruct (xmlrpc_getevents env _ itemid _); intros [= <- <-]; done.
Qed.

(** A well-formed entry item either commits (file written, then cursor
    moved) or fails leaving the journal context as it was. *)
Lemma syncItem_entry env item itemid st st' res :
  parsed_item item = Some itemid -> is_entry item = true ->
  syncItem env item st = (st', res) ->
  (res = Ret tt
   /\ lastSync (db (jcx st')) = Time item
   /\ shouldWriteDB (jcx st') = true
   /\ is_Some (fs st' !! eventPath_of (jcx st) itemid)
   /\ exists evs,
        trace st' = trace st ++ evs ++
          [EvRename (eventPath_of (jcx st) itemid +:+ ".tmp") (eventPath_of (jcx st) itemid) true])
  \/ (exists r, res = Failed r /\ jcx st' = jcx st).
Proof.
  intros Hp He. rewrite (syncItem_parsed _ _ _ Hp), He.
  unfold bind at 1. unfold syncEntry.
  unfold bind at 1. unfold log at 1, emit at 1, modify at 1.
  unfold bind at 1.
  destruct (call_getevents env itemid _) as [s1 r1] eqn:Hget.
  apply call_getevents_frame in Hget as Hframe. simpl in Hframe.
  destruct Hframe as (Hj1 & _ & Hfs1 & Ht1).
  assert (Hr1 : (exists events, r1 = Ret events) \/ (exists r, r1 = Failed r)).
  { revert Hget. unfold call_getevents. run.
    destruct (xmlrpc_getevents env _ itemid _); intros [= <- <-]; eauto. }
  destruct Hr1 as [[events ->]|[r ->]]; cycle 1.
  { intros [= <- <-]. right. eauto. }
  destruct events as [|event events].
  { intros [= <- <-]. right. eauto. }
  unfold bind at 1.
  destruct (writeLJEventDump env "L" itemid event s1) as [s2 r2] eqn:Hw.
  apply writeLJEventDump_frame in Hw as Hframe2. destruct Hframe2 as [Hj2 _].
  assert (Hr2 : r2 = Ret tt \/ (exists r, r2 = Failed r)).
  { revert Hw. unfold writeLJEventDump.
    destruct (serializeMap event) as [body [rep|]]; [intros [= <- <-]; eauto|].
    unfold bind at 1. unfold gets at 1. unfold wrap.
    destruct (writeFileTempRename env _ _ s1) as [s res0] eqn:Hwf.
    assert (res0 = Ret tt \/ exists e, res0 = Failed e) as [->|[e ->]].
    { revert Hwf. unfold writeFileTempRename. run.
      destruct (io_WriteFile env _ _ _); simpl; [intros [= <- <-]; eauto|].
      destruct (io_Rename env _ _ _); simpl; intros [= <- <-]; eauto. }
    all: intros [= <- <-]; eauto. }
  destruct Hr2 as [->|[r ->]]; cycle 1.
  { intros [= <- <-]. right. exists r. split; [done|]. by rewrite Hj2, Hj1. }
  apply writeLJEventDump_written in Hw as (body & _ & Hfile & Htr).
  intros [= <- <-]. left. simpl.
  rewrite Hj1 in Hfile, Htr. simpl in *.
  split; [done|]. split; [done|]. split; [done|]. split; [by rewrite Hfile|].
  eexists [_; _; _]. rewrite Htr, Ht1. simpl. rewrite <- !app_assoc. simpl. reflexivity.
Qed.

Lemma syncItem_other env item itemid st :
  parsed_item item = Some itemid -> is_entry item = false ->
  syncItem env item st = (advance item st, Ret tt).
Proof.
  intros Hp He. rewrite (syncItem_parsed _ _ _ Hp), He. reflexivity.
Qed.

(** A malformed identifier of two bytes or more: a warning, nothing else. *)
Lemma syncItem_malformed_warns env item b st :
  parsed_item item = None -> String.get 1 (Item item) = Some b ->
  syncItem env item st =
  (set_trace (fun t => t ++ [EvLog ("WARNING: invalid SyncItems id " +:+ fmt_s_byte b)]) st,
   Ret tt).
Proof.
  intros Hp Hb. rewrite (syncItem_malformed _ _ Hp).
  unfold warnInvalidSyncItem. by rewrite Hb.
Qed.

(** A malformed identifier shorter than two bytes: the index expression of
    the warning panics. *)
Lemma syncItem_malformed_panics env item st :
  String.get 1 (Item item) = None ->
  syncItem env item st = (st, Panic "runtime error: index out of range").
Proof.
  intros Hb.
  assert (Hp : parsed_item item = None).
  { unfold parsed_item. rewrite Hb. rewrite bool_decide_eq_false_2 by done.
    by rewrite orb_true_r. }
  rewrite (syncItem_malformed _ _ Hp). unfold warnInvalidSyncItem. by rewrite Hb.
Qed.

Lemma syncItem_Failed env item st st' r :
  syncItem env item st = (st', Failed r) ->
  (exists itemid, parsed_item item = Some itemid) /\ is_entry item = true /\ jcx st' = jcx st.
Proof.
  destruct (parsed_item item) as [itemid|] eqn:Hp.
  - destruct (is_entry item) eqn:He.
    + intros H. destruct (syncItem_entry _ _ _ _ _ _ Hp He H) as [(? & _)|(r' & _ & Hj)];
        [discriminate|eauto].
    + rewrite (syncItem_other _ _ _ _ Hp He). discriminate.
  - rewrite (syncItem_malformed _ _ Hp). unfold warnInvalidSyncItem.
    destruct (String.get 1 (Item item)); discriminate.
Qed.

Lemma syncItem_Ret_cursor env item st st' :
  syncItem env item st = (st', Ret tt) ->
  lastSync (db (jcx st')) = cursorAfter (lastSync (db (jcx st))) [item]
  /\ dir (jcx st') = dir (jcx st) /\ name (jcx st') = name (jcx st).
Proof.
  unfold cursorAfter. simpl.
  destruct (parsed_item item) as [itemid|] eqn:Hp.
  - rewrite (syncItem_parsed _ _ _ Hp). unfold bind at 1.
    destruct (is_entry item).
    + destruct (syncEntry env item itemid st) as [s1 r1] eqn:Hs.
      assert (Hj : dir (jcx s1) = dir (jcx st) /\ name (jcx s1) = name (jcx st)).
      { revert Hs. unfold syncEntry.
        unfold bind at 1. unfold log at 1, emit at 1, modify at 1. unfold bind at 1.
        destruct (call_getevents env itemid _) as [s2 r2] eqn:Hget.
        apply call_getevents_frame in Hget as (Hj2 & _). simpl in Hj2.
        destruct r2 as [[|event events]| | |]; try (intros [= <- <-]; by rewrite Hj2).
        unfold bind at 1.
        destruct (writeLJEventDump env "L" itemid event s2) as [s3 r3] eqn:Hw.
        apply writeLJEventDump_frame in Hw as [Hj3 _].
        destruct r3; intros [= <- <-]; simpl; by rewrite ?Hj3, Hj2. }
      destruct r1; intros [= <-]; simpl; tauto.
    + intros [= <-]. done.
  - rewrite (syncItem_malformed _ _ Hp). unfold warnInvalidSyncItem.
    destruct (String.get 1 (Item item)); [|discriminate].
    intros [= <-]. done.
Qed.

Lemma cursorAfter_app cur l1 l2 :
  cursorAfter cur (l1 ++ l2) = cursorAfter (cursorAfter cur l1) l2.
Proof. unfold cursorAfter. apply fold_left_app. Qed.

(** A [range] loop either runs through, or stops at the first element
    whose body does not return normally. *)
Lemma forEach_inv {E A} (body : A -> M E unit) l st st' res :
  forEach l body st = (st', res) ->
  (res = Ret tt)
  \/ exists done bad rest st1,
       l = done ++ bad :: rest
       /\ forEach done body st = (st1, Ret tt)
       /\ body bad st1 = (st', res)
       /\ res <> Ret tt.
Proof.
  revert st. induction l as [|x l IH]; intros st; simpl.
  - intros [= <- <-]. by left.
  - unfold bind. destruct (body x st) as [s1 r1] eqn:Hx.
    destruct r1 as [[]| | |].
    + intros H. destruct (IH _ H) as [->|(done & bad & rest & st1 & -> & Hd & Hb & Hne)];
        [by left|right].
      exists (x :: done), bad, rest, st1. split; [done|]. split; [|done].
      simpl. unfold bind. by rewrite Hx.
    + intros [= <- <-]. right. exists [], x, l, st. by rewrite Hx.
    + intros [= <- <-]. right. exists [], x, l, st. by rewrite Hx.
    + intros [= <- <-]. right. exists [], x, l, st. by rewrite Hx.
Qed.

Lemma forEach_syncItem_cursor env items st st' :
  forEach items (syncItem env) st = (st', Ret tt) ->
  lastSync (db (jcx st')) = cursorAfter (lastSync (db (jcx st))) items
  /\ dir (jcx st') = dir (jcx st) /\ name (jcx st') = name (jcx st).
Proof.
  revert st. induction items as [|x l IH]; intros st; simpl.
  - intros [= <-]. done.
  - unfold bind. destruct (syncItem env x st) as [s1 r1] eqn:Hx.
    destruct r1 as [[]| | |]; try discriminate.
    intros H. apply IH in H as (Hc & Hd & Hn).
    apply syncItem_Ret_cursor in Hx as (Hc1 & Hd1 & Hn1).
    rewrite Hc, Hd, Hn, Hc1, Hd1, Hn1. split; [|done].
    reflexivity.
Qed.

(** One iteration of the outer loop that runs through: a page that is not
    empty, every item of it processed. *)
Definition page_done (env : Env) (st st' : St) : Prop :=
  exists st1 items,
    call_syncitems env st = (st1, Ret items) /\ items <> []
    /\ forEach items (syncItem env) st1 = (st', Ret tt).

Inductive pages_done (env : Env) : St -> St -> Prop :=
| pages_done_refl st : pages_done env st st
| pages_done_step st st1 st2 :
    page_done env st st1 -> pages_done env st1 st2 -> pages_done env st st2.

(** The iteration that fails: either the feed request itself, or an entry
    item [bad] after the items [done] of the page were processed. *)
Definition page_fails (env : Env) (st st' : St) (r : Report) : Prop :=
  (call_syncitems env st = (st', Failed r) /\ jcx st' = jcx st)
  \/ exists st1 done bad rest st2,
       call_syncitems env st = (st1, Ret (done ++ bad :: rest))
       /\ forEach done (syncItem env) st1 = (st2, Ret tt)
       /\ syncItem env bad st2 = (st', Failed r)
       /\ is_entry bad = true
       /\ jcx st' = jcx st2
       /\ lastSync (db (jcx st')) = cursorAfter (lastSync (db (jcx st))) done.

Lemma call_syncitems_frame env st st' r :
  call_syncitems env st = (st', r) ->
  jcx st' = jcx st /\ acct st' = acct st /\ fs st' = fs st
  /\ trace st' = trace st ++ [EvSyncItems (lastSync (db (jcx st))) (name (jcx st))].
Proof.
  unfold call_syncitems. run.
  destruct (xmlrpc_syncitems env _ _ _); intros [= <- <-]; done.
Qed.

Lemma dumpJournalPosts_loop_failure env fuel st st' r :
  dumpJournalPosts_loop env fuel st = (st', Failed r) ->
  exists st0, pages_done env st st0 /\ page_fails env st0 st' r.
Proof.
  revert st. induction fuel as [|fuel IH]; intros st; simpl; [discriminate|].
  unfold bind at 1.
  destruct (call_syncitems env st) as [s1 r1] eqn:Hcall.
  apply call_syncitems_frame in Hcall as Hframe. destruct Hframe as (Hj1 & _).
  destruct r1 as [items| | |]; try discriminate.
  - destruct items as [|item items]; [discriminate|].
    unfold bind at 1.
    destruct (forEach (item :: items) (syncItem env) s1) as [s2 r2] eqn:Hpage.
    destruct r2 as [[]| | |]; try discriminate.
    + intros H. destruct (IH _ H) as (st0 & Hdone & Hfail).
      exists st0. split; [|done].
      eapply pages_done_step; [|exact Hdone].
      exists s1, (item :: items). done.
    + intros [= <- <-]. exists st. split; [constructor|]. right.
      destruct (forEach_inv _ _ _ _ _ Hpage) as [?|(done & bad & rest & st2 & Hl & Hd & Hb & _)];
        [discriminate|].
      apply syncItem_Failed in Hb as Hbad. destruct Hbad as (_ & He & Hj).
      exists s1, done, bad, rest, st2. rewrite <- Hl.
      repeat (split; [done|]).
      rewrite Hj. apply forEach_syncItem_cursor in Hd as (-> & _). by rewrite Hj1.
  - intros [= <- <-]. exists st. split; [constructor|]. left. done.
Qed.

Lemma grows_syncItem env item : grows (syncItem env item).
Proof.
  unfold syncItem, warnInvalidSyncItem, call_getevents, writeLJEventDump. solve_grows.
Qed.

Lemma grows_call_syncitems env : grows (call_syncitems env).
Proof. unfold call_syncitems. solve_grows. Qed.

Lemma grows_dumpJournalPosts_loop env fuel : grows (dumpJournalPosts_loop env fuel).
Proof.
  induction fuel as [|fuel IH]; simpl; [apply grows_outOfFuel|].
  apply grows_bind; [apply grows_call_syncitems|]. intros [|item items]; [apply grows_ret|].
  apply grows_bind; [|by intros _].
  apply grows_forEach. intros x. apply grows_syncItem.
Qed.

Lemma dumpJournalPosts_loop_first_request env fuel st :
  exists evs,
    trace (fst (dumpJournalPosts_loop env (S fuel) st))
    = trace st ++ EvSyncItems (lastSync (db (jcx st))) (name (jcx st)) :: evs.
Proof.
  simpl. unfold bind at 1.
  destruct (call_syncitems env st) as [s1 r1] eqn:Hcall.
  apply call_syncitems_frame in Hcall as (_ & _ & _ & Ht).
  assert (Hk : grows (fun s : St =>
            match r1 with
            | Ret a =>
                match a with
                | [] => ret tt
                | _ :: _ => forEach a (syncItem env) ;; dumpJournalPosts_loop env fuel
                end s
            | Failed e => (s, Failed e)
            | Panic msg => (s, Panic msg)
            | OutOfFuel => (s, OutOfFuel)
            end)).
  { destruct r1 as [[|item items]| | |]; try (intros s; exists []; simpl; by rewrite app_nil_r).
    apply grows_bind; [|intros _; apply grows_dumpJournalPosts_loop].
    apply grows_forEach. intros x. apply grows_syncItem. }
  destruct (Hk s1) as [evs Hevs]. exists evs.
  destruct r1; simpl in *; rewrite Hevs, Ht, <- app_assoc; reflexivity.
Qed.

(** What follows a computation in a bind only adds to its history. *)
Lemma bind_trace_after {E A B} (m : M E A) (k : A -> M E B) st :
  (forall a, grows (k a)) ->
  exists evs, trace (fst (bind m k st)) = trace (fst (m st)) ++ evs.
Proof.
  intros Hk. unfold bind. destruct (m st) as [s [a| | |]]; simpl;
    [apply Hk|exists []; by rewrite app_nil_r..].
Qed.

(** A run whose first page opens with the entry item [bad] fetches [bad]
    before anything else. *)
Lemma dumpJournalPosts_fetches_first env fuel st bad itemid rest :
  parsed_item bad = Some itemid -> is_entry bad = true ->
  xmlrpc_NewClient env (server (config (jcx st)) +:+ "/interface/xmlrpc") = None ->
  let announce := EvLog ("Fetching journal entries for: " +:+ name (jcx st)) in
  let request := EvSyncItems (lastSync (db (jcx st))) (name (jcx st)) in
  xmlrpc_syncitems env (trace st ++ [announce; request])
    (lastSync (db (jcx st))) (name (jcx st)) = inr (bad :: rest) ->
  exists evs,
    trace (fst (dumpJournalPosts env (S fuel) st))
    = trace st ++ [announce; request;
                   EvLog ("Fetching journal entry " +:+ Item bad
                          +:+ " (" +:+ Action bad +:+ ")");
                   EvGetEvents itemid (name (jcx st))] ++ evs.
Proof.
  intros Hp He Hclient announce request Hfeed.
  set (started := set_trace (fun t => t ++ [announce]) st).
  assert (Hstart : dumpJournalPosts env (S fuel) st
                   = dumpJournalPosts_loop env (S fuel) started).
  { unfold dumpJournalPosts. unfold bind at 1. unfold gets at 1.
    unfold bind at 1. unfold log at 1, emit at 1, modify at 1.
    by rewrite Hclient. }
  assert (Hpage : call_syncitems env started
                  = (set_trace (fun t => t ++ [request]) started, Ret (bad :: rest))).
  { unfold call_syncitems. run. rewrite <- app_assoc. simpl.
    fold announce. fold request. by rewrite Hfeed. }
  rewrite Hstart. cbn [dumpJournalPosts_loop]. unfold bind at 1. rewrite Hpage.
  cbn beta iota.
  match goal with |- context [trace (fst (bind ?m ?k ?s))] =>
    destruct (bind_trace_after m k s) as [evs1 ->];
      [intros _; apply grows_dumpJournalPosts_loop|]
  end.
  cbn [forEach].
  match goal with |- context [trace (fst (bind ?m ?k ?s))] =>
    destruct (bind_trace_after m k s) as [evs2 ->];
      [intros _; apply grows_forEach; intros x; apply grows_syncItem|]
  end.
  rewrite (syncItem_parsed _ _ _ Hp), He.
  match goal with |- context [trace (fst (bind ?m ?k ?s))] =>
    destruct (bind_trace_after m k s) as [evs3 ->];
      [intros _; apply grows_modify; intros []; reflexivity|]
  end.
  unfold syncEntry. unfold bind at 1. unfold log at 1, emit at 1, modify at 1.
  match goal with |- context [trace (fst (bind ?m ?k ?s))] =>
    destruct (bind_trace_after m k s) as [evs4 ->];
      [intros events; unfold writeLJEventDump; solve_grows|];
    destruct (m s) as [s' r'] eqn:Hget
  end.
  apply call_getevents_frame in Hget as (_ & _ & _ & Ht). cbn [fst]. rewrite Ht.
  exists (evs4 ++ evs3 ++ evs2 ++ evs1). subst started. simpl.
  rewrite <- !app_assoc. reflexivity.
Qed.

(** C1 (amended): in post synchronisation the cursor follows the write.
    For an entry item the step either commits (the entry file is in
    place, the rename onto it is the last event, and only then is the
    cursor this item's time and the state dirty) or fails with the
    journal context untouched.  When the loop fails, it has run through
    whole pages and then stopped at once, either on the feed request or
    on an entry item [bad] of the current page: the cursor is the one
    committed by the items before [bad].  A rerun from that cursor opens
    with the feed request for what follows it; when the feed answers that
    request with the item the run failed on, the rerun fetches that item
    before any other. *)
Theorem dumpJournalPosts_cursor_follows_write env :
  (forall item itemid st st' res,
      parsed_item item = Some itemid -> is_entry item = true ->
      syncItem env item st = (st', res) ->
      (res = Ret tt
       /\ lastSync (db (jcx st')) = Time item
       /\ shouldWriteDB (jcx st') = true
       /\ is_Some (fs st' !! eventPath_of (jcx st) itemid)
       /\ exists evs,
            trace st' = trace st ++ evs ++
              [EvRename (eventPath_of (jcx st) itemid +:+ ".tmp")
                 (eventPath_of (jcx st) itemid) true])
      \/ (exists r, res = Failed r /\ jcx st' = jcx st))
  /\ (forall fuel st st' r,
        dumpJournalPosts env fuel st = (st', Failed r) ->
        let started :=
          set_trace (fun t => t ++ [EvLog ("Fetching journal entries for: " +:+ name (jcx st))]) st in
        (st' = started
         /\ xmlrpc_NewClient env (server (config (jcx st)) +:+ "/interface/xmlrpc")
            = Some (default "" (match r with mkReport _ e _ => e end)))
        \/ exists st0, pages_done env started st0 /\ page_fails env st0 st' r)
  /\ (forall fuel st,
        exists evs,
          trace (fst (dumpJournalPosts_loop env (S fuel) st))
          = trace st ++ EvSyncItems (lastSync (db (jcx st))) (name (jcx st)) :: evs)
  /\ (forall bad before failed r fuel st rest,
        syncItem env bad before = (failed, Failed r) ->
        lastSync (db (jcx st)) = lastSync (db (jcx failed)) ->
        xmlrpc_NewClient env (server (config (jcx st)) +:+ "/interface/xmlrpc") = None ->
        let announce := EvLog ("Fetching journal entries for: " +:+ name (jcx st)) in
        let request := EvSyncItems (lastSync (db (jcx failed))) (name (jcx st)) in
        xmlrpc_syncitems env (trace st ++ [announce; request])
          (lastSync (db (jcx failed))) (name (jcx st)) = inr (bad :: rest) ->
        exists itemid evs,
          parsed_item bad = Some itemid
          /\ trace (fst (dumpJournalPosts env (S fuel) st))
             = trace st ++ [announce; request;
                            EvLog ("Fetching journal entry " +:+ Item bad
                                   +:+ " (" +:+ Action bad +:+ ")");
                            EvGetEvents itemid (name (jcx st))] ++ evs).
Proof.
  split; [|split; [|split]].
  - intros. eapply syncItem_entry; eauto.
  - intros fuel st st' r. unfold dumpJournalPosts.
    unfold bind at 1. unfold gets at 1.
    unfold bind at 1. unfold log at 1, emit at 1, modify at 1.
    destruct (xmlrpc_NewClient env _) as [e|] eqn:Hc.
    + intros [= <- <-]. left. done.
    + intros H. right. by apply dumpJournalPosts_loop_failure in H.
  - apply dumpJournalPosts_loop_first_request.
  - intros bad before failed r fuel st rest Hfail Hcursor Hclient announce request Hfeed.
    apply syncItem_Failed in Hfail as ([itemid Hp] & He & _).
    exists itemid. subst request. rewrite <- Hcursor in *.
    destruct (dumpJournalPosts_fetches_first env fuel st bad itemid rest Hp He Hclient Hfeed)
      as [evs Hevs].
    exists evs. split; [exact Hp|exact Hevs].
Qed.

Lemma dumpJournalPosts_cursor_follows_write_witness :
  let started :=
    set_trace (fun t => t ++ [EvLog ("Fetching journal entries for: " +:+ "alice")])
      Scenario.st0 in
  let st' := fst (dumpJournalPosts Scenario.second_fetch_fails 3 Scenario.st0) in
  let failed := fst (dumpJournalPosts Scenario.second_fetch_fails_once 3 Scenario.st0) in
  ((st' = started
    /\ xmlrpc_NewClient Scenario.second_fetch_fails
         (server (config (jcx Scenario.st0)) +:+ "/interface/xmlrpc")
       = Some "connection reset")
   \/ exists st0,
        pages_done Scenario.second_fetch_fails started st0
        /\ page_fails Scenario.second_fetch_fails st0 st' (WrapErr "connection reset" ""))
  /\ exists itemid evs,
       parsed_item Scenario.item2 = Some itemid
       /\ trace (fst (dumpJournalPosts Scenario.second_fetch_fails_once 3 failed))
          = trace failed
            ++ [EvLog "Fetching journal entries for: alice";
                EvSyncItems "2016-01-01 10:00:00" "alice";
                EvLog "Fetching journal entry L-2 (create)";
                EvGetEvents itemid "alice"] ++ evs.
Proof.
  intros started st' failed. split.
  - apply (proj1 (proj2 (dumpJournalPosts_cursor_follows_write Scenario.second_fetch_fails))
             3%nat Scenario.st0 st' (WrapErr "connection reset" "")).
    vm_compute. reflexivity.
  - apply (proj2 (proj2 (proj2
             (dumpJournalPosts_cursor_follows_write Scenario.second_fetch_fails_once)))
             Scenario.item2
             (fst (forEach [Scenario.item1] (syncItem Scenario.second_fetch_fails_once)
                     (fst (call_syncitems Scenario.second_fetch_fails_once started))))
             failed (WrapErr "connection reset" "") 2%nat failed []);
      vm_compute; reflexivity.
Defined.

(** C1 as stated fails: the cursor is a time, and the feed serves what is
    later than it.  Here both entries are of the same second and the
    second cannot be fetched at the first attempt.  The run fails on it
    with the cursor at the first entry's time, which is its own; the
    rerun from that cursor is served nothing, requests no entry and
    returns: the entry the run failed on is not fetched again. *)
Lemma same_second_item_is_not_refetched :
  let env := Scenario.same_second in
  let failed := dumpJournalPosts env 3 Scenario.st0 in
  let rerun := dumpJournalPosts env 3 (fst failed) in
  snd failed = Failed (WrapErr "connection reset" "")
  /\ last (trace (fst failed)) = Some (EvGetEvents 2 "alice")
  /\ lastSync (db (jcx (fst failed))) = Time Scenario.item1
  /\ Time Scenario.item2_same_second = Time Scenario.item1
  /\ snd rerun = Ret tt
  /\ trace (fst rerun)
     = trace (fst failed) ++ [EvLog "Fetching journal entries for: alice";
                              EvSyncItems "2016-01-01 10:00:00" "alice"]
  /\ fs (fst rerun) !! "alice/L-2" = None.
Proof. repeat split; vm_compute; reflexivity. Qed.

(** With the entries a day apart the rerun does fetch the second entry,
    and only it. *)
Example second_fetch_fails_once_rerun :
  let env := Scenario.second_fetch_fails_once in
  let failed := dumpJournalPosts env 3 Scenario.st0 in
  let rerun := dumpJournalPosts env 3 (fst failed) in
  snd failed = Failed (WrapErr "connection reset" "")
  /\ lastSync (db (jcx (fst failed))) = Time Scenario.item1
  /\ snd rerun = Ret tt
  /\ List.filter (fun ev => match ev with EvGetEvents _ _ => true | _ => false end)
                 (trace (fst rerun))
     = [EvGetEvents 1 "alice"; EvGetEvents 2 "alice"; EvGetEvents 2 "alice"]
  /\ is_Some (fs (fst rerun) !! "alice/L-2")
  /\ lastSync (db (jcx (fst rerun))) = Time Scenario.item2.
Proof. vm_compute. repeat split; eauto. Qed.

(** The same run, computed: the first entry is written and committed, the
    second is requested and fails, and the cursor is the first entry's time. *)
Example second_fetch_fails_run :
  let out := dumpJournalPosts Scenario.second_fetch_fails 3 Scenario.st0 in
  snd out = Failed (WrapErr "connection reset" "")
  /\ lastSync (db (jcx (fst out))) = Time Scenario.item1
  /\ shouldWriteDB (jcx (fst out)) = true
  /\ is_Some (fs (fst out) !! "alice/L-1")
  /\ fs (fst out) !! "alice/L-2" = None
  /\ last (trace (fst out)) = Some (EvGetEvents 2 "alice").
Proof. vm_compute. repeat split; eauto. Qed.

(** ** Malformed change-feed identifiers *)

(** A malformed identifier that has a second byte is skipped with a
    warning: the cursor, and the whole journal context, stay as they were,
    and the loop goes on to the next item. *)
Lemma malformed_item_is_skipped env item b rest st :
  parsed_item item = None -> String.get 1 (Item item) = Some b ->
  forEach (item :: rest) (syncItem env) st =
  forEach rest (syncItem env)
    (set_trace (fun t => t ++ [EvLog ("WARNING: invalid SyncItems id " +:+ fmt_s_byte b)]) st).
Proof.
  intros Hp Hb. simpl. unfold bind.
  by rewrite (syncItem_malformed_warns _ _ _ _ Hp Hb).
Qed.

(** C8, on the code: an identifier shorter than two bytes does not parse,
    yet no warning is logged and the items after it are not processed: the
    warning's own argument [item.Item[1]] panics, here on the empty
    identifier, before the entry that follows it in the page is fetched. *)
Lemma short_item_id_panics :
  let out := dumpJournalPosts Scenario.feed_with_short_id 3 Scenario.st0 in
  parsed_item Scenario.item_short = None
  /\ snd out = Panic "runtime error: index out of range"
  /\ trace (fst out) =
       [EvLog "Fetching journal entries for: alice"; EvSyncItems "" "alice"]
  /\ fs (fst out) !! "alice/L-1" = None.
Proof. vm_compute. repeat split. Qed.

(** With a second byte the same page is handled as the claim says. *)
Example nodash_item_id_is_skipped :
  let out := dumpJournalPosts Scenario.feed_with_nodash_id 3 Scenario.st0 in
  parsed_item Scenario.item_nodash = None
  /\ snd out = Ret tt
  /\ In (EvLog "WARNING: invalid SyncItems id %!s(uint8=120)") (trace (fst out))
  /\ lastSync (db (jcx (fst out))) = Time Scenario.item1
  /\ is_Some (fs (fst out) !! "alice/L-1").
Proof. vm_compute. repeat split; eauto 10. Qed.

(** ** The journal state after [readJournalDB] *)

(** C9, on the code: with a journal directory that holds no state file
    and no legacy file, [readJournalDB] returns without error and leaves
    both maps nil; the merge that ends [dumpJournalComments] then panics
    on its first assignment, after the comment file was written and
    before any state is persisted. *)
Lemma fresh_journal_has_nil_maps :
  let read := readJournalDB Scenario.quiet Scenario.st0 in
  let run := dumpJournal Scenario.one_new_comment 3 Scenario.st0 in
  snd read = Ret tt
  /\ userMap (db (jcx (fst read))) = None
  /\ commentMap (db (jcx (fst read))) = None
  /\ snd run = Panic "assignment to entry in nil map"
  /\ is_Some (fs (fst run) !! "alice/C-5")
  /\ commentMap (db (jcx (fst run))) = None.
Proof. vm_compute. repeat split; eauto. Qed.

(** With a state file in the current format the same run goes through
    and the metadata is merged. *)
Example current_format_journal_merges :
  let run := dumpJournal Scenario.one_new_comment 3 Scenario.st_current_db in
  snd run = Ret tt
  /\ commentMap (db (jcx (fst run))) = Some [(1, mkCommentMeta 9 "A")]
  /\ userMap (db (jcx (fst run))) = Some [(9, "bob")]
  /\ shouldWriteDB (jcx (fst run)) = true.
Proof. vm_compute. repeat split. Qed.

(** ** What a computation leaves alone *)

(** [keeps R m]: running [m] relates the state before to the state after,
    however [m] ends. *)
Definition keeps {E A} (R : relation St) (m : M E A) : Prop :=
  forall st, R st (fst (m st)).

Section keeps.
Context (R : relation St) `{!PreOrder R}.

Lemma keeps_ret {E A} (a : A) : keeps R (@ret E A a).
Proof. intros st. reflexivity. Qed.

Lemma keeps_throw {E A} (e : E) : keeps R (@throw E A e).
Proof. intros st. reflexivity. Qed.

Lemma keeps_panic {E A} msg : keeps R (@panic E A msg).
Proof. intros st. reflexivity. Qed.

Lemma keeps_outOfFuel {E A} : keeps R (@outOfFuel E A).
Proof. intros st. reflexivity. Qed.

Lemma keeps_gets {E A} (f : St -> A) : keeps R (@gets E A f).
Proof. intros st. reflexivity. Qed.

Lemma keeps_modify {E} (f : St -> St) : (forall st, R st (f st)) -> keeps R (@modify E f).
Proof. intros Hf st. apply Hf. Qed.

Lemma keeps_bind {E A B} (m : M E A) (k : A -> M E B) :
  keeps R m -> (forall a, keeps R (k a)) -> keeps R (bind m k).
Proof.
  intros Hm Hk st. unfold bind. specialize (Hm st).
  destruct (m st) as [st' [a| | |]]; simpl in *; auto.
  etransitivity; [exact Hm|]. apply Hk.
Qed.

Lemma keeps_wrap {A} f (m : M error A) : keeps R m -> keeps R (wrap f m).
Proof.
  intros Hm st. unfold wrap. specialize (Hm st).
  destruct (m st) as [st' [a| | |]]; simpl in *; auto.
Qed.

Lemma keeps_catch {E E' A} (m : M E A) : keeps R m -> keeps R (@catch E E' A m).
Proof.
  intros Hm st. unfold catch. specialize (Hm st).
  destruct (m st) as [st' [a| | |]]; simpl in *; auto.
Qed.

Lemma keeps_forEach {E A} (l : list A) (body : A -> M E unit) :
  (forall x, keeps R (body x)) -> keeps R (forEach l body).
Proof.
  intros Hb. induction l as [|x l IH]; simpl.
  - apply keeps_ret.
  - apply keeps_bind; auto.
Qed.

Lemma keeps_lift_report {A} (x : Report + A) : keeps R (lift_report x).
Proof. destruct x; [apply keeps_throw | apply keeps_ret]. Qed.

End keeps.

(** Decompose a computation along its binds and branches; [tac] proves
    that each state update respects the relation. *)
Ltac keeps_step tac :=
  lazymatch goal with
  | |- PreOrder _ => apply _
  | |- forall _, keeps _ _ => intros ?
  | |- keeps _ (bind _ _) => apply keeps_bind
  | |- keeps _ (ret _) => apply keeps_ret
  | |- keeps _ (throw _) => apply keeps_throw
  | |- keeps _ (panic _) => apply keeps_panic
  | |- keeps _ outOfFuel => apply keeps_outOfFuel
  | |- keeps _ (gets _) => apply keeps_gets
  | |- keeps _ (wrap _ _) => apply keeps_wrap
  | |- keeps _ (catch _) => apply keeps_catch
  | |- keeps _ (lift_report _) => apply keeps_lift_report
  | |- keeps _ (modify _) => apply keeps_modify; intros []; tac
  | |- keeps _ (forEach _ _) => apply keeps_forEach
  | |- keeps _ (match ?x with _ => _ end) => destruct x
  | |- keeps _ (if ?x then _ else _) => destruct x
  end.

Ltac solve_keeps tac := unfold log, emit; repeat keeps_step tac.

(** The persisted journal state and its dirty flag are as before. *)
Definition same_journal_state (s s' : St) : Prop :=
  db (jcx s') = db (jcx s)
  /\ shouldWriteDB (jcx s') = shouldWriteDB (jcx s)
  /\ dir (jcx s') = dir (jcx s)
  /\ name (jcx s') = name (jcx s)
  /\ config (jcx s') = config (jcx s).

#[global] Instance same_journal_state_preorder : PreOrder same_journal_state.
Proof.
  split.
  - intros s. repeat split.
  - intros s1 s2 s3 (H1 & H2 & H3 & H4 & H5) (K1 & K2 & K3 & K4 & K5).
    repeat split; congruence.
Qed.












(** ** Go maps: lookups after assignments *)

Section GoMap_facts.
Context {K V : Type} `{EqDecision K}.
Implicit Types (k : K) (v : V) (l : list (K * V)).

Lemma assoc_update_eq k v l : GoMap.assoc k (GoMap.update k v l) = Some v.
Proof.
  induction l as [|[k' v'] l IH]; simpl.
  - by rewrite decide_True.
  - destruct (decide (k = k')) as [->|Hne]; simpl.
    + by rewrite decide_True.
    + by rewrite decide_False.
Qed.

Lemma assoc_update_ne k k' v l :
  k <> k' -> GoMap.assoc k' (GoMap.update k v l) = GoMap.assoc k' l.
Proof.
  intros Hne. induction l as [|[k1 v1] l IH]; simpl.
  - rewrite decide_False; congruence.
  - destruct (decide (k = k1)) as [->|Hne1]; simpl.
    + rewrite !decide_False; congruence.
    + destruct (decide (k' = k1)); [done|apply IH].
Qed.


Lemma keys_update k v l :
  map fst (GoMap.update k v l)
  = if decide (k ∈ map fst l) then map fst l else map fst l ++ [k].
Proof.
  induction l as [|[k1 v1] l IH].
  - cbn. destruct (decide (k ∈ [])) as [Hin|_]; [by apply elem_of_nil in Hin|done].
  - cbn. destruct (decide (k = k1)) as [->|Hne]; cbn.
    + destruct (decide (k1 ∈ k1 :: map fst l)) as [_|Hnin]; [done|].
      exfalso. apply Hnin. by left.
    + rewrite IH.
      destruct (decide (k ∈ map fst l)) as [Hin|Hnin];
        destruct (decide (k ∈ k1 :: map fst l)) as [Hin'|Hnin']; try done.
      * exfalso. apply Hnin'. by right.
      * exfalso. apply elem_of_cons in Hin' as [?|?]; done.
Qed.

Lemma NoDup_keys_update k v l :
  NoDup (map fst l) -> NoDup (map fst (GoMap.update k v l)).
Proof.
  intros Hnd. rewrite keys_update. destruct (decide (k ∈ map fst l)) as [Hin|Hnin]; [done|].
  apply NoDup_app. split; [done|]. split; [|apply NoDup_singleton].
  intros x Hx ->%list_elem_of_singleton. done.
Qed.

(** A [range] loop of assignments [m[k] = v] over the entries of another
    map, as a fold. *)
Definition assign_all (entries : list (K * V)) (l : list (K * V)) : list (K * V) :=
  fold_left (fun acc kv => GoMap.update (fst kv) (snd kv) acc) entries l.


Lemma NoDup_keys_assign_all entries l :
  NoDup (map fst l) -> NoDup (map fst (assign_all entries l)).
Proof.
  revert l. induction entries as [|[k1 v1] entries IH]; intros l Hnd; [done|].
  apply IH. by apply NoDup_keys_update.
Qed.

End GoMap_facts.

(** ** The merge that ends comment synchronisation *)

Lemma forEach_assign_commentMap entries st m :
  commentMap (db (jcx st)) = Some m ->
  forEach entries assign_commentMap st =
  (set_jcx (set_db (set_commentMap (Some (assign_all entries m)))) st, Ret tt).
Proof.
  revert st m. induction entries as [|[k v] entries IH]; intros st m Hm.
  - destruct st as [t f [c n d [ls um cm] sw o ne nc] a]. simpl in *. by subst.
  - simpl. unfold bind at 1. unfold assign_commentMap at 1.
    unfold bind at 1. unfold gets at 1. rewrite Hm. simpl.
    rewrite (IH _ (GoMap.update k v m)) by reflexivity.
    by destruct st as [t f [c n d [ls um cm] sw o ne nc] a].
Qed.

Lemma forEach_assign_userMap entries st m :
  userMap (db (jcx st)) = Some m ->
  forEach entries assign_userMap st =
  (set_jcx (set_db (set_userMap (Some (assign_all entries m)))) st, Ret tt).
Proof.
  revert st m. induction entries as [|[k v] entries IH]; intros st m Hm.
  - destruct st as [t f [c n d [ls um cm] sw o ne nc] a]. simpl in *. by subst.
  - simpl. unfold bind at 1. unfold assign_userMap at 1.
    unfold bind at 1. unfold gets at 1. rewrite Hm. simpl.
    rewrite (IH _ (GoMap.update k v m)) by reflexivity.
    by destruct st as [t f [c n d [ls um cm] sw o ne nc] a].
Qed.

Lemma forEach_assign_commentMap_nil kv entries st :
  commentMap (db (jcx st)) = None ->
  forEach (kv :: entries) assign_commentMap st = (st, Panic "assignment to entry in nil map").
Proof.
  intros Hm. simpl. unfold bind at 1. unfold assign_commentMap.
  unfold bind at 1. unfold gets at 1. by rewrite Hm.
Qed.

Lemma forEach_assign_userMap_nil kv entries st :
  userMap (db (jcx st)) = None ->
  forEach (kv :: entries) assign_userMap st = (st, Panic "assignment to entry in nil map").
Proof.
  intros Hm. simpl. unfold bind at 1. unfold assign_userMap.
  unfold bind at 1. unfold gets at 1. by rewrite Hm.
Qed.







Lemma absorb_fold_snd comments nc mx :
  snd (fold_left
         (fun acc c =>
            (GoMap.update (cm_Id c) (mkCommentMeta (cm_PosterId c) (cm_State c)) (fst acc),
             if snd acc <? cm_Id c then cm_Id c else snd acc))
         comments (nc, mx))
  = fold_left (fun m id => if m <? id then id else m) (map cm_Id comments) mx.
Proof. revert nc mx. induction comments as [|c cs IH]; intros nc mx; simpl; [done|apply IH]. Qed.








(** The state in which the passes of [dumpJournalComments] start. *)
Definition comments_started (st : St) : St :=
  set_trace (fun t => t ++ [EvLog ("Fetching journal comments for: " +:+ name (jcx st))]) st.

(** The locals the meta pass starts from. *)
Definition metaLocals0 (st : St) : MetaLocals :=
  {| l_newComments := []; l_newCommentUsers := [];
     l_newMaxId := maxStoredCommentId_of (commentMap (db (jcx st))) |}.

Lemma dumpJournalComments_stages env fuel st :
  dumpJournalComments env fuel st =
  (l <- metaPass env fuel (metaLocals0 st) ;;
   bodyPass env fuel l (maxStoredCommentId_of (commentMap (db (jcx st)))) ;;
   mergeNewMeta l) (comments_started st).
Proof. reflexivity. Qed.







(** ** The two pagination loops of comment synchronisation *)

(** The frontier after a chunk: the highest id among the frontier before
    and the ids of the chunk. *)
Definition frontier_after (f : Z) (ids : list Z) : Z :=
  fold_left (fun m id => if m <? id then id else m) ids f.

(** Every chunk of metadata fetched while the frontier is below the
    chunk's declared target holds a comment above the frontier. *)
Definition meta_progress (env : Env) : Prop :=
  forall t f a chunk,
    in_int64 f = true ->
    export_comments_meta env t (wrap64 (f + 1)) a = ExportOk chunk ->
    f < MaxId chunk ->
    Exists (fun c => f < cm_Id c) (mc_Comments chunk).

(** Every chunk of bodies fetched while the frontier is below [target]
    holds a comment above the frontier.  The frontier is an [int64], so a
    request for [startid] says nothing of frontiers other than
    [startid - 1]: a chunk fetched at or above the target may be empty. *)
Definition body_progress (env : Env) (target : Z) : Prop :=
  forall t f a chunk,
    in_int64 f = true ->
    export_comments_body env t (wrap64 (f + 1)) a = ExportOk chunk ->
    f < target ->
    Exists (fun c => f < c_Id c) (cc_Comments chunk).

(** The loop came back: it returned or failed, it neither panicked nor
    ran out of fuel. *)
Definition came_back {E A} (r : Res E A) : Prop :=
  match r with
  | Ret _ | Failed _ => True
  | Panic _ | OutOfFuel => False
  end.

Lemma wrap64_in_range z : in_int64 z = true -> wrap64 z = z.
Proof.
  unfold in_int64, wrap64, int64_min, int64_max. intros H.
  apply andb_true_iff in H as [H1 H2]. apply Z.leb_le in H1, H2.
  rewrite Z.mod_small; lia.
Qed.

Lemma wrap64_succ f : in_int64 f = true -> f < int64_max -> wrap64 (f + 1) = f + 1.
Proof.
  intros H Hlt. apply wrap64_in_range. unfold in_int64, int64_min, int64_max in *.
  apply andb_true_iff in H as [H1 H2]. apply Z.leb_le in H1, H2.
  apply andb_true_iff. split; apply Z.leb_le; lia.
Qed.

Lemma in_int64_wrap64 z : in_int64 (wrap64 z) = true.
Proof.
  unfold in_int64, wrap64, int64_min, int64_max.
  pose proof (Z.mod_pos_bound (z + 2 ^ 63) (2 ^ 64)).
  apply andb_true_iff. split; apply Z.leb_le; lia.
Qed.

Lemma frontier_after_le f ids : f <= frontier_after f ids.
Proof.
  revert f. induction ids as [|id ids IH]; intros f; simpl; [lia|].
  unfold frontier_after in *. simpl.
  destruct (Z.ltb_spec f id); [etransitivity; [|apply IH]; lia|apply IH].
Qed.

Lemma frontier_after_mono f g ids : f <= g -> frontier_after f ids <= frontier_after g ids.
Proof.
  revert f g. induction ids as [|id ids IH]; intros f g Hfg; simpl; [done|].
  unfold frontier_after in *. simpl.
  destruct (Z.ltb_spec f id), (Z.ltb_spec g id); apply IH; lia.
Qed.

(** The frontier after a chunk is above every id of the chunk. *)
Lemma frontier_after_ge f ids : Forall (fun id => id <= frontier_after f ids) ids.
Proof.
  revert f. induction ids as [|id ids IH]; intros f; [constructor|].
  constructor.
  - unfold frontier_after. simpl. destruct (Z.ltb_spec f id).
    + apply (frontier_after_le id ids).
    + etransitivity; [|apply (frontier_after_le f ids)]. lia.
  - unfold frontier_after. simpl. apply IH.
Qed.

(** It is one of them: the frontier before, or an id of the chunk. *)
Lemma frontier_after_in f ids : frontier_after f ids = f \/ In (frontier_after f ids) ids.
Proof.
  revert f. induction ids as [|id ids IH]; intros f; simpl; [by left|].
  unfold frontier_after in *. simpl.
  destruct (Z.ltb_spec f id).
  - destruct (IH id) as [->|Hin]; [right; by left|right; by right].
  - destruct (IH f) as [->|Hin]; [by left|right; by right].
Qed.

Lemma frontier_after_in_int64 f ids :
  in_int64 f = true -> forallb in_int64 ids = true -> in_int64 (frontier_after f ids) = true.
Proof.
  intros Hf Hids. destruct (frontier_after_in f ids) as [->|Hin]; [done|].
  rewrite forallb_forall in Hids. by apply Hids.
Qed.

Lemma absorbMetaChunk_frontier chunk l :
  l_newMaxId (absorbMetaChunk chunk l)
  = frontier_after (l_newMaxId l) (map cm_Id (mc_Comments chunk)).
Proof. unfold absorbMetaChunk. simpl. apply absorb_fold_snd. Qed.

(** What one metadata request does: the request for the ids above the
    frontier is its only event, and a chunk it returns holds [int64]
    values only. *)
Lemma fetchCommentData_meta_spec env f st :
  exists res,
    fetchCommentData_meta env f st =
    (set_trace (fun t => t ++ [EvExportComments "meta" (wrap64 (f + 1)) (authas_of env (jcx st))]) st,
     res)
    /\ match res with
       | Ret chunk =>
           export_comments_meta env
             (trace st ++ [EvExportComments "meta" (wrap64 (f + 1)) (authas_of env (jcx st))])
             (wrap64 (f + 1)) (authas_of env (jcx st)) = ExportOk chunk
           /\ metaChunk_in_int64 chunk = true
       | Failed _ => True
       | Panic _ | OutOfFuel => False
       end.
Proof.
  unfold fetchCommentData_meta. run.
  destruct (export_comments_meta env _ _ _) as [e|e|chunk] eqn:Hx.
  - eexists. split; [reflexivity|done].
  - eexists. split; [reflexivity|done].
  - destruct (metaChunk_in_int64 chunk) eqn:Hin; (eexists; split; [reflexivity|done]).
Qed.

(** ** Computations that come back *)

Definition comes_back {E A} (m : M E A) : Prop := forall st, came_back (snd (m st)).

Lemma comes_back_ret {E A} (a : A) : comes_back (@ret E A a).
Proof. intros st. exact I. Qed.

Lemma comes_back_throw {E A} (e : E) : comes_back (@throw E A e).
Proof. intros st. exact I. Qed.

Lemma comes_back_gets {E A} (f : St -> A) : comes_back (@gets E A f).
Proof. intros st. exact I. Qed.

Lemma comes_back_modify {E} (f : St -> St) : comes_back (@modify E f).
Proof. intros st. exact I. Qed.

Lemma comes_back_bind {E A B} (m : M E A) (k : A -> M E B) :
  comes_back m -> (forall a, comes_back (k a)) -> comes_back (bind m k).
Proof.
  intros Hm Hk st. unfold bind. specialize (Hm st).
  destruct (m st) as [st' [a| | |]]; simpl in *; auto. apply Hk.
Qed.

Lemma comes_back_wrap {A} f (m : M error A) : comes_back m -> comes_back (wrap f m).
Proof.
  intros Hm st. unfold wrap. specialize (Hm st).
  destruct (m st) as [st' [a| | |]]; simpl in *; auto.
Qed.

Lemma comes_back_forEach {E A} (l : list A) (body : A -> M E unit) :
  (forall x, comes_back (body x)) -> comes_back (forEach l body).
Proof.
  intros Hb. induction l as [|x l IH]; simpl.
  - apply comes_back_ret.
  - apply comes_back_bind; auto.
Qed.

Ltac comes_back_step :=
  lazymatch goal with
  | |- forall _, comes_back _ => intros ?
  | |- comes_back (bind _ _) => apply comes_back_bind
  | |- comes_back (ret _) => apply comes_back_ret
  | |- comes_back (throw _) => apply comes_back_throw
  | |- comes_back (gets _) => apply comes_back_gets
  | |- comes_back (modify _) => apply comes_back_modify
  | |- comes_back (wrap _ _) => apply comes_back_wrap
  | |- comes_back (forEach _ _) => apply comes_back_forEach
  | |- comes_back (match ?x with _ => _ end) => destruct x
  | |- comes_back (if ?x then _ else _) => destruct x
  end.

Ltac solve_comes_back := unfold log, emit; repeat comes_back_step.

Lemma comes_back_writeFileTempRename env filePath data :
  comes_back (writeFileTempRename env filePath data).
Proof. unfold writeFileTempRename. solve_comes_back. Qed.

Lemma comes_back_storeComment env l c : comes_back (storeComment env l c).
Proof.
  unfold storeComment, readStoredComments, ReadFile, storeMerged.
  apply comes_back_bind; [apply comes_back_gets|]. intros j.
  apply comes_back_bind; [solve_comes_back|]. intros stored.
  destruct (mergeComment stored _) as [[stored' foundDup] shouldStore].
  apply comes_back_bind; [solve_comes_back|]. intros _.
  destruct shouldStore; [|apply comes_back_ret].
  apply comes_back_bind; [|intros _; apply comes_back_modify].
  apply comes_back_wrap, comes_back_writeFileTempRename.
Qed.

Lemma storeChunk_spec env l comments mx st :
  came_back (snd (storeChunk env l comments mx st))
  /\ forall mx', snd (storeChunk env l comments mx st) = Ret mx' ->
       mx' = frontier_after mx (map c_Id comments).
Proof.
  revert mx st. induction comments as [|c rest IH]; intros mx st; simpl.
  - split; [exact I|]. by intros mx' [= <-].
  - unfold bind. pose proof (comes_back_storeComment env l c st) as Hc.
    destruct (storeComment env l c st) as [s1 [[]| | |]]; simpl in *; try done.
    all: apply IH.
Qed.

Lemma fetchCommentData_body_spec env f st :
  exists res,
    fetchCommentData_body env f st =
    (set_trace (fun t => t ++ [EvExportComments "body" (wrap64 (f + 1)) (authas_of env (jcx st))]) st,
     res)
    /\ match res with
       | Ret chunk =>
           export_comments_body env
             (trace st ++ [EvExportComments "body" (wrap64 (f + 1)) (authas_of env (jcx st))])
             (wrap64 (f + 1)) (authas_of env (jcx st)) = ExportOk chunk
           /\ chunk_in_int64 chunk = true
       | Failed _ => True
       | Panic _ | OutOfFuel => False
       end.
Proof.
  unfold fetchCommentData_body. run.
  destruct (export_comments_body env _ _ _) as [e|e|chunk] eqn:Hx.
  - eexists. split; [reflexivity|done].
  - eexists. split; [reflexivity|done].
  - destruct (chunk_in_int64 chunk) eqn:Hin; (eexists; split; [reflexivity|done]).
Qed.

Lemma metaChunk_in_int64_ids chunk :
  metaChunk_in_int64 chunk = true ->
  in_int64 (MaxId chunk) = true /\ forallb in_int64 (map cm_Id (mc_Comments chunk)) = true.
Proof.
  unfold metaChunk_in_int64. intros H.
  apply andb_true_iff in H as [H _]. apply andb_true_iff in H as [H1 H2].
  split; [done|]. rewrite forallb_forall in *. intros id Hin.
  apply in_map_iff in Hin as (c & <- & Hc). specialize (H2 c Hc).
  by apply andb_true_iff in H2 as [? _].
Qed.

Lemma metaPass_S env fuel l :
  metaPass env (S fuel) l =
  (metaChunk <- fetchCommentData_meta env (l_newMaxId l) ;;
   if l_newMaxId (absorbMetaChunk metaChunk l) >=? MaxId metaChunk
   then ret (absorbMetaChunk metaChunk l)
   else metaPass env fuel (absorbMetaChunk metaChunk l)).
Proof. reflexivity. Qed.

Lemma bodyPass_S env fuel l mx :
  bodyPass env (S fuel) l mx =
  (chunk <- fetchCommentData_body env mx ;;
   mx' <- storeChunk env l (cc_Comments chunk) mx ;;
   if mx' >=? l_newMaxId l then ret mx' else bodyPass env fuel l mx').
Proof. reflexivity. Qed.

(** With the progress of the metadata chunks, the meta pass comes back
    within the fuel its distance to the end of [int64] allows, and when it
    returns its frontier has reached the target the last chunk declared. *)
Lemma metaPass_comes_back env fuel l st :
  meta_progress env ->
  in_int64 (l_newMaxId l) = true ->
  (Z.to_nat (int64_max - l_newMaxId l) < fuel)%nat ->
  came_back (snd (metaPass env fuel l st))
  /\ forall l', snd (metaPass env fuel l st) = Ret l' ->
       l_newMaxId l <= l_newMaxId l'
       /\ exists f a chunk,
            last (trace (fst (metaPass env fuel l st)))
              = Some (EvExportComments "meta" (wrap64 (f + 1)) a)
            /\ export_comments_meta env (trace (fst (metaPass env fuel l st)))
                 (wrap64 (f + 1)) a = ExportOk chunk
            /\ MaxId chunk <= l_newMaxId l'.
Proof.
  intros Hprog. revert l st. induction fuel as [|fuel IH]; intros l st Hin Hfuel; [lia|].
  rewrite metaPass_S. unfold bind.
  destruct (fetchCommentData_meta_spec env (l_newMaxId l) st) as (res & Hfetch & Hres).
  rewrite Hfetch.
  destruct res as [chunk|e| |]; try done.
  destruct Hres as [Horacle Hchunk].
  apply metaChunk_in_int64_ids in Hchunk as [Hmax Hids].
  pose proof (absorbMetaChunk_frontier chunk l) as Hfr.
  pose proof (frontier_after_le (l_newMaxId l) (map cm_Id (mc_Comments chunk))) as Hle.
  rewrite <- Hfr in Hle.
  destruct (Z.geb_spec (l_newMaxId (absorbMetaChunk chunk l)) (MaxId chunk)) as [Hge|Hlt].
  - simpl. split; [exact I|]. intros l' [= <-]. split; [done|].
    exists (l_newMaxId l), (authas_of env (jcx st)), chunk.
    split; [by rewrite last_snoc|]. split; [exact Horacle|lia].
  - assert (Hf : l_newMaxId l < MaxId chunk) by lia.
    pose proof (Hprog _ _ _ _ Hin Horacle Hf) as Hex.
    apply Exists_exists in Hex as (c & Hc & Hfc).
    pose proof (frontier_after_ge (l_newMaxId l) (map cm_Id (mc_Comments chunk))) as Hall.
    rewrite Forall_forall in Hall. specialize (Hall (cm_Id c)).
    rewrite <- Hfr in Hall.
    assert (Hcid : cm_Id c <= l_newMaxId (absorbMetaChunk chunk l)).
    { apply Hall. apply list_elem_of_In, in_map, list_elem_of_In, Hc. }
    assert (Hin' : in_int64 (l_newMaxId (absorbMetaChunk chunk l)) = true).
    { rewrite Hfr. by apply frontier_after_in_int64. }
    assert (Hmaxle : MaxId chunk <= int64_max).
    { unfold in_int64 in Hmax. apply andb_true_iff in Hmax as [_ H]. by apply Z.leb_le. }
    destruct (IH (absorbMetaChunk chunk l)
                (set_trace (fun t => t ++ [EvExportComments "meta" (wrap64 (l_newMaxId l + 1))
                                             (authas_of env (jcx st))]) st) Hin')
      as [Hcb Hret]; [lia|].
    split; [exact Hcb|]. intros l' Hl'. destruct (Hret l' Hl') as [Hmono Hlast].
    split; [lia|exact Hlast].
Qed.

(** Every metadata request is answered with a well-formed chunk. *)
Definition meta_answered (env : Env) : Prop :=
  forall t s a, in_int64 s = true -> exists chunk,
    export_comments_meta env t s a = ExportOk chunk /\ metaChunk_in_int64 chunk = true.

(** Every body request is answered with a well-formed chunk. *)
Definition body_answered (env : Env) : Prop :=
  forall t s a, in_int64 s = true -> exists chunk,
    export_comments_body env t s a = ExportOk chunk /\ chunk_in_int64 chunk = true.

(** Reading, parsing and writing comment files never fails. *)
Definition disk_never_fails (env : Env) : Prop :=
  (forall t p, io_ReadFile_fault env t p = None)
  /\ (forall t p d, io_WriteFile env t p d = None)
  /\ (forall t p q, io_Rename env t p q = None)
  /\ (forall data, exists l, xml_Unmarshal_CommentFile env data = inr l).

Lemma metaPass_returns env fuel l st :
  meta_progress env -> meta_answered env ->
  in_int64 (l_newMaxId l) = true ->
  (Z.to_nat (int64_max - l_newMaxId l) < fuel)%nat ->
  exists l', snd (metaPass env fuel l st) = Ret l'.
Proof.
  intros Hprog Hans. revert l st. induction fuel as [|fuel IH]; intros l st Hin Hfuel; [lia|].
  rewrite metaPass_S. unfold bind.
  destruct (fetchCommentData_meta_spec env (l_newMaxId l) st) as (res & Hfetch & Hres).
  rewrite Hfetch.
  assert (Hok : exists chunk, res = Ret chunk).
  { revert Hfetch. unfold fetchCommentData_meta. run.
    destruct (Hans (trace st ++ [EvExportComments "meta" (wrap64 (l_newMaxId l + 1))
                                   (authas_of env (jcx st))])
                (wrap64 (l_newMaxId l + 1)) (authas_of env (jcx st))
                (in_int64_wrap64 _)) as (chunk & -> & ->).
    intros [= <-]. eauto. }
  destruct Hok as [chunk ->]. destruct Hres as [Horacle Hchunk].
  apply metaChunk_in_int64_ids in Hchunk as [Hmax Hids].
  pose proof (absorbMetaChunk_frontier chunk l) as Hfr.
  destruct (Z.geb_spec (l_newMaxId (absorbMetaChunk chunk l)) (MaxId chunk)) as [Hge|Hlt].
  - simpl. eauto.
  - pose proof (frontier_after_le (l_newMaxId l) (map cm_Id (mc_Comments chunk))) as Hle.
    rewrite <- Hfr in Hle.
    assert (Hf : l_newMaxId l < MaxId chunk) by lia.
    pose proof (Hprog _ _ _ _ Hin Horacle Hf) as Hex.
    apply Exists_exists in Hex as (c & Hc & Hfc).
    pose proof (frontier_after_ge (l_newMaxId l) (map cm_Id (mc_Comments chunk))) as Hall.
    rewrite Forall_forall in Hall. specialize (Hall (cm_Id c)).
    rewrite <- Hfr in Hall.
    assert (Hcid : cm_Id c <= l_newMaxId (absorbMetaChunk chunk l)).
    { apply Hall. apply list_elem_of_In, in_map, list_elem_of_In, Hc. }
    assert (Hmaxle : MaxId chunk <= int64_max).
    { unfold in_int64 in Hmax. apply andb_true_iff in Hmax as [_ H]. by apply Z.leb_le. }
    apply IH; [|lia]. rewrite Hfr. by apply frontier_after_in_int64.
Qed.

Lemma chunk_in_int64_ids chunk :
  chunk_in_int64 chunk = true -> forallb in_int64 (map c_Id (cc_Comments chunk)) = true.
Proof.
  unfold chunk_in_int64. intros H. rewrite forallb_forall in *. intros id Hin.
  apply in_map_iff in Hin as (c & <- & Hc). specialize (H c Hc).
  apply andb_true_iff in H as [H _]. by apply andb_true_iff in H as [? _].
Qed.

(** With the progress of the body chunks, the body pass comes back within
    the fuel its distance to the target allows, and when it returns its
    frontier has reached the target the meta pass established. *)
Lemma bodyPass_comes_back env fuel l mx st :
  body_progress env (l_newMaxId l) ->
  in_int64 mx = true ->
  (Z.to_nat (l_newMaxId l - mx) < fuel)%nat ->
  came_back (snd (bodyPass env fuel l mx st))
  /\ forall mx', snd (bodyPass env fuel l mx st) = Ret mx' ->
       l_newMaxId l <= mx' /\ mx <= mx'.
Proof.
  intros Hprog. revert mx st. induction fuel as [|fuel IH]; intros mx st Hin Hfuel; [lia|].
  rewrite bodyPass_S. unfold bind.
  destruct (fetchCommentData_body_spec env mx st) as (res & Hfetch & Hres).
  rewrite Hfetch.
  destruct res as [chunk|e| |]; try done.
  destruct Hres as [Horacle Hchunk]. apply chunk_in_int64_ids in Hchunk.
  match goal with |- context [storeChunk env l ?cs mx ?s1] =>
    pose proof (storeChunk_spec env l cs mx s1) as [Hcb Hfr];
    destruct (storeChunk env l cs mx s1) as [s2 r2] end.
  simpl in Hcb, Hfr.
  destruct r2 as [mx'|e| |]; try done.
  specialize (Hfr mx' eq_refl).
  pose proof (frontier_after_le mx (map c_Id (cc_Comments chunk))) as Hle.
  rewrite <- Hfr in Hle.
  destruct (Z.geb_spec mx' (l_newMaxId l)) as [Hge|Hlt].
  - simpl. split; [exact I|]. intros ? [= <-]. lia.
  - assert (Hf : mx < l_newMaxId l) by lia.
    pose proof (Hprog _ _ _ _ Hin Horacle Hf) as Hex.
    apply Exists_exists in Hex as (c & Hc & Hfc).
    pose proof (frontier_after_ge mx (map c_Id (cc_Comments chunk))) as Hall.
    rewrite Forall_forall in Hall. specialize (Hall (c_Id c)).
    rewrite <- Hfr in Hall.
    assert (Hcid : c_Id c <= mx').
    { apply Hall. apply list_elem_of_In, in_map, list_elem_of_In, Hc. }
    assert (Hin' : in_int64 mx' = true).
    { rewrite Hfr. by apply frontier_after_in_int64. }
    destruct (IH mx' s2 Hin') as [Hcb' Hret]; [lia|].
    split; [exact Hcb'|]. intros mx'' Hmx''. destruct (Hret mx'' Hmx''). lia.
Qed.

Lemma writeFileTempRename_returns env filePath data st :
  disk_never_fails env ->
  exists st', writeFileTempRename env filePath data st = (st', Ret tt).
Proof.
  intros (_ & Hw & Hr & _). unfold writeFileTempRename. run.
  rewrite Hw. simpl. rewrite Hr. simpl. eauto.
Qed.

Lemma storeComment_returns env l c st :
  disk_never_fails env -> exists st', storeComment env l c st = (st', Ret tt).
Proof.
  intros Hdisk. pose proof Hdisk as (Hread & _ & _ & Hxml).
  assert (Hrd : exists st1 stored,
             readStoredComments env (commentFilePath_of (jcx st) (c_JItemId c)) st
             = (st1, Ret stored)).
  { unfold readStoredComments, ReadFile. run. rewrite Hread. simpl.
    destruct (fs st !! _) as [data|]; simpl; [|eauto].
    destruct (Hxml data) as [stored ->]. eauto. }
  destruct Hrd as (st1 & stored & Hrd).
  rewrite (storeComment_after_read _ _ _ _ _ _ Hrd). unfold storeMerged.
  destruct (mergeComment stored _) as [[stored' foundDup] shouldStore].
  unfold bind at 1.
  match goal with |- context [(if foundDup then ?a else ?b) st1] =>
    assert (Hlog : exists s2, (if foundDup then a else b) st1 = (s2, Ret tt))
      by (destruct foundDup; [destruct shouldStore|]; eexists; reflexivity)
  end.
  destruct Hlog as [s2 ->].
  destruct shouldStore; [|eexists; reflexivity].
  unfold bind, wrap.
  match goal with |- context [writeFileTempRename env ?p ?d s2] =>
    destruct (writeFileTempRename_returns env p d s2 Hdisk) as [s3 ->] end.
  eexists. reflexivity.
Qed.

Lemma storeChunk_returns env l comments mx st :
  disk_never_fails env -> exists st' mx', storeChunk env l comments mx st = (st', Ret mx').
Proof.
  intros Hdisk. revert mx st. induction comments as [|c rest IH]; intros mx st; simpl.
  - eexists _, _. reflexivity.
  - unfold bind. destruct (storeComment_returns env l c st Hdisk) as [s1 ->]. apply IH.
Qed.

Lemma bodyPass_returns env fuel l mx st :
  body_progress env (l_newMaxId l) -> body_answered env -> disk_never_fails env ->
  in_int64 mx = true ->
  (Z.to_nat (l_newMaxId l - mx) < fuel)%nat ->
  exists mx', snd (bodyPass env fuel l mx st) = Ret mx'.
Proof.
  intros Hprog Hans Hdisk. revert mx st.
  induction fuel as [|fuel IH]; intros mx st Hin Hfuel; [lia|].
  rewrite bodyPass_S. unfold bind.
  destruct (fetchCommentData_body_spec env mx st) as (res & Hfetch & Hres).
  rewrite Hfetch.
  assert (Hok : exists chunk, res = Ret chunk).
  { revert Hfetch. unfold fetchCommentData_body. run.
    destruct (Hans (trace st ++ [EvExportComments "body" (wrap64 (mx + 1))
                                   (authas_of env (jcx st))])
                (wrap64 (mx + 1)) (authas_of env (jcx st))
                (in_int64_wrap64 _)) as (chunk & -> & ->).
    intros [= <-]. eauto. }
  destruct Hok as [chunk ->]. destruct Hres as [Horacle Hchunk].
  apply chunk_in_int64_ids in Hchunk.
  match goal with |- context [storeChunk env l ?cs mx ?s1] =>
    pose proof (storeChunk_spec env l cs mx s1) as [_ Hfr];
    destruct (storeChunk_returns env l cs mx s1 Hdisk) as (s2 & mx' & Hsc) end.
  rewrite Hsc in Hfr |- *. simpl in Hfr. specialize (Hfr mx' eq_refl).
  destruct (Z.geb_spec mx' (l_newMaxId l)) as [Hge|Hlt].
  - simpl. eauto.
  - assert (Hf : mx < l_newMaxId l).
    { pose proof (frontier_after_le mx (map c_Id (cc_Comments chunk))). lia. }
    pose proof (Hprog _ _ _ _ Hin Horacle Hf) as Hex.
    apply Exists_exists in Hex as (c & Hc & Hfc).
    pose proof (frontier_after_ge mx (map c_Id (cc_Comments chunk))) as Hall.
    rewrite Forall_forall in Hall. specialize (Hall (c_Id c)).
    rewrite <- Hfr in Hall.
    assert (Hcid : c_Id c <= mx').
    { apply Hall. apply list_elem_of_In, in_map, list_elem_of_In, Hc. }
    apply IH; [|lia]. rewrite Hfr. by apply frontier_after_in_int64.
Qed.

(** ** The pages of the two passes

    What the specification says of a pagination loop, written as a
    relation between the frontier and state before the loop and after it:
    each page is one request for the ids from just above the frontier,
    answered with a well-formed chunk that is then handled; the frontier
    moves to the highest id seen; the loop goes on while the frontier is
    below the target and ends with the first page that reaches it. *)

(** The state after the metadata request from the frontier of [l]. *)
Definition meta_requested (env : Env) (l : MetaLocals) (st : St) : St :=
  set_trace (fun t => t ++ [EvExportComments "meta" (wrap64 (l_newMaxId l + 1))
                              (authas_of env (jcx st))]) st.

(** The service answers that request with [chunk]. *)
Definition meta_page (env : Env) (l : MetaLocals) (st : St) (chunk : LJCommentMetaChunk)
  : Prop :=
  export_comments_meta env (trace (meta_requested env l st))
    (wrap64 (l_newMaxId l + 1)) (authas_of env (jcx st)) = ExportOk chunk
  /\ metaChunk_in_int64 chunk = true.

Inductive meta_pages (env : Env) : MetaLocals -> St -> MetaLocals -> St -> Prop :=
| meta_pages_last l st chunk :
    meta_page env l st chunk ->
    MaxId chunk <= frontier_after (l_newMaxId l) (map cm_Id (mc_Comments chunk)) ->
    meta_pages env l st (absorbMetaChunk chunk l) (meta_requested env l st)
| meta_pages_more l st chunk l' st' :
    meta_page env l st chunk ->
    frontier_after (l_newMaxId l) (map cm_Id (mc_Comments chunk)) < MaxId chunk ->
    meta_pages env (absorbMetaChunk chunk l) (meta_requested env l st) l' st' ->
    meta_pages env l st l' st'.

(** The state after the body request from the frontier [mx]. *)
Definition body_requested (env : Env) (mx : CommentId) (st : St) : St :=
  set_trace (fun t => t ++ [EvExportComments "body" (wrap64 (mx + 1))
                              (authas_of env (jcx st))]) st.

(** The service answers that request with [chunk], and every comment of
    the chunk is stored, in order, which leads to the state [st2]. *)
Definition body_page (env : Env) (l : MetaLocals) (mx : CommentId) (st : St)
    (chunk : LJCommentChunk) (st2 : St) : Prop :=
  export_comments_body env (trace (body_requested env mx st))
    (wrap64 (mx + 1)) (authas_of env (jcx st)) = ExportOk chunk
  /\ chunk_in_int64 chunk = true
  /\ forEach (cc_Comments chunk) (storeComment env l) (body_requested env mx st)
     = (st2, Ret tt).

Inductive body_pages (env : Env) (l : MetaLocals)
  : CommentId -> St -> CommentId -> St -> Prop :=
| body_pages_last mx st chunk st2 :
    body_page env l mx st chunk st2 ->
    l_newMaxId l <= frontier_after mx (map c_Id (cc_Comments chunk)) ->
    body_pages env l mx st (frontier_after mx (map c_Id (cc_Comments chunk))) st2
| body_pages_more mx st chunk st2 mx' st' :
    body_page env l mx st chunk st2 ->
    frontier_after mx (map c_Id (cc_Comments chunk)) < l_newMaxId l ->
    body_pages env l (frontier_after mx (map c_Id (cc_Comments chunk))) st2 mx' st' ->
    body_pages env l mx st mx' st'.

(** A loop that ran its pages sent at least one request. *)
Lemma meta_pages_requests env l st l' st' :
  meta_pages env l st l' st' ->
  exists evs,
    trace st' = trace st ++ EvExportComments "meta" (wrap64 (l_newMaxId l + 1))
                              (authas_of env (jcx st)) :: evs.
Proof.
  induction 1 as [l st chunk _ _|l st chunk l' st' _ _ _ [evs IH]].
  - by exists [].
  - rewrite IH. simpl. rewrite <- app_assoc. simpl. eauto.
Qed.

Lemma metaPass_pages env fuel : forall l st l' st',
  metaPass env fuel l st = (st', Ret l') -> meta_pages env l st l' st'.
Proof.
  induction fuel as [|fuel IH]; intros l st l' st' Hrun; [discriminate|].
  rewrite metaPass_S in Hrun. unfold bind in Hrun.
  destruct (fetchCommentData_meta_spec env (l_newMaxId l) st) as (res & Hfetch & Hres).
  rewrite Hfetch in Hrun.
  destruct res as [chunk|e| |]; try done.
  assert (Hpage : meta_page env l st chunk) by exact Hres.
  pose proof (absorbMetaChunk_frontier chunk l) as Hfr.
  destruct (Z.geb_spec (l_newMaxId (absorbMetaChunk chunk l)) (MaxId chunk)) as [Hge|Hlt].
  - injection Hrun as <- <-. apply meta_pages_last; [done|]. rewrite <- Hfr. lia.
  - apply (meta_pages_more env l st chunk); [done| |by apply IH]. rewrite <- Hfr. lia.
Qed.

(** The loop over a chunk stores each of its comments and moves the
    frontier to the highest id seen. *)
Lemma storeChunk_forEach env l comments : forall mx st,
  storeChunk env l comments mx st
  = (forEach comments (storeComment env l) ;;
     ret (frontier_after mx (map c_Id comments))) st.
Proof.
  induction comments as [|c rest IH]; intros mx st; simpl; [reflexivity|].
  unfold bind.
  destruct (storeComment env l c st) as [s1 [[]| | |]]; try reflexivity.
  rewrite IH. reflexivity.
Qed.

Lemma bodyPass_pages env l fuel : forall mx st mx' st',
  bodyPass env fuel l mx st = (st', Ret mx') -> body_pages env l mx st mx' st'.
Proof.
  induction fuel as [|fuel IH]; intros mx st mx' st' Hrun; [discriminate|].
  rewrite bodyPass_S in Hrun. unfold bind at 1 in Hrun.
  destruct (fetchCommentData_body_spec env mx st) as (res & Hfetch & Hres).
  rewrite Hfetch in Hrun.
  destruct res as [chunk|e| |]; try done.
  destruct Hres as [Horacle Hchunk].
  unfold bind at 1 in Hrun. rewrite storeChunk_forEach in Hrun. unfold bind at 1 in Hrun.
  fold (body_requested env mx st) in Hrun.
  destruct (forEach (cc_Comments chunk) (storeComment env l) (body_requested env mx st))
    as [s2 [[]| | |]] eqn:Hstore; try done.
  assert (Hpage : body_page env l mx st chunk s2) by done.
  simpl in Hrun.
  destruct (Z.geb_spec (frontier_after mx (map c_Id (cc_Comments chunk))) (l_newMaxId l))
    as [Hge|Hlt].
  - injection Hrun as <- <-. apply body_pages_last; [done|lia].
  - apply (body_pages_more env l mx st chunk s2); [done|lia|by apply IH].
Qed.

Lemma grows_storeComment env l c : grows (storeComment env l c).
Proof.
  unfold storeComment, readStoredComments, storeMerged.
  apply grows_bind; [apply grows_gets|intros j].
  apply grows_bind; [solve_grows|intros stored].
  destruct (mergeComment stored _) as [[stored' foundDup] shouldStore].
  solve_grows.
Qed.

Lemma body_pages_requests env l mx st mx' st' :
  body_pages env l mx st mx' st' ->
  exists evs,
    trace st' = trace st ++ EvExportComments "body" (wrap64 (mx + 1))
                              (authas_of env (jcx st)) :: evs.
Proof.
  assert (Hstore : forall comments s s',
             forEach comments (storeComment env l) s = (s', Ret tt) ->
             exists evs, trace s' = trace s ++ evs).
  { intros comments s s' H.
    pose proof (grows_forEach comments (storeComment env l)
                  (fun c => grows_storeComment env l c) s) as Hg.
    rewrite H in Hg. exact Hg. }
  induction 1 as [mx st chunk st2 (_ & _ & Hrun) _
                 |mx st chunk st2 mx' st' (_ & _ & Hrun) _ _ [evs IH]].
  - apply Hstore in Hrun as [evs ->]. simpl. rewrite <- app_assoc. simpl. eauto.
  - apply Hstore in Hrun as [evs1 Hevs]. rewrite IH, Hevs. simpl.
    rewrite <- !app_assoc. simpl. eauto.
Qed.

(** The export requests of a history, in order. *)
Definition export_requests (t : list Event) : list (string * Z) :=
  flat_map (fun ev => match ev with
                      | EvExportComments kind startid _ => [(kind, startid)]
                      | _ => []
                      end) t.

(** C4: both pagination loops of comment synchronisation.  Each request
    asks for the ids from the frontier's [int64] successor on, which is
    the frontier plus one whenever the frontier is below the largest
    [int64]; each chunk moves the frontier to the highest id seen, never
    back.  A pass that returns has run its pages and nothing else: page
    after page, one request from just above the frontier, the chunk the
    service answers with handled (its metadata absorbed; each of its
    comments stored), the frontier moved to the highest id seen, and the
    next page exactly when the frontier is still below the target.  If
    every chunk fetched while the frontier is below the target holds a
    comment above the frontier, then from some amount of fuel on each
    loop comes back (it returns or reports a failure, it does not run
    on), a loop that returns has its frontier at or above its target (the
    maximum declared by the last metadata chunk; the maximum the meta
    pass established), and it does return when no request and no file
    operation fails. *)
Theorem comment_pagination_reaches_target env :
  (forall f st, exists res,
      fetchCommentData_meta env f st =
      (set_trace (fun t => t ++ [EvExportComments "meta" (wrap64 (f + 1))
                                   (authas_of env (jcx st))]) st, res))
  /\ (forall f st, exists res,
        fetchCommentData_body env f st =
        (set_trace (fun t => t ++ [EvExportComments "body" (wrap64 (f + 1))
                                     (authas_of env (jcx st))]) st, res))
  /\ (forall f, in_int64 f = true -> f < int64_max -> wrap64 (f + 1) = f + 1)
  /\ (forall chunk l,
        l_newMaxId (absorbMetaChunk chunk l)
        = frontier_after (l_newMaxId l) (map cm_Id (mc_Comments chunk)))
  /\ (forall l comments mx st mx',
        snd (storeChunk env l comments mx st) = Ret mx' ->
        mx' = frontier_after mx (map c_Id comments))
  /\ (forall f ids,
        f <= frontier_after f ids
        /\ Forall (fun id => id <= frontier_after f ids) ids
        /\ (frontier_after f ids = f \/ In (frontier_after f ids) ids))
  /\ (forall fuel l st l' st',
        metaPass env fuel l st = (st', Ret l') ->
        meta_pages env l st l' st'
        /\ exists evs,
             trace st' = trace st ++ EvExportComments "meta" (wrap64 (l_newMaxId l + 1))
                                       (authas_of env (jcx st)) :: evs)
  /\ (forall fuel l mx st mx' st',
        bodyPass env fuel l mx st = (st', Ret mx') ->
        body_pages env l mx st mx' st'
        /\ exists evs,
             trace st' = trace st ++ EvExportComments "body" (wrap64 (mx + 1))
                                       (authas_of env (jcx st)) :: evs)
  /\ (forall l st,
        meta_progress env -> in_int64 (l_newMaxId l) = true ->
        exists fuel0, forall fuel, (fuel0 <= fuel)%nat ->
          came_back (snd (metaPass env fuel l st))
          /\ (forall l', snd (metaPass env fuel l st) = Ret l' ->
                l_newMaxId l <= l_newMaxId l'
                /\ exists f a chunk,
                     last (trace (fst (metaPass env fuel l st)))
                       = Some (EvExportComments "meta" (wrap64 (f + 1)) a)
                     /\ export_comments_meta env (trace (fst (metaPass env fuel l st)))
                          (wrap64 (f + 1)) a = ExportOk chunk
                     /\ MaxId chunk <= l_newMaxId l')
          /\ (meta_answered env -> exists l', snd (metaPass env fuel l st) = Ret l'))
  /\ (forall l mx st,
        body_progress env (l_newMaxId l) -> in_int64 mx = true ->
        exists fuel0, forall fuel, (fuel0 <= fuel)%nat ->
          came_back (snd (bodyPass env fuel l mx st))
          /\ (forall mx', snd (bodyPass env fuel l mx st) = Ret mx' ->
                l_newMaxId l <= mx' /\ mx <= mx')
          /\ (body_answered env -> disk_never_fails env ->
              exists mx', snd (bodyPass env fuel l mx st) = Ret mx')).
Proof.
  split; [|split; [|split; [|split; [|split; [|split; [|split; [|split; [|split]]]]]]]].
  - intros f st. destruct (fetchCommentData_meta_spec env f st) as (res & H & _). eauto.
  - intros f st. destruct (fetchCommentData_body_spec env f st) as (res & H & _). eauto.
  - apply wrap64_succ.
  - apply absorbMetaChunk_frontier.
  - intros l comments mx st mx'. apply storeChunk_spec.
  - intros f ids. split; [apply frontier_after_le|].
    split; [apply frontier_after_ge|apply frontier_after_in].
  - intros fuel l st l' st' Hrun. apply metaPass_pages in Hrun.
    split; [exact Hrun|]. by apply meta_pages_requests in Hrun.
  - intros fuel l mx st mx' st' Hrun. apply bodyPass_pages in Hrun.
    split; [exact Hrun|]. by apply body_pages_requests in Hrun.
  - intros l st Hprog Hin. exists (S (Z.to_nat (int64_max - l_newMaxId l))).
    intros fuel Hfuel.
    destruct (metaPass_comes_back env fuel l st Hprog Hin) as [Hcb Hret]; [lia|].
    split; [done|]. split; [done|].
    intros Hans. apply metaPass_returns; [done..|lia].
  - intros l mx st Hprog Hin. exists (S (Z.to_nat (l_newMaxId l - mx))).
    intros fuel Hfuel.
    destruct (bodyPass_comes_back env fuel l mx st Hprog Hin) as [Hcb Hret]; [lia|].
    split; [done|]. split; [done|].
    intros Hans Hdisk. apply bodyPass_returns; [done..|lia].
Qed.

Lemma paged_comments_progress : meta_progress Scenario.paged_comments.
Proof.
  intros t f a chunk Hin Horacle Hlt. simpl in Horacle.
  injection Horacle as <-. simpl in *.
  assert (Hf : f < int64_max) by (unfold int64_max; lia).
  rewrite (wrap64_succ f Hin Hf). constructor. simpl. lia.
Defined.

Lemma paged_comments_body_progress : body_progress Scenario.paged_comments 105.
Proof.
  intros t f a chunk Hin Horacle Hlt. simpl in Horacle.
  injection Horacle as <-. simpl in *.
  assert (Hf : f < int64_max) by (unfold int64_max; lia).
  rewrite (wrap64_succ f Hin Hf). constructor. simpl. lia.
Defined.

Lemma paged_comments_meta_answered : meta_answered Scenario.paged_comments.
Proof.
  intros t s a Hs. eexists. split; [reflexivity|].
  unfold metaChunk_in_int64, in_int64, int64_min, int64_max in *. simpl.
  apply andb_true_iff in Hs as [H1 H2]. apply Z.leb_le in H1, H2.
  rewrite !andb_true_r. apply andb_true_iff. split; apply Z.leb_le; lia.
Defined.

Lemma paged_comments_body_answered : body_answered Scenario.paged_comments.
Proof.
  intros t s a Hs. eexists. split; [reflexivity|].
  unfold chunk_in_int64, in_int64, int64_min, int64_max in *. simpl.
  apply andb_true_iff in Hs as [H1 H2]. apply Z.leb_le in H1, H2.
  rewrite !andb_true_r. apply andb_true_iff. split; apply Z.leb_le; lia.
Defined.

Lemma paged_comments_disk : disk_never_fails Scenario.paged_comments.
Proof. repeat split. intros data. by exists []. Defined.

(** The precondition allows a service that answers with an empty chunk
    once the frontier has reached the target. *)
Example empty_chunk_past_the_target :
  meta_progress Scenario.paged_comments_then_empty
  /\ body_progress Scenario.paged_comments_then_empty 105
  /\ export_comments_body Scenario.paged_comments_then_empty [] 106 ""
     = ExportOk {| cc_Comments := [] |}.
Proof.
  split; [|split; [|reflexivity]].
  - intros t f a chunk Hin Horacle Hlt. simpl in Horacle.
    injection Horacle as <-. simpl in *.
    assert (Hf : f < int64_max) by (unfold int64_max; lia).
    rewrite (wrap64_succ f Hin Hf).
    destruct (Z.leb_spec (f + 1) 105); [|lia]. constructor. simpl. lia.
  - intros t f a chunk Hin Horacle Hlt. simpl in Horacle.
    injection Horacle as <-. simpl in *.
    assert (Hf : f < int64_max) by (unfold int64_max; lia).
    rewrite (wrap64_succ f Hin Hf).
    destruct (Z.leb_spec (f + 1) 105); [|lia]. constructor. simpl. lia.
Qed.

(** The meta locals once the meta pass of the scenario has reached 105. *)
Definition metaLocals_105 : MetaLocals :=
  {| l_newComments := []; l_newCommentUsers := []; l_newMaxId := 105 |}.

Lemma comment_pagination_reaches_target_witness :
  let env := Scenario.paged_comments in
  let l := metaLocals0 Scenario.st_upto_80 in
  let st := comments_started Scenario.st_upto_80 in
  (exists fuel0, forall fuel, (fuel0 <= fuel)%nat ->
     came_back (snd (metaPass env fuel l st))
     /\ (forall l', snd (metaPass env fuel l st) = Ret l' ->
           l_newMaxId l <= l_newMaxId l'
           /\ exists f a chunk,
                last (trace (fst (metaPass env fuel l st)))
                  = Some (EvExportComments "meta" (wrap64 (f + 1)) a)
                /\ export_comments_meta env (trace (fst (metaPass env fuel l st)))
                     (wrap64 (f + 1)) a = ExportOk chunk
                /\ MaxId chunk <= l_newMaxId l')
     /\ exists l', snd (metaPass env fuel l st) = Ret l')
  /\ (exists fuel0, forall fuel, (fuel0 <= fuel)%nat ->
        came_back (snd (bodyPass env fuel metaLocals_105 80 st))
        /\ (forall mx', snd (bodyPass env fuel metaLocals_105 80 st) = Ret mx' ->
              105 <= mx' /\ 80 <= mx')
        /\ exists mx', snd (bodyPass env fuel metaLocals_105 80 st) = Ret mx')
  /\ match metaPass env 3 l st with
     | (st', Ret l') => meta_pages env l st l' st' /\ l_newMaxId l' = 105
     | _ => False
     end
  /\ match bodyPass env 3 metaLocals_105 80 st with
     | (st', Ret mx') => body_pages env metaLocals_105 80 st mx' st' /\ mx' = 105
     | _ => False
     end.
Proof.
  intros env l st.
  destruct (comment_pagination_reaches_target Scenario.paged_comments)
    as (_ & _ & _ & _ & _ & _ & Hmp & Hbp & Hmeta & Hbody).
  split; [|split; [|split]].
  - destruct (Hmeta l st paged_comments_progress eq_refl) as [fuel0 H].
    exists fuel0. intros fuel Hfuel. destruct (H fuel Hfuel) as (H1 & H2 & H3).
    split; [exact H1|]. split; [exact H2|]. exact (H3 paged_comments_meta_answered).
  - destruct (Hbody metaLocals_105 80 st paged_comments_body_progress eq_refl) as [fuel0 H].
    exists fuel0. intros fuel Hfuel. destruct (H fuel Hfuel) as (H1 & H2 & H3).
    split; [exact H1|]. split; [exact H2|].
    exact (H3 paged_comments_body_answered paged_comments_disk).
  - assert (Hret : exists l', snd (metaPass env 3 l st) = Ret l' /\ l_newMaxId l' = 105)
      by (vm_compute; eauto).
    destruct Hret as (l' & Hl' & Hmax).
    destruct (metaPass env 3 l st) as [st' r] eqn:Hrun. simpl in Hl'. subst r.
    split; [exact (proj1 (Hmp 3%nat l st l' st' Hrun))|exact Hmax].
  - assert (Hret : snd (bodyPass env 3 metaLocals_105 80 st) = Ret 105)
      by (vm_compute; reflexivity).
    destruct (bodyPass env 3 metaLocals_105 80 st) as [st' r] eqn:Hrun. simpl in Hret. subst r.
    split; [exact (proj1 (Hbp 3%nat metaLocals_105 80 st 105 st' Hrun))|reflexivity].
Defined.

(** The scenario of the specification: the stored comments reach number
    80 and the service declares 105.  Both passes ask from 81, 91 and 101,
    and end with the frontier at 105. *)
Example paged_comments_run :
  let out := dumpJournalComments Scenario.paged_comments 4 Scenario.st_upto_80 in
  snd out = Ret tt
  /\ export_requests (trace (fst out))
     = [("meta", 81); ("meta", 91); ("meta", 101); ("body", 81); ("body", 91); ("body", 101)]
  /\ maxStoredCommentId_of (commentMap (db (jcx (fst out)))) = 105.
Proof. vm_compute. repeat split. Qed.

(** ** Sorting is blind to the order of its input *)

Lemma string_leb_trans a b c :
  String.leb a b = true -> String.leb b c = true -> String.leb a c = true.
Proof.
  revert b c. induction a as [|x a IH]; intros [|y b] [|z c]; try done.
  unfold String.leb. simpl. unfold Ascii.compare.
  specialize (IH b c). unfold String.leb in IH.
  destruct (N.compare_spec (N_of_ascii x) (N_of_ascii y)) as [Hxy|Hxy|Hxy];
    destruct (N.compare_spec (N_of_ascii y) (N_of_ascii z)) as [Hyz|Hyz|Hyz];
    destruct (N.compare_spec (N_of_ascii x) (N_of_ascii z)) as [Hxz|Hxz|Hxz];
    try done; try lia; auto.
Qed.

#[global] Instance string_le_trans : Transitive string_le.
Proof.
  intros a b c Hab Hbc. unfold string_le in *.
  apply Is_true_true in Hab, Hbc. apply Is_true_true. by eapply string_leb_trans.
Qed.

#[global] Instance string_le_antisym : AntiSymm (=) string_le.
Proof.
  intros a b Hab Hba. unfold string_le in *.
  apply Is_true_true in Hab, Hba. by apply String.leb_antisym.
Qed.

#[global] Instance string_le_total : Total string_le.
Proof.
  intros a b. unfold string_le.
  destruct (String.leb_total a b) as [H|H]; [left|right]; by apply Is_true_true.
Qed.

Lemma sort_Strings_Permutation keys1 keys2 :
  keys1 ≡ₚ keys2 -> sort_Strings keys1 = sort_Strings keys2.
Proof.
  intros Hp. unfold sort_Strings.
  apply (Sorted_unique string_le); try apply Sorted_merge_sort; try apply _.
  by rewrite !merge_sort_Permutation.
Qed.

Lemma sort_sortIds_Permutation ids1 ids2 :
  ids1 ≡ₚ ids2 -> sort_sortIds ids1 = sort_sortIds ids2.
Proof.
  intros Hp. unfold sort_sortIds.
  apply (Sorted_unique Z.le); try apply Sorted_merge_sort; try apply _.
  by rewrite !merge_sort_Permutation.
Qed.

(** Two maps with the same entries, listed in any order, answer every
    lookup alike. *)
Lemma assoc_Permutation {K V} `{EqDecision K} (l1 l2 : list (K * V)) k :
  NoDup (map fst l1) -> l1 ≡ₚ l2 -> GoMap.assoc k l1 = GoMap.assoc k l2.
Proof.
  intros Hnd Hp. induction Hp as [|[k1 v1] l1 l2 Hp IH|[k1 v1] [k2 v2] l|l1 l2 l3 Hp1 IH1 Hp2 IH2].
  - done.
  - simpl. apply NoDup_cons in Hnd as [_ Hnd]. destruct (decide (k = k1)); [done|by apply IH].
  - simpl in *. apply NoDup_cons in Hnd as [Hnotin _].
    destruct (decide (k = k2)) as [Hk2|], (decide (k = k1)) as [Hk1|]; try done.
    exfalso. apply Hnotin. rewrite <- Hk2, Hk1. by left.
  - rewrite IH1 by done. apply IH2.
    assert (Hm : map fst l1 ≡ₚ map fst l2) by (by apply Permutation_map).
    by rewrite <- Hm.
Qed.

(** ** The state encoders do not see the order of a map *)

(** Two maps hold the same key/value pairs; the order in which a [range]
    loop would visit them may differ, and a nil map is an empty map. *)
Definition same_content {K V} (m1 m2 : GoMap.t K V) : Prop :=
  GoMap.range m1 ≡ₚ GoMap.range m2.

(** No key occurs twice, as in every Go map. *)
Definition unique_keys {K V} (m : GoMap.t K V) : Prop := NoDup (GoMap.keys m).

Lemma same_content_keys {K V} (m1 m2 : GoMap.t K V) :
  same_content m1 m2 -> GoMap.keys m1 ≡ₚ GoMap.keys m2.
Proof. unfold same_content, GoMap.keys. apply Permutation_map. Qed.

Lemma same_content_get {K V} `{EqDecision K} (m1 m2 : GoMap.t K V) k :
  unique_keys m1 -> same_content m1 m2 -> GoMap.get m1 k = GoMap.get m2 k.
Proof. unfold unique_keys, same_content, GoMap.get, GoMap.keys. apply assoc_Permutation. Qed.

Lemma addSortedMapKeyValue_same_content tableName m1 m2 :
  unique_keys m1 -> same_content m1 m2 ->
  addSortedMapKeyValue tableName m1 = addSortedMapKeyValue tableName m2.
Proof.
  intros Hu Hs. unfold addSortedMapKeyValue.
  rewrite (sort_Strings_Permutation _ _ (same_content_keys _ _ Hs)).
  f_equal. f_equal. apply flat_map_ext. intros key.
  by rewrite (same_content_get m1 m2 key Hu Hs).
Qed.

Lemma accountData_calls_same_content a1 a2 :
  fileCounter a1 = fileCounter a2 ->
  pictureDefaultUrl a1 = pictureDefaultUrl a2 ->
  unique_keys (pictureUrlFileMap a1) -> unique_keys (pictureKeywordUrlMap a1) ->
  same_content (pictureUrlFileMap a1) (pictureUrlFileMap a2) ->
  same_content (pictureKeywordUrlMap a1) (pictureKeywordUrlMap a2) ->
  accountData_calls a1 = accountData_calls a2.
Proof.
  intros Hc Hd Hu1 Hu2 Hs1 Hs2. unfold accountData_calls.
  rewrite Hc, Hd.
  rewrite (addSortedMapKeyValue_same_content _ _ _ Hu1 Hs1).
  by rewrite (addSortedMapKeyValue_same_content _ _ _ Hu2 Hs2).
Qed.

Lemma journalDB_calls_same_content d1 d2 :
  lastSync d1 = lastSync d2 ->
  unique_keys (userMap d1) -> unique_keys (commentMap d1) ->
  same_content (userMap d1) (userMap d2) ->
  same_content (commentMap d1) (commentMap d2) ->
  journalDB_calls d1 = journalDB_calls d2.
Proof.
  intros Hl Hu1 Hu2 Hs1 Hs2. unfold journalDB_calls.
  rewrite Hl.
  rewrite (sort_sortIds_Permutation _ _ (same_content_keys _ _ Hs1)).
  rewrite (sort_sortIds_Permutation _ _ (same_content_keys _ _ Hs2)).
  f_equal. f_equal; [|f_equal; f_equal].
  - apply flat_map_ext. intros userId.
    by rewrite (same_content_get (userMap d1) (userMap d2) userId Hu1 Hs1).
  - apply flat_map_ext. intros commentId.
    by rewrite (same_content_get (commentMap d1) (commentMap d2) commentId Hu2 Hs2).
Qed.

(** *** Event payloads *)

(** Two decoded values hold the same content: maps the same entries in
    any order, arrays the same elements in the same order. *)
Inductive same_value : LJValue -> LJValue -> Prop :=
| same_value_refl v : same_value v v
| same_value_map m1 m2 : same_entries m1 m2 -> same_value (VMap m1) (VMap m2)
| same_value_array a1 a2 : same_elements a1 a2 -> same_value (VArray a1) (VArray a2)
with same_entries : list (string * LJValue) -> list (string * LJValue) -> Prop :=
| same_entries_nil : same_entries [] []
| same_entries_skip k v1 v2 m1 m2 :
    same_value v1 v2 -> same_entries m1 m2 -> same_entries ((k, v1) :: m1) ((k, v2) :: m2)
| same_entries_swap kv1 kv2 m : same_entries (kv1 :: kv2 :: m) (kv2 :: kv1 :: m)
| same_entries_trans m1 m2 m3 :
    same_entries m1 m2 -> same_entries m2 m3 -> same_entries m1 m3
with same_elements : list LJValue -> list LJValue -> Prop :=
| same_elements_nil : same_elements [] []
| same_elements_cons v1 v2 a1 a2 :
    same_value v1 v2 -> same_elements a1 a2 -> same_elements (v1 :: a1) (v2 :: a2).

Scheme same_value_min := Minimality for same_value Sort Prop
  with same_entries_min := Minimality for same_entries Sort Prop
  with same_elements_min := Minimality for same_elements Sort Prop.
Combined Scheme same_value_mutind from same_value_min, same_entries_min, same_elements_min.

(** No map inside the value has a key twice. *)
Inductive unique_keys_value : LJValue -> Prop :=
| ukv_nil : unique_keys_value VNil
| ukv_int v : unique_keys_value (VInt v)
| ukv_int64 v : unique_keys_value (VInt64 v)
| ukv_string s : unique_keys_value (VString s)
| ukv_other ty : unique_keys_value (VOther ty)
| ukv_map m : NoDup (map fst m) -> unique_keys_entries m -> unique_keys_value (VMap m)
| ukv_array a : unique_keys_elements a -> unique_keys_value (VArray a)
with unique_keys_entries : list (string * LJValue) -> Prop :=
| uke_nil : unique_keys_entries []
| uke_cons k v m :
    unique_keys_value v -> unique_keys_entries m -> unique_keys_entries ((k, v) :: m)
with unique_keys_elements : list LJValue -> Prop :=
| ukl_nil : unique_keys_elements []
| ukl_cons v a :
    unique_keys_value v -> unique_keys_elements a -> unique_keys_elements (v :: a).

(** The text [serializeTagValue] appends. *)
Definition tagText (key : string) (v : LJValue) : string := fst (serializeTagValue key v).

(** What each key of a map contributes, as [serializeMap] computes it. *)
Definition appendedBy (m : list (string * LJValue)) : list (string * string) :=
  map (fun kv => (fst kv, serializeKey tagText (fst kv) (snd kv))) m.

Lemma find_None_iff {A} (f : A -> bool) l :
  List.find f l = None <-> forall x, In x l -> f x = false.
Proof.
  split; [apply find_none|].
  induction l as [|x l IH]; simpl; [done|]. intros H.
  rewrite (H x) by (by left). apply IH. intros y Hy. apply H. by right.
Qed.

Lemma find_None_Permutation {A} (f : A -> bool) l1 l2 :
  l1 ≡ₚ l2 -> List.find f l1 = None <-> List.find f l2 = None.
Proof.
  intros Hp. rewrite !find_None_iff. split; intros H x Hx; apply H.
  - eapply Permutation_in; [symmetry; exact Hp|exact Hx].
  - eapply Permutation_in; [exact Hp|exact Hx].
Qed.

Lemma serializeMap_same m1 m2 :
  map fst m1 ≡ₚ map fst m2 ->
  (forall key, GoMap.assoc key (appendedBy m1) = GoMap.assoc key (appendedBy m2)) ->
  fst (serializeMap m1) = fst (serializeMap m2)
  /\ (snd (serializeMap m1) = None <-> snd (serializeMap m2) = None).
Proof.
  intros Hkeys Hassoc. unfold serializeMap, serializeMap_with.
  pose proof (find_None_Permutation (fun key => negb (isValidXmlTagName key)) _ _ Hkeys) as Hfind.
  fold tagText. fold (appendedBy m1). fold (appendedBy m2).
  destruct (List.find _ (map fst m1)) as [bad1|] eqn:H1;
    destruct (List.find _ (map fst m2)) as [bad2|] eqn:H2; simpl.
  - split; [done|]. split; discriminate.
  - destruct Hfind as [_ Hfind]. by specialize (Hfind eq_refl).
  - destruct Hfind as [Hfind _]. by specialize (Hfind eq_refl).
  - split; [|done]. rewrite (sort_Strings_Permutation _ _ Hkeys).
    f_equal. apply map_ext. intros key. by rewrite Hassoc.
Qed.

Lemma tagText_map tag m1 m2 :
  fst (serializeMap m1) = fst (serializeMap m2) ->
  (snd (serializeMap m1) = None <-> snd (serializeMap m2) = None) ->
  serializeTagValue tag (VMap m1) = (tagText tag (VMap m1), snd (serializeTagValue tag (VMap m1)))
  /\ tagText tag (VMap m1) = tagText tag (VMap m2)
  /\ (snd (serializeTagValue tag (VMap m1)) = None <-> snd (serializeTagValue tag (VMap m2)) = None).
Proof.
  intros Hfst Hsnd. unfold tagText. simpl. fold (serializeMap m1). fold (serializeMap m2).
  destruct (serializeMap m1) as [out1 [r1|]], (serializeMap m2) as [out2 [r2|]];
    simpl in *; subst; try done.
  - destruct Hsnd as [_ Hsnd]. by specialize (Hsnd eq_refl).
  - destruct Hsnd as [Hsnd _]. by specialize (Hsnd eq_refl).
Qed.

Lemma same_value_serialize :
  (forall v1 v2, same_value v1 v2 ->
     unique_keys_value v1 ->
     unique_keys_value v2
     /\ forall tag,
          tagText tag v1 = tagText tag v2
          /\ (snd (serializeTagValue tag v1) = None <-> snd (serializeTagValue tag v2) = None)
          /\ serializeKey tagText tag v1 = serializeKey tagText tag v2)
  /\ (forall m1 m2, same_entries m1 m2 ->
     NoDup (map fst m1) -> unique_keys_entries m1 ->
     NoDup (map fst m2) /\ unique_keys_entries m2
     /\ map fst m1 ≡ₚ map fst m2
     /\ forall key, GoMap.assoc key (appendedBy m1) = GoMap.assoc key (appendedBy m2))
  /\ (forall a1 a2, same_elements a1 a2 ->
     unique_keys_elements a1 ->
     unique_keys_elements a2
     /\ forall key, map (tagText key) a1 = map (tagText key) a2).
Proof.
  apply same_value_mutind.
  - (* the same value *)
    intros v Hv. split; [done|]. by intros tag.
  - (* maps *)
    intros m1 m2 _ IH Hv. inversion Hv as [| | | | |m Hnd Hm|]; subst.
    destruct (IH Hnd Hm) as (Hnd2 & Hm2 & Hkeys & Hassoc).
    split; [by constructor|]. intros tag.
    destruct (serializeMap_same m1 m2 Hkeys Hassoc) as [Hfst Hsnd].
    destruct (tagText_map tag m1 m2 Hfst Hsnd) as (_ & Htext & Herr).
    split; [done|]. split; [done|]. exact Htext.
  - (* arrays *)
    intros a1 a2 _ IH Hv. inversion Hv as [| | | | | |a Ha]; subst.
    destruct (IH Ha) as [Ha2 Hmap].
    split; [by constructor|]. intros tag.
    split; [done|]. split; [done|]. simpl. by rewrite Hmap.
  - (* no entry *)
    intros Hnd Hm. by repeat split.
  - (* the same key first *)
    intros k v1 v2 m1 m2 _ IHv _ IHm Hnd Hm.
    apply NoDup_cons in Hnd as [Hk Hnd].
    inversion Hm as [|k' v' m' Hv1 Hm1]; subst.
    destruct (IHv Hv1) as [Hv2 Htag].
    destruct (IHm Hnd Hm1) as (Hnd2 & Hm2 & Hkeys & Hassoc).
    split; [|split; [|split]].
    + simpl. apply NoDup_cons. split; [|done]. by rewrite <- Hkeys.
    + by constructor.
    + simpl. by constructor.
    + intros key. simpl. destruct (Htag k) as (_ & _ & ->).
      destruct (decide (key = k)); [done|apply Hassoc].
  - (* two entries swapped *)
    intros [k1 v1] [k2 v2] m Hnd Hm.
    inversion Hm as [|? ? ? Hv1 Hm1]; subst.
    inversion Hm1 as [|? ? ? Hv2 Hm2]; subst.
    assert (k1 <> k2) as Hne.
    { apply NoDup_cons in Hnd as [Hk _]. simpl in Hk. intros ->. apply Hk. by left. }
    split; [|split; [|split]].
    + simpl in *. by rewrite (Permutation_swap k1 k2).
    + by repeat constructor.
    + simpl. apply Permutation_swap.
    + intros key. simpl.
      destruct (decide (key = k1)), (decide (key = k2)); try done. congruence.
  - (* one after the other *)
    intros m1 m2 m3 _ IH12 _ IH23 Hnd Hm.
    destruct (IH12 Hnd Hm) as (Hnd2 & Hm2 & Hkeys12 & Hassoc12).
    destruct (IH23 Hnd2 Hm2) as (Hnd3 & Hm3 & Hkeys23 & Hassoc23).
    split; [done|]. split; [done|]. split; [by etrans|].
    intros key. by rewrite Hassoc12.
  - (* no element *)
    intros Ha. split; [exact Ha|]. by intros key.
  - (* one more element *)
    intros v1 v2 a1 a2 _ IHv _ IHa Ha.
    inversion Ha as [|? ? Hv1 Ha1]; subst.
    destruct (IHv Hv1) as [Hv2 Htag]. destruct (IHa Ha1) as [Ha2 Hmap].
    split; [by constructor|]. intros key. simpl.
    destruct (Htag key) as (-> & _). by rewrite Hmap.
Qed.

Lemma same_entries_serialize e1 e2 :
  NoDup (map fst e1) -> unique_keys_entries e1 -> same_entries e1 e2 ->
  fst (serializeMap e1) = fst (serializeMap e2)
  /\ (snd (serializeMap e1) = None <-> snd (serializeMap e2) = None).
Proof.
  intros Hnd Hu Hs.
  destruct same_value_serialize as (_ & Hentries & _).
  destruct (Hentries e1 e2 Hs Hnd Hu) as (_ & _ & Hkeys & Hassoc).
  by apply serializeMap_same.
Qed.

(** The content of the two state records, without the order of their maps. *)
Definition same_accountData (a1 a2 : accountData) : Prop :=
  fileCounter a1 = fileCounter a2 /\ pictureDefaultUrl a1 = pictureDefaultUrl a2
  /\ same_content (pictureUrlFileMap a1) (pictureUrlFileMap a2)
  /\ same_content (pictureKeywordUrlMap a1) (pictureKeywordUrlMap a2).

Definition same_journalDB (d1 d2 : journalDB) : Prop :=
  lastSync d1 = lastSync d2
  /\ same_content (userMap d1) (userMap d2)
  /\ same_content (commentMap d1) (commentMap d2).

(** A Go map holds a key once. *)
Definition accountData_maps (a : accountData) : Prop :=
  unique_keys (pictureUrlFileMap a) /\ unique_keys (pictureKeywordUrlMap a).

Definition journalDB_maps (d : journalDB) : Prop :=
  unique_keys (userMap d) /\ unique_keys (commentMap d).

Definition LJEvent_maps (e : LJEvent) : Prop :=
  NoDup (map fst e) /\ unique_keys_entries e.

(** C5: the persisted state does not depend on the order in which the maps
    were filled.  For two account records, two journal states and two event
    payloads that hold the same key/value pairs (maps nested in an event
    included), in whatever order the maps range over them, the bytes of the
    account state file are the same, the bytes of the journal state file are
    the same, and the text of the entry file is the same, an invalid key
    being refused for both payloads or for neither. *)
Theorem persisted_bytes_ignore_map_order (env : Env)
    (a1 a2 : accountData) (d1 d2 : journalDB) (e1 e2 : LJEvent) :
  accountData_maps a1 -> same_accountData a1 a2 ->
  journalDB_maps d1 -> same_journalDB d1 d2 ->
  LJEvent_maps e1 -> same_entries e1 e2 ->
  linedb_GetBytes env (accountData_calls a1) = linedb_GetBytes env (accountData_calls a2)
  /\ linedb_GetBytes env (journalDB_calls d1) = linedb_GetBytes env (journalDB_calls d2)
  /\ fst (serializeMap e1) = fst (serializeMap e2)
  /\ (snd (serializeMap e1) = None <-> snd (serializeMap e2) = None).
Proof.
  intros [Hau1 Hau2] (Hfc & Hdef & Has1 & Has2) [Hdu1 Hdu2] (Hls & Hds1 & Hds2) [He1 He2] Hes.
  split; [|split].
  - f_equal. by apply accountData_calls_same_content.
  - f_equal. by apply journalDB_calls_same_content.
  - by apply same_entries_serialize.
Qed.

Lemma persisted_bytes_ignore_map_order_witness :
  let env := Scenario.quiet in
  linedb_GetBytes env (accountData_calls Scenario.acct_one_order)
  = linedb_GetBytes env (accountData_calls Scenario.acct_other_order)
  /\ linedb_GetBytes env (journalDB_calls Scenario.db_one_order)
     = linedb_GetBytes env (journalDB_calls Scenario.db_other_order)
  /\ fst (serializeMap Scenario.event_one_order) = fst (serializeMap Scenario.event_other_order)
  /\ (snd (serializeMap Scenario.event_one_order) = None
      <-> snd (serializeMap Scenario.event_other_order) = None).
Proof.
  apply (persisted_bytes_ignore_map_order Scenario.quiet
           Scenario.acct_one_order Scenario.acct_other_order
           Scenario.db_one_order Scenario.db_other_order
           Scenario.event_one_order Scenario.event_other_order).
  - split; unfold unique_keys; simpl; apply (bool_decide_unpack _); vm_compute; exact I.
  - repeat split; apply Permutation_swap.
  - split; unfold unique_keys; simpl; apply (bool_decide_unpack _); vm_compute; exact I.
  - repeat split; apply Permutation_swap.
  - split; [simpl; apply (bool_decide_unpack _); vm_compute; exact I|].
    apply uke_cons; [apply ukv_string|].
    apply uke_cons; [|apply uke_nil].
    apply ukv_map; [simpl; apply (bool_decide_unpack _); vm_compute; exact I|].
    apply uke_cons; [apply ukv_string|].
    apply uke_cons; [apply ukv_int|apply uke_nil].
  - eapply same_entries_trans; [apply same_entries_swap|].
    apply same_entries_skip; [|apply same_entries_skip; constructor].
    apply same_value_map. apply same_entries_swap.
Defined.

(** The text both orders give for the event. *)
Example event_text_in_both_orders :
  fst (serializeMap Scenario.event_one_order)
  = "<props>" +:+ nl +:+ "<opt_nocomments>1</opt_nocomments>" +:+ nl
    +:+ "<taglist>x</taglist>" +:+ nl +:+ "</props>" +:+ nl
    +:+ "<subject>a &lt;b&gt;</subject>" +:+ nl
  /\ fst (serializeMap Scenario.event_other_order) = fst (serializeMap Scenario.event_one_order).
Proof. split; vm_compute; reflexivity. Qed.

(** * Further properties of the code *)

(** ** Replacing a file: [writeFileTempRename] *)

Lemma string_app_cons (c : ascii) (a b : string) : String c a +:+ b = String c (a +:+ b).
Proof. reflexivity. Qed.

Lemma string_length_app (a b : string) :
  String.length (a +:+ b) = (String.length a + String.length b)%nat.
Proof. induction a as [|c a IH]; [done|]. rewrite string_app_cons. simpl. by rewrite IH. Qed.

Lemma tmp_path_differs (filePath : string) : filePath +:+ ".tmp" <> filePath.
Proof.
  intros H. apply (f_equal String.length) in H.
  rewrite string_length_app in H. simpl in H. lia.
Qed.

(** X1: when the write of the temporary file and the rename both go
    through, [writeFileTempRename] returns without error; the target then
    holds exactly the new data, the temporary file is gone, every other
    file is as before, and neither the journal context nor the account data
    changed. *)
Theorem writeFileTempRename_replaces_target env filePath data st :
  io_WriteFile env (trace st) (filePath +:+ ".tmp") data = None ->
  io_Rename env (trace st ++ [EvWriteFile (filePath +:+ ".tmp") data true])
            (filePath +:+ ".tmp") filePath = None ->
  let st' := fst (writeFileTempRename env filePath data st) in
  snd (writeFileTempRename env filePath data st) = Ret tt
  /\ fs st' !! filePath = Some data
  /\ fs st' !! (filePath +:+ ".tmp") = None
  /\ (forall p, p <> filePath -> p <> filePath +:+ ".tmp" -> fs st' !! p = fs st !! p)
  /\ jcx st' = jcx st /\ acct st' = acct st.
Proof.
  intros Hw Hr. unfold writeFileTempRename. run. rewrite Hw. simpl. rewrite Hr. simpl.
  split; [done|]. split; [by rewrite lookup_insert_eq|].
  split; [|split; [|done]].
  - rewrite lookup_insert_ne by (intros H; symmetry in H; by apply tmp_path_differs in H).
    by rewrite lookup_delete_eq.
  - intros p Hp Htmp.
    rewrite lookup_insert_ne by done. rewrite lookup_delete_ne by done.
    by rewrite lookup_insert_ne.
Qed.

Lemma writeFileTempRename_replaces_target_witness :
  let st' := fst (writeFileTempRename Scenario.quiet "alice/journal.linedb" "new" Scenario.st0) in
  snd (writeFileTempRename Scenario.quiet "alice/journal.linedb" "new" Scenario.st0) = Ret tt
  /\ fs st' !! "alice/journal.linedb" = Some "new"
  /\ fs st' !! ("alice/journal.linedb" +:+ ".tmp") = None
  /\ (forall p, p <> "alice/journal.linedb" -> p <> "alice/journal.linedb" +:+ ".tmp" ->
      fs st' !! p = fs Scenario.st0 !! p)
  /\ jcx st' = jcx Scenario.st0 /\ acct st' = acct Scenario.st0.
Proof.
  apply (writeFileTempRename_replaces_target
           Scenario.quiet "alice/journal.linedb" "new" Scenario.st0); reflexivity.
Defined.

(** X2: [writeFileTempRename] returns or fails with the error of the file
    system, nothing else; when it fails, the target and every file other
    than the temporary one are as they were (a failed rename leaves the
    temporary file behind, holding the new data). *)
Theorem writeFileTempRename_failure_keeps_target env filePath data st :
  let st' := fst (writeFileTempRename env filePath data st) in
  snd (writeFileTempRename env filePath data st) = Ret tt
  \/ exists e,
       snd (writeFileTempRename env filePath data st) = Failed e
       /\ fs st' !! filePath = fs st !! filePath
       /\ (forall p, p <> filePath +:+ ".tmp" -> fs st' !! p = fs st !! p)
       /\ (io_WriteFile env (trace st) (filePath +:+ ".tmp") data = Some e
           \/ fs st' !! (filePath +:+ ".tmp") = Some data).
Proof.
  unfold writeFileTempRename. run.
  destruct (io_WriteFile env (trace st) _ data) as [e|] eqn:Hw; simpl.
  - right. exists e. split; [done|].
    destruct (io_WriteFile_partial env (trace st) _ data) as [n|].
    + split; [apply lookup_insert_ne, tmp_path_differs|].
      split; [intros p Hp; by apply lookup_insert_ne|by left].
    + split; [done|]. split; [done|by left].
  - destruct (io_Rename env _ _ filePath) as [e|] eqn:Hr; simpl; [|by left].
    right. exists e.
    split; [done|]. split; [|split].
    + apply lookup_insert_ne. apply tmp_path_differs.
    + intros p Hp. by apply lookup_insert_ne.
    + right. by rewrite lookup_insert_eq.
Qed.

(** ** Reports: [CombineReports], [AsText] *)

(** What [main] prints for the outcome of [mainImpl]: nothing for nil. *)
Definition reportText (r : option Report) : string :=
  match r with
  | Some r => AsText r
  | None => ""
  end.

Lemma string_app_nil_r (s : string) : s +:+ "" = s.
Proof. induction s as [|c s IH]; [done|]. by rewrite string_app_cons, IH. Qed.

Lemma string_app_assoc (a b c : string) : (a +:+ b) +:+ c = a +:+ (b +:+ c).
Proof. induction a as [|x a IH]; [done|]. by rewrite !string_app_cons, IH. Qed.

(** X3: no report is lost by [CombineReports]: the combination is nil only
    when both reports are, and its text is the text of the first report
    followed by the text of the second, so that combining is associative
    in what is printed. *)
Theorem CombineReports_text (r1 r2 r3 : option Report) :
  (CombineReports r1 r2 = None <-> r1 = None /\ r2 = None)
  /\ reportText (CombineReports r1 r2) = reportText r1 +:+ reportText r2
  /\ reportText (CombineReports (CombineReports r1 r2) r3)
     = reportText (CombineReports r1 (CombineReports r2 r3)).
Proof.
  assert (Htext : forall a b, reportText (CombineReports a b) = reportText a +:+ reportText b).
  { intros [a|] [b|]; simpl; try done. by rewrite string_app_nil_r. }
  split; [|split].
  - destruct r1, r2; simpl; split; try done; intros [? ?]; done.
  - apply Htext.
  - by rewrite !Htext, string_app_assoc.
Qed.

(** ** Entry files: escaping *)

(** What [addEscapeXmlValue] writes for one byte. *)
Definition escapedByte (b : ascii) : string :=
  if Ascii.eqb b "<" then "&lt;"
  else if Ascii.eqb b ">" then "&gt;"
  else if Ascii.eqb b "&" then "&amp;"
  else String b EmptyString.

Lemma string_app_nil_l (s : string) : "" +:+ s = s.
Proof. reflexivity. Qed.

Lemma addEscapeXmlValue_cons b s :
  addEscapeXmlValue (String b s) = escapedByte b +:+ addEscapeXmlValue s.
Proof. reflexivity. Qed.

Lemma list_ascii_of_string_app (a b : string) :
  list_ascii_of_string (a +:+ b) = list_ascii_of_string a ++ list_ascii_of_string b.
Proof.
  induction a as [|c a IH]; [done|]. rewrite string_app_cons. simpl. by rewrite IH.
Qed.

Lemma escapedByte_no_markup b c :
  c ∈ list_ascii_of_string (escapedByte b) -> c <> "<"%char /\ c <> ">"%char.
Proof.
  unfold escapedByte.
  destruct (Ascii.eqb_spec b "<"); [|destruct (Ascii.eqb_spec b ">"); [|destruct (Ascii.eqb_spec b "&")]];
    simpl; rewrite ?elem_of_cons, elem_of_nil; intros H;
    repeat (destruct H as [->|H]; [split; congruence|]); done.
Qed.

(** X4: the text [addEscapeXmlValue] writes for a string value never holds
    an angle bracket, so a value cannot open or close a tag of the entry
    file. *)
Theorem addEscapeXmlValue_no_markup (s : string) (c : ascii) :
  c ∈ list_ascii_of_string (addEscapeXmlValue s) -> c <> "<"%char /\ c <> ">"%char.
Proof.
  induction s as [|b s IH]; [by intros ?%elem_of_nil|].
  rewrite addEscapeXmlValue_cons, list_ascii_of_string_app, elem_of_app.
  intros [H|H]; [by apply (escapedByte_no_markup b)|by apply IH].
Qed.

Lemma addEscapeXmlValue_no_markup_witness :
  addEscapeXmlValue "a<b" = "a&lt;b" /\ "&"%char <> "<"%char /\ "&"%char <> ">"%char.
Proof.
  split; [reflexivity|].
  apply (addEscapeXmlValue_no_markup "a<b" "&"%char).
  change (addEscapeXmlValue "a<b") with "a&lt;b". simpl.
  apply elem_of_cons. right. apply elem_of_cons. by left.
Defined.

(** The first byte of what is written for [b], and the rest. *)
Lemma escapedByte_shape b :
  (b = "<"%char /\ escapedByte b = "&lt;")
  \/ (b = ">"%char /\ escapedByte b = "&gt;")
  \/ (b = "&"%char /\ escapedByte b = "&amp;")
  \/ (b <> "&"%char /\ escapedByte b = String b EmptyString).
Proof.
  unfold escapedByte.
  destruct (Ascii.eqb_spec b "<"); [by left|].
  destruct (Ascii.eqb_spec b ">"); [by right; left|].
  destruct (Ascii.eqb_spec b "&"); [by right; right; left|].
  by right; right; right.
Qed.

(** X5: escaping loses nothing: two values with the same escaped text are
    the same value. *)
Theorem addEscapeXmlValue_inj (s1 s2 : string) :
  addEscapeXmlValue s1 = addEscapeXmlValue s2 -> s1 = s2.
Proof.
  revert s2. induction s1 as [|b1 s1 IH]; intros [|b2 s2].
  - done.
  - rewrite addEscapeXmlValue_cons. simpl.
    destruct (escapedByte_shape b2) as [[_ ->]|[[_ ->]|[[_ ->]|[_ ->]]]];
      rewrite !string_app_cons; discriminate.
  - rewrite addEscapeXmlValue_cons. simpl.
    destruct (escapedByte_shape b1) as [[_ ->]|[[_ ->]|[[_ ->]|[_ ->]]]];
      rewrite !string_app_cons; discriminate.
  - rewrite !addEscapeXmlValue_cons.
    destruct (escapedByte_shape b1) as [[-> ->]|[[-> ->]|[[-> ->]|[Hb1 ->]]]];
      destruct (escapedByte_shape b2) as [[-> ->]|[[-> ->]|[[-> ->]|[Hb2 ->]]]];
      rewrite !string_app_cons, !string_app_nil_l; intros H;
      try discriminate; try (injection H as H; f_equal; by apply IH);
      try (injection H as Hb H; congruence).
    injection H as -> H. f_equal. by apply IH.
Qed.

Lemma addEscapeXmlValue_inj_witness :
  addEscapeXmlValue "a<b & c" = "a&lt;b &amp; c" /\ "a<b & c" = "a<b & c".
Proof.
  split; [reflexivity|].
  apply (addEscapeXmlValue_inj "a<b & c" "a<b & c"). reflexivity.
Defined.

(** ** Entry files: what [writeLJEventDump] reports *)

Lemma serializeMap_checks_keys (m : list (string * LJValue)) :
  (Forall (fun key => isValidXmlTagName key = true) (map fst m)
   /\ snd (serializeMap m) = None)
  \/ (exists bad,
        bad ∈ map fst m /\ isValidXmlTagName bad = false
        /\ serializeMap m
           = ("", Some (ReportMsg ("cannot serialize map key '" +:+ bad +:+ "' as XML name")))).
Proof.
  unfold serializeMap, serializeMap_with.
  destruct (List.find _ (map fst m)) as [bad|] eqn:Hfind.
  - right. exists bad. apply find_some in Hfind as [Hin Hbad].
    split; [by apply list_elem_of_In|]. split; [|done].
    by destruct (isValidXmlTagName bad).
  - left. split; [|done]. apply Forall_forall. intros key Hkey.
    apply list_elem_of_In in Hkey.
    pose proof (find_none _ _ Hfind key Hkey) as H. simpl in H.
    by destruct (isValidXmlTagName key).
Qed.

(** X6: an event with a key at its top level that is not a valid tag name
    is refused before anything is done: [writeLJEventDump] fails, naming
    such a key, and the state (files and event history included) is as it
    was. *)
Theorem writeLJEventDump_invalid_key env eventType itemId event st key :
  key ∈ map fst event -> isValidXmlTagName key = false ->
  exists bad,
    bad ∈ map fst event /\ isValidXmlTagName bad = false
    /\ writeLJEventDump env eventType itemId event st
       = (st, Failed (ReportMsg ("cannot serialize map key '" +:+ bad +:+ "' as XML name"))).
Proof.
  intros Hkey Hbad.
  destruct (serializeMap_checks_keys event) as [[Hall _]|(bad & Hin & Hinvalid & Heq)].
  - rewrite Forall_forall in Hall. specialize (Hall key Hkey). congruence.
  - exists bad. split; [done|]. split; [done|].
    unfold writeLJEventDump. by rewrite Heq.
Qed.

Lemma writeLJEventDump_invalid_key_witness :
  exists bad,
    bad ∈ ["subject"; "no good"] /\ isValidXmlTagName bad = false
    /\ writeLJEventDump Scenario.quiet "L" 7
         [("subject", VString "s"); ("no good", VInt 1)] Scenario.st0
       = (Scenario.st0,
          Failed (ReportMsg ("cannot serialize map key '" +:+ bad +:+ "' as XML name"))).
Proof.
  apply (writeLJEventDump_invalid_key Scenario.quiet "L" 7
           [("subject", VString "s"); ("no good", VInt 1)] Scenario.st0 "no good").
  - simpl. apply elem_of_cons. right. apply elem_of_cons. by left.
  - reflexivity.
Defined.

(** X7: only the keys at the top level of an event are checked.  When they
    are all valid tag names, [writeLJEventDump] goes on to write the entry
    file whatever the values are: a value of an unsupported type, an array
    inside a nested map, or an invalid key of a nested map is not reported,
    and the only failure left is that of the file system. *)
Theorem writeLJEventDump_reports_top_level_only env eventType itemId event st :
  Forall (fun key => isValidXmlTagName key = true) (map fst event) ->
  writeLJEventDump env eventType itemId event st
  = wrap (fun e => WrapErr e "")
         (writeFileTempRename env
            (filepath_Join (dir (jcx st))
               (String eventType EmptyString +:+ "-" +:+ fmt_d itemId))
            (xml_Header +:+ "<event>" +:+ nl +:+ fst (serializeMap event)
             +:+ "</event>" +:+ nl)) st.
Proof.
  intros Hall.
  destruct (serializeMap_checks_keys event) as [[_ Hnone]|(bad & Hin & Hinvalid & _)].
  - unfold writeLJEventDump.
    destruct (serializeMap event) as [body r]. simpl in Hnone. subst r. reflexivity.
  - rewrite Forall_forall in Hall. specialize (Hall bad Hin). congruence.
Qed.

(** An event with a value of an unsupported type, an array and a nested
    map with an invalid key: the file is written, its elements cut short. *)
Lemma writeLJEventDump_reports_top_level_only_witness :
  let event := [("props", VMap [("no good", VInt 1)]);
                ("tags", VArray [VInt 1; VInt 2]);
                ("ratio", VOther "float64")] in
  fst (serializeMap event)
  = "<props>" +:+ nl +:+ "<ratio>" +:+ "<tags>1</tags>" +:+ nl +:+ "<tags>2</tags>" +:+ nl
  /\ writeLJEventDump Scenario.quiet "L" 7 event Scenario.st0
     = wrap (fun e => WrapErr e "")
         (writeFileTempRename Scenario.quiet
            (filepath_Join (dir (jcx Scenario.st0)) ("L" +:+ "-" +:+ fmt_d 7))
            (xml_Header +:+ "<event>" +:+ nl +:+ fst (serializeMap event)
             +:+ "</event>" +:+ nl)) Scenario.st0.
Proof.
  split; [vm_compute; reflexivity|].
  apply (writeLJEventDump_reports_top_level_only Scenario.quiet "L" 7
           [("props", VMap [("no good", VInt 1)]);
            ("tags", VArray [VInt 1; VInt 2]);
            ("ratio", VOther "float64")] Scenario.st0).
  repeat constructor.
Defined.

(** ** Arrays of the flat protocol: [getLJFlatArray] *)

Lemma getLJFlatArray_loop_returns arrayName m count : forall i a,
  getLJFlatArray_loop arrayName m i count = inr a <->
  length a = count
  /\ forall j, (j < count)%nat ->
       GoMap.assoc (arrayName +:+ "_" +:+ fmt_d (i + Z.of_nat j + 1)) m = a !! j.
Proof.
  induction count as [|count IH]; intros i a; simpl.
  - split.
    + intros [= <-]. split; [done|]. intros j Hj. lia.
    + intros [Hlen _]. by destruct a.
  - assert (Hshift : forall (v : string) (rest : list string),
              (forall j, (j < S count)%nat ->
                 GoMap.assoc (arrayName +:+ "_" +:+ fmt_d (i + Z.of_nat j + 1)) m
                 = (v :: rest) !! j) <->
              GoMap.assoc (arrayName +:+ "_" +:+ fmt_d (i + 1)) m = Some v
              /\ forall j, (j < count)%nat ->
                   GoMap.assoc (arrayName +:+ "_" +:+ fmt_d (i + 1 + Z.of_nat j + 1)) m
                   = rest !! j).
    { intros v rest. split.
      - intros Hall. split.
        + specialize (Hall O ltac:(lia)).
          by replace (i + Z.of_nat 0 + 1) with (i + 1) in Hall by lia.
        + intros j Hj. specialize (Hall (S j) ltac:(lia)).
          by replace (i + Z.of_nat (S j) + 1) with (i + 1 + Z.of_nat j + 1) in Hall by lia.
      - intros [Hhead Htail] [|j] Hj.
        + by replace (i + Z.of_nat 0 + 1) with (i + 1) by lia.
        + replace (i + Z.of_nat (S j) + 1) with (i + 1 + Z.of_nat j + 1) by lia.
          apply Htail. lia. }
    destruct (GoMap.assoc (arrayName +:+ "_" +:+ fmt_d (i + 1)) m) as [value|] eqn:Hkey.
    + destruct (getLJFlatArray_loop arrayName m (i + 1) count) as [r|rest] eqn:Hrest.
      * split; [discriminate|]. intros [Hlen Hall].
        destruct a as [|v a]; [discriminate|].
        apply Hshift in Hall as [_ Htail].
        assert (inl r = inr a :> Report + list string) as Habs; [|discriminate].
        rewrite <- Hrest. apply IH. split; [simpl in Hlen; lia|done].
      * pose proof (proj1 (IH (i + 1) rest) Hrest) as [Hlen Hall].
        split.
        -- intros [= <-]. split; [simpl; lia|]. by apply Hshift.
        -- intros [Hlen' Hall']. destruct a as [|v a]; [discriminate|].
           apply Hshift in Hall' as [Hhead Htail].
           assert (inr rest = inr a :> Report + list string) as [= ->].
           { rewrite <- Hrest. apply IH. split; [simpl in Hlen'; lia|done]. }
           congruence.
    + split; [discriminate|]. intros [Hlen Hall].
      destruct a as [|v a]; [discriminate|].
      apply Hshift in Hall as [Hhead _]. congruence.
Qed.

Lemma ParseInt_empty : ParseInt "" = None.
Proof. reflexivity. Qed.

(** X8: [getLJFlatArray] returns an array exactly when the response holds
    a count that parses as a non-negative integer, the run-time system
    allocates an array of that length, and there is a key
    [name_1] ... [name_count] for each element; the array then has [count]
    elements, the value of [name_i] at index [i-1].  It panics exactly
    when the count parses as a non-negative integer and the array cannot
    be allocated.  In every other case it returns a report. *)
Theorem getLJFlatArray_returns (env : Env) (arrayName : string)
    (m : list (string * string)) :
  (forall a,
     getLJFlatArray env arrayName m = Ret a <->
     exists count,
       ParseInt (default "" (GoMap.assoc (arrayName +:+ "_count") m)) = Some count
       /\ 0 <= count /\ runtime_makeslice env count = None
       /\ length a = Z.to_nat count
       /\ forall i, (i < length a)%nat ->
            GoMap.assoc (arrayName +:+ "_" +:+ fmt_d (Z.of_nat i + 1)) m = a !! i)
  /\ (forall msg,
       getLJFlatArray env arrayName m = Panic msg <->
       exists count,
         ParseInt (default "" (GoMap.assoc (arrayName +:+ "_count") m)) = Some count
         /\ 0 <= count /\ runtime_makeslice env count = Some msg).
Proof.
  unfold getLJFlatArray.
  destruct (decide (default "" (GoMap.assoc (arrayName +:+ "_count") m) = "")) as [Hempty|_].
  { rewrite Hempty, ParseInt_empty.
    split; intros ?; (split; [discriminate|]); by intros (count & ? & _). }
  destruct (ParseInt _) as [count|]; cycle 1.
  { split; intros ?; (split; [discriminate|]); by intros (count & ? & _). }
  destruct (Z.ltb_spec count 0) as [Hneg|Hpos].
  { split; intros ?; (split; [discriminate|]); intros (count' & [= <-] & ? & _); lia. }
  destruct (runtime_makeslice env count) as [msg0|] eqn:Hmake.
  - split.
    + intros a. split; [discriminate|]. intros (count' & [= <-] & _ & ? & _). congruence.
    + intros msg. split.
      * intros [= <-]. by exists count.
      * intros (count' & [= <-] & _ & ?). congruence.
  - split.
    + intros a.
      destruct (getLJFlatArray_loop arrayName m 0 (Z.to_nat count)) as [r|a'] eqn:Hloop.
      * split; [discriminate|]. intros (count' & [= <-] & _ & _ & Hlen & Hall).
        assert (inl r = inr a :> Report + list string) as Habs; [|discriminate].
        rewrite <- Hloop. apply getLJFlatArray_loop_returns. split; [done|].
        intros j Hj. rewrite <- Hall by lia. do 3 f_equal.
      * apply getLJFlatArray_loop_returns in Hloop as [Hlen Hall]. split.
        -- intros [= <-]. exists count. repeat (split; [done|]).
           intros i Hi. rewrite <- Hall by lia. do 3 f_equal.
        -- intros (count' & [= <-] & _ & _ & Hlen' & Hall').
           assert (inr a' = inr a :> Report + list string) as [= ->]; [|done].
           rewrite <- (proj2 (getLJFlatArray_loop_returns arrayName m (Z.to_nat count) 0 a'))
             by (split; [done|exact Hall]).
           apply getLJFlatArray_loop_returns. split; [done|].
           intros j Hj. rewrite <- Hall' by lia. do 3 f_equal.
    + intros msg. split.
      * destruct (getLJFlatArray_loop arrayName m 0 (Z.to_nat count)); discriminate.
      * intros (count' & [= <-] & _ & ?). congruence.
Qed.

Example getLJFlatArray_two_keywords :
  getLJFlatArray Scenario.quiet "pickw"
    [("pickw_2", "dog"); ("pickw_count", "2"); ("pickw_1", "cat")]
  = Ret ["cat"; "dog"]
  /\ getLJFlatArray Scenario.quiet "pickw" [("pickw_count", "0"); ("pickw_1", "cat")] = Ret []
  /\ getLJFlatArray Scenario.quiet "pickw" [("pickw_count", "2"); ("pickw_1", "cat")]
     = Failed (ReportMsg "no pickw_2 key in LJ flat response")
  /\ getLJFlatArray Scenario.quiet "pickw" [("pickw_1", "cat")]
     = Failed (ReportMsg "no pickw_count key in LJ flat response")
  /\ getLJFlatArray Scenario.quiet "pickw" [("pickw_count", "9223372036854775807")]
     = Panic "runtime error: makeslice: len out of range".
Proof. repeat split; vm_compute; reflexivity. Qed.

(** ** Reading the state files: [readAccountData], [readJournalDB] *)

(** A map that was made, and holds each key once. *)
Definition made {K V} (m : GoMap.t K V) : Prop :=
  GoMap.is_nil m = false /\ unique_keys m.

Lemma made_make {K V} : made (@GoMap.make K V).
Proof. split; [done|]. apply NoDup_nil_2. Qed.

Lemma made_update {K V} `{EqDecision K} (k : K) (v : V) (m : GoMap.t K V) :
  made m -> made (option_map (GoMap.update k v) m).
Proof.
  destruct m as [l|]; intros [Hnil Hu]; [|done].
  split; [done|]. by apply NoDup_keys_update.
Qed.

Lemma fold_left_keeps {A B} (P : A -> Prop) (f : A -> B -> A) (l : list B) (a : A) :
  (forall a b, P a -> P (f a b)) -> P a -> P (fold_left f l a).
Proof. intros Hf. revert a. induction l as [|b l IH]; intros a Ha; simpl; auto. Qed.

Definition accountData_made (a : accountData) : Prop :=
  made (pictureUrlFileMap a) /\ made (pictureKeywordUrlMap a).

Definition journalDB_made (d : journalDB) : Prop :=
  made (userMap d) /\ made (commentMap d).

Lemma accountData_item_made a it : accountData_made a -> accountData_made (accountData_item a it).
Proof.
  destruct it as [nm v|nm rows]; simpl.
  - repeat case_decide; done.
  - apply fold_left_keeps. clear a. intros a row [H1 H2].
    destruct (field_GetString row) as [k row1]. destruct (field_GetString row1) as [v row2].
    repeat case_decide; try done; split; simpl; try done; by apply made_update.
Qed.

Lemma journalDB_item_made d it : journalDB_made d -> journalDB_made (journalDB_item d it).
Proof.
  destruct it as [nm v|nm rows]; simpl.
  - case_decide; done.
  - apply fold_left_keeps. clear d. intros d row [H1 H2].
    repeat case_decide.
    + destruct (field_GetInt64 row) as [uid row1]. destruct (field_GetString row1) as [user row2].
      split; simpl; [by apply made_update|done].
    + destruct (field_GetInt64 row) as [cid row1]. destruct (field_GetInt64 row1) as [pid row2].
      destruct (field_GetString row2) as [st row3].
      split; simpl; [done|by apply made_update].
    + done.
Qed.

(** X9: whenever [readAccountData] returns without error, both maps of the
    account data are made (an entry can be assigned) and hold each key
    once, whatever the state file contains; when the file does not exist
    the account data is the empty one, with counter 0.  Nothing is written
    and the journal context is not touched. *)
Theorem readAccountData_makes_maps env cfg st :
  snd (readAccountData env cfg st) = Ret tt ->
  let st' := fst (readAccountData env cfg st) in
  accountData_made (acct st')
  /\ (fs st !! filepath_Join (accountDataDir cfg) accountDataDBFileName = None ->
      acct st' = empty_accountData)
  /\ fs st' = fs st /\ jcx st' = jcx st.
Proof.
  unfold readAccountData, ReadFile. run.
  destruct (io_ReadFile_fault env _ _); simpl; [discriminate|].
  destruct (fs st !! _) as [data|]; simpl.
  - destruct (linedb_Decode env data) as [items derr]. run.
    destruct derr; simpl; [discriminate|]. intros _.
    split; [|done].
    apply fold_left_keeps; [apply accountData_item_made|].
    split; apply made_make.
  - intros _. split; [split; apply made_make|done].
Qed.

Lemma readAccountData_makes_maps_witness :
  let st' := fst (readAccountData Scenario.quiet Scenario.cfg Scenario.st_account_file) in
  accountData_made (acct st')
  /\ (fs Scenario.st_account_file
        !! filepath_Join (accountDataDir Scenario.cfg) accountDataDBFileName = None ->
      acct st' = empty_accountData)
  /\ fs st' = fs Scenario.st_account_file /\ jcx st' = jcx Scenario.st_account_file.
Proof.
  apply (readAccountData_makes_maps Scenario.quiet Scenario.cfg Scenario.st_account_file).
  reflexivity.
Defined.

(** X10: [readAccountData] fails exactly when the file cannot be read for a
    reason other than its absence, or when the decoder reports an error,
    and then with that error; it never panics. *)
Theorem readAccountData_failure env cfg st :
  let dbpath := filepath_Join (accountDataDir cfg) accountDataDBFileName in
  let fault := io_ReadFile_fault env (trace st ++ [EvReadFile dbpath]) dbpath in
  match snd (readAccountData env cfg st) with
  | Ret _ =>
      fault = None
      /\ forall data, fs st !! dbpath = Some data -> snd (linedb_Decode env data) = None
  | Failed r =>
      (exists e, fault = Some e /\ r = WrapErr e "")
      \/ (exists data e,
            fault = None /\ fs st !! dbpath = Some data
            /\ snd (linedb_Decode env data) = Some e
            /\ r = WrapErr e ("error while parsing account data file " +:+ dbpath
                              +:+ " as linedb"))
  | Panic _ | OutOfFuel => False
  end.
Proof.
  unfold readAccountData, ReadFile. run.
  destruct (io_ReadFile_fault env _ _) as [e|]; simpl; [left; by exists e|].
  destruct (fs st !! _) as [data|]; simpl.
  - destruct (linedb_Decode env data) as [items derr] eqn:Hdec. run.
    destruct derr as [e|]; simpl.
    + right. exists data, e. by rewrite Hdec.
    + split; [done|]. intros ? [= <-]. by rewrite Hdec.
  - split; [done|]. discriminate.
Qed.

(** X11: a journal state file that exists and is not empty is read without
    any check of the decoder's outcome: [readJournalDB] returns without
    error even when the decoder reports one, keeping what was decoded
    before it.  Both maps of the journal state are then made and hold each
    key once, the original cursor is the decoded one, and nothing is
    logged or written: the read is the only event. *)
Theorem readJournalDB_current_format env st data :
  let dbpath := filepath_Join (dir (jcx st)) journalDBFileName in
  io_ReadFile_fault env (trace st ++ [EvReadFile dbpath]) dbpath = None ->
  fs st !! dbpath = Some data -> data <> "" ->
  let st' := fst (readJournalDB env st) in
  snd (readJournalDB env st) = Ret tt
  /\ journalDB_made (db (jcx st'))
  /\ db (jcx st')
     = fold_left journalDB_item (fst (linedb_Decode env data))
         (set_commentMap GoMap.make (set_userMap GoMap.make (db (jcx st))))
  /\ origDbLastSync (jcx st') = lastSync (db (jcx st'))
  /\ fs st' = fs st /\ acct st' = acct st
  /\ trace st' = trace st ++ [EvReadFile dbpath].
Proof.
  intros dbpath Hfault Hfile Hdata.
  unfold readJournalDB, ReadFile. run. fold dbpath. rewrite Hfault. simpl. rewrite Hfile. simpl.
  destruct data as [|c data]; [done|]. simpl.
  split; [done|]. split; [|done].
  apply fold_left_keeps; [apply journalDB_item_made|].
  split; apply made_make.
Qed.

Lemma readJournalDB_current_format_witness :
  let st' := fst (readJournalDB Scenario.truncated_state_file Scenario.st_current_db) in
  snd (readJournalDB Scenario.truncated_state_file Scenario.st_current_db) = Ret tt
  /\ journalDB_made (db (jcx st'))
  /\ db (jcx st')
     = fold_left journalDB_item
         (fst (linedb_Decode Scenario.truncated_state_file "lastSync ..."))
         (set_commentMap GoMap.make (set_userMap GoMap.make (db (jcx Scenario.st_current_db))))
  /\ origDbLastSync (jcx st') = lastSync (db (jcx st'))
  /\ fs st' = fs Scenario.st_current_db /\ acct st' = acct Scenario.st_current_db
  /\ trace st' = trace Scenario.st_current_db ++ [EvReadFile "alice/journal.linedb"].
Proof.
  apply (readJournalDB_current_format Scenario.truncated_state_file Scenario.st_current_db
           "lastSync ..."); [reflexivity|reflexivity|discriminate].
Defined.

(** The same file read as account state makes [readAccountData] fail. *)
Example truncated_state_file_outcomes :
  snd (readAccountData Scenario.truncated_state_file Scenario.cfg Scenario.st_account_file)
  = Failed (WrapErr "unexpected end of input"
              "error while parsing account data file account.data/account.linedb as linedb")
  /\ db (jcx (fst (readJournalDB Scenario.truncated_state_file Scenario.st_current_db)))
     = {| lastSync := "2016-01-02 03:04:05"; userMap := Some [(3, "robert")];
          commentMap := Some [(12, mkCommentMeta 3 "A")] |}.
Proof. split; vm_compute; reflexivity. Qed.

(** ** Pictures: a download that succeeds *)

(** The name of the file a downloaded picture is stored in. *)
Definition pictureFile_of (env : Env) (a : accountData) (keyword contentType : string)
  : string :=
  "user-picture-" +:+ fmt_d (wrap64 (fileCounter a + 1))
  +:+ (if bool_decide (keyword = "") then "" else "-")
  +:+ (if bool_decide (keyword = "") then "" else convertPictureKeywordToFilename env keyword)
  +:+ pictureExtension env contentType.

(** The closure once the picture is downloaded: the counter moves, the
    file is written, and only then are the maps updated. *)
Lemma fetch_downloaded env cfg keywords keywordIndex url updated st keyword contentType data :
  url_unknown (acct st) url = true ->
  keyword_selected keywords keywordIndex keyword ->
  http_Get env (trace st ++ [EvLog (fetching_line keyword url); EvHttpGet url]) url
  = GetOk contentType (inr data) None ->
  let file := pictureFile_of env (acct st) keyword contentType in
  fetchAnsStorePictureUrl env cfg keywords keywordIndex url updated st
  = (wrap (fun e => WrapErr e "")
          (writeFileTempRename env (filepath_Join (accountDataDir cfg) file) data) ;;
     assign_acct pictureUrlFileMap set_pictureUrlFileMap url file ;;
     (if bool_decide (keyword = "")
      then modify (set_acct (set_pictureDefaultUrl url))
      else assign_acct pictureKeywordUrlMap set_pictureKeywordUrlMap keyword url) ;;
     ret true)
      (set_acct (set_fileCounter (wrap64 (fileCounter (acct st) + 1)))
         (set_trace (fun t => t ++ [EvLog (fetching_line keyword url); EvHttpGet url]) st)).
Proof.
  intros Hu Hk Hget file. unfold fetchAnsStorePictureUrl.
  unfold bind at 1. unfold gets at 1.
  rewrite (url_unknown_guard _ _ Hu).
  destruct (keyword_selected_eval _ _ _ Hk) as [-> ->].
  assert (Hline : (if bool_decide (keyword = "")
                   then @log Report ("Fetching new default user picture " +:+ url)
                   else log ("Fetching new '" +:+ keyword +:+ "' user picture " +:+ url))
                  = log (fetching_line keyword url)).
  { unfold fetching_line. by destruct (bool_decide (keyword = "")). }
  rewrite Hline.
  unfold bind at 1. unfold log at 1, emit at 1, modify at 1.
  unfold bind at 1. unfold emit at 1, modify at 1.
  unfold bind at 1. unfold gets at 1.
  cbn [trace fs jcx acct set_trace]. rewrite <- app_assoc. cbn [app].
  rewrite Hget.
  unfold bind at 1. unfold modify at 1.
  unfold bind at 1. unfold gets at 1.
  unfold file, pictureFile_of, set_acct, set_trace.
  cbn [trace fs jcx acct set_fileCounter fileCounter]. rewrite <- app_assoc. reflexivity.
Qed.

Lemma writeFileTempRename_ok env filePath data st :
  io_WriteFile env (trace st) (filePath +:+ ".tmp") data = None ->
  io_Rename env (trace st ++ [EvWriteFile (filePath +:+ ".tmp") data true])
            (filePath +:+ ".tmp") filePath = None ->
  writeFileTempRename env filePath data st
  = ({| trace := trace st ++ [EvWriteFile (filePath +:+ ".tmp") data true;
                              EvRename (filePath +:+ ".tmp") filePath true];
        fs := <[filePath := data]> (delete (filePath +:+ ".tmp")
                                      (<[filePath +:+ ".tmp" := data]> (fs st)));
        jcx := jcx st; acct := acct st |}, Ret tt).
Proof.
  intros Hw Hr. unfold writeFileTempRename. run. rewrite Hw. simpl. rewrite Hr. simpl.
  unfold set_fs, set_trace. simpl. by rewrite <- app_assoc.
Qed.

(** The write of the temporary file fails, or the rename that follows it. *)
Definition store_fails (env : Env) (t : list Event) (filePath data : string) (e : error)
  : Prop :=
  io_WriteFile env t (filePath +:+ ".tmp") data = Some e
  \/ (io_WriteFile env t (filePath +:+ ".tmp") data = None
      /\ io_Rename env (t ++ [EvWriteFile (filePath +:+ ".tmp") data true])
                   (filePath +:+ ".tmp") filePath = Some e).

Lemma writeFileTempRename_fails env filePath data st e :
  store_fails env (trace st) filePath data e ->
  exists s,
    writeFileTempRename env filePath data st = (s, Failed e)
    /\ jcx s = jcx st /\ acct s = acct st
    /\ fs s !! filePath = fs st !! filePath
    /\ (forall p, p <> filePath +:+ ".tmp" -> fs s !! p = fs st !! p).
Proof.
  intros [Hw|[Hw Hr]]; unfold writeFileTempRename; run; rewrite Hw; simpl.
  - eexists. split; [reflexivity|]. simpl.
    destruct (io_WriteFile_partial env (trace st) _ data) as [n|].
    + repeat (split; [done|]).
      split; [apply lookup_insert_ne, tmp_path_differs|].
      intros p Hp. by apply lookup_insert_ne.
    + done.
  - rewrite Hr. simpl. eexists. split; [reflexivity|]. simpl.
    repeat (split; [done|]).
    split; [apply lookup_insert_ne, tmp_path_differs|].
    intros p Hp. by apply lookup_insert_ne.
Qed.

(** X12: a picture that is downloaded is stored before it is recorded.
    For a URL that passes the guard, with its keyword, when the download
    and the write of the file succeed and the maps of the account data are
    made: the closure returns [true]; the file holds the downloaded bytes
    under the name built from the incremented counter, the keyword and the
    extension; the URL map sends the URL to that name and is otherwise
    unchanged; the URL becomes the default one (no keyword) or the
    keyword's one; the journal context is untouched. *)
Theorem fetchAnsStorePictureUrl_stores_picture
    env cfg keywords keywordIndex url updated st keyword contentType data urlMap kwMap :
  url_unknown (acct st) url = true ->
  keyword_selected keywords keywordIndex keyword ->
  pictureUrlFileMap (acct st) = Some urlMap ->
  pictureKeywordUrlMap (acct st) = Some kwMap ->
  let t1 := trace st ++ [EvLog (fetching_line keyword url); EvHttpGet url] in
  let file := pictureFile_of env (acct st) keyword contentType in
  let path := filepath_Join (accountDataDir cfg) file in
  http_Get env t1 url = GetOk contentType (inr data) None ->
  io_WriteFile env t1 (path +:+ ".tmp") data = None ->
  io_Rename env (t1 ++ [EvWriteFile (path +:+ ".tmp") data true]) (path +:+ ".tmp") path = None ->
  let st' := fst (fetchAnsStorePictureUrl env cfg keywords keywordIndex url updated st) in
  snd (fetchAnsStorePictureUrl env cfg keywords keywordIndex url updated st) = Ret true
  /\ fs st' !! path = Some data
  /\ fileCounter (acct st') = wrap64 (fileCounter (acct st) + 1)
  /\ GoMap.get (pictureUrlFileMap (acct st')) url = Some file
  /\ (forall u, u <> url ->
        GoMap.get (pictureUrlFileMap (acct st')) u = GoMap.get (pictureUrlFileMap (acct st)) u)
  /\ (if bool_decide (keyword = "")
      then pictureDefaultUrl (acct st') = url
           /\ pictureKeywordUrlMap (acct st') = pictureKeywordUrlMap (acct st)
      else pictureDefaultUrl (acct st') = pictureDefaultUrl (acct st)
           /\ GoMap.get (pictureKeywordUrlMap (acct st')) keyword = Some url
           /\ forall k, k <> keyword ->
                GoMap.get (pictureKeywordUrlMap (acct st')) k
                = GoMap.get (pictureKeywordUrlMap (acct st)) k)
  /\ jcx st' = jcx st.
Proof.
  intros Hu Hk Hum Hkm t1 file path Hget Hw Hr.
  destruct (fetchAnsStorePictureUrl env cfg keywords keywordIndex url updated st)
    as [s res] eqn:Hrun.
  rewrite (fetch_downloaded env cfg keywords keywordIndex url updated st keyword
             contentType data Hu Hk Hget) in Hrun.
  fold file in Hrun. fold path in Hrun.
  unfold bind at 1 in Hrun. unfold wrap in Hrun.
  rewrite writeFileTempRename_ok in Hrun by (simpl; done).
  unfold assign_acct in Hrun. revert Hrun. run. rewrite Hum. simpl.
  destruct (bool_decide (keyword = "")) eqn:Hkw; simpl.
  - intros [= <- <-]. simpl. rewrite lookup_insert_eq. unfold GoMap.get. simpl.
    rewrite assoc_update_eq.
    repeat split; try done. intros u Hne. by apply assoc_update_ne.
  - rewrite Hkm. simpl. intros [= <- <-]. simpl.
    rewrite lookup_insert_eq. unfold GoMap.get. simpl.
    rewrite !assoc_update_eq.
    repeat split; try done; intros u Hne; by apply assoc_update_ne.
Qed.

Lemma fetchAnsStorePictureUrl_stores_picture_witness :
  let env := Scenario.downloads_ok in
  let st := Scenario.st0 in
  let st' := fst (fetchAnsStorePictureUrl env Scenario.cfg ["cat"] 0 "http://pics/2" false st) in
  snd (fetchAnsStorePictureUrl env Scenario.cfg ["cat"] 0 "http://pics/2" false st) = Ret true
  /\ fs st' !! "account.data/user-picture-1-cat.png" = Some "PNG"
  /\ fileCounter (acct st') = 1
  /\ GoMap.get (pictureUrlFileMap (acct st')) "http://pics/2" = Some "user-picture-1-cat.png"
  /\ GoMap.get (pictureKeywordUrlMap (acct st')) "cat" = Some "http://pics/2".
Proof.
  destruct (fetchAnsStorePictureUrl_stores_picture Scenario.downloads_ok Scenario.cfg ["cat"] 0
              "http://pics/2" false Scenario.st0 "cat" "image/png" "PNG" [] [])
    as (Hres & Hfile & Hcounter & Hurl & _ & Hkw & _);
    try reflexivity.
  - right. split; [lia|]. split; [reflexivity|discriminate].
  - simpl in Hkw. destruct Hkw as (_ & Hkw & _). repeat split; assumption.
Defined.

(** X13: when the downloaded picture cannot be stored, because the write
    of its temporary file or the rename onto its name fails, the closure
    fails with the error of the file system after it has already moved the
    file counter; the URL is not recorded, so neither map nor the default
    URL changes.  The picture's file is not in place: what its name held
    before, it still holds, and so does every file other than its
    temporary file, which the failed step may leave behind. *)
Theorem fetchAnsStorePictureUrl_store_failure
    env cfg keywords keywordIndex url updated st keyword contentType data e :
  url_unknown (acct st) url = true ->
  keyword_selected keywords keywordIndex keyword ->
  let t1 := trace st ++ [EvLog (fetching_line keyword url); EvHttpGet url] in
  let path := filepath_Join (accountDataDir cfg)
                (pictureFile_of env (acct st) keyword contentType) in
  http_Get env t1 url = GetOk contentType (inr data) None ->
  store_fails env t1 path data e ->
  let st' := fst (fetchAnsStorePictureUrl env cfg keywords keywordIndex url updated st) in
  snd (fetchAnsStorePictureUrl env cfg keywords keywordIndex url updated st)
  = Failed (WrapErr e "")
  /\ fileCounter (acct st') = wrap64 (fileCounter (acct st) + 1)
  /\ pictureUrlFileMap (acct st') = pictureUrlFileMap (acct st)
  /\ pictureKeywordUrlMap (acct st') = pictureKeywordUrlMap (acct st)
  /\ pictureDefaultUrl (acct st') = pictureDefaultUrl (acct st)
  /\ jcx st' = jcx st
  /\ fs st' !! path = fs st !! path
  /\ (forall p, p <> path +:+ ".tmp" -> fs st' !! p = fs st !! p).
Proof.
  intros Hu Hk t1 path Hget Hfails.
  destruct (fetchAnsStorePictureUrl env cfg keywords keywordIndex url updated st)
    as [s res] eqn:Hrun.
  rewrite (fetch_downloaded env cfg keywords keywordIndex url updated st keyword
             contentType data Hu Hk Hget) in Hrun.
  fold path in Hrun.
  unfold bind at 1 in Hrun. unfold wrap in Hrun.
  match type of Hrun with
  | context [writeFileTempRename env path data ?s1] =>
      destruct (writeFileTempRename_fails env path data s1 e Hfails)
        as (s2 & Heq & Hj & Ha & Htarget & Hothers)
  end.
  rewrite Heq in Hrun. injection Hrun as <- <-. simpl.
  rewrite Ha, Hj. simpl.
  do 6 (split; [reflexivity|]). split; [exact Htarget|exact Hothers].
Qed.

Lemma fetchAnsStorePictureUrl_store_failure_witness :
  let env := Scenario.disk_full in
  let st := Scenario.st0 in
  let st' := fst (fetchAnsStorePictureUrl env Scenario.cfg ["cat"] 0 "http://pics/2" false st) in
  snd (fetchAnsStorePictureUrl env Scenario.cfg ["cat"] 0 "http://pics/2" false st)
  = Failed (WrapErr "no space left on device" "")
  /\ fileCounter (acct st') = 1
  /\ pictureUrlFileMap (acct st') = pictureUrlFileMap (acct st)
  /\ fs st' !! "account.data/user-picture-1-cat.png" = None.
Proof.
  destruct (fetchAnsStorePictureUrl_store_failure Scenario.disk_full Scenario.cfg ["cat"] 0
              "http://pics/2" false Scenario.st0 "cat" "image/png" "PNG"
              "no space left on device")
    as (Hres & Hcounter & Hurl & _ & _ & _ & Htarget & _); try reflexivity.
  - right. split; [lia|]. split; [reflexivity|discriminate].
  - left. reflexivity.
  - repeat split; assumption.
Defined.

(** The two ways of that failure, computed: a disk that is full leaves a
    truncated temporary file, a refused rename leaves the whole picture in
    the temporary file; the picture's own name holds nothing. *)
Example picture_not_stored_runs :
  let run env := fetchAnsStorePictureUrl env Scenario.cfg ["cat"] 0 "http://pics/2" false
                   Scenario.st0 in
  snd (run Scenario.disk_full) = Failed (WrapErr "no space left on device" "")
  /\ fs (fst (run Scenario.disk_full)) !! "account.data/user-picture-1-cat.png.tmp" = Some "PN"
  /\ fs (fst (run Scenario.disk_full)) !! "account.data/user-picture-1-cat.png" = None
  /\ snd (run Scenario.rename_refused) = Failed (WrapErr "permission denied" "")
  /\ fs (fst (run Scenario.rename_refused)) !! "account.data/user-picture-1-cat.png.tmp"
     = Some "PNG"
  /\ fs (fst (run Scenario.rename_refused)) !! "account.data/user-picture-1-cat.png" = None.
Proof. repeat split; vm_compute; reflexivity. Qed.

(** ** Pictures: a run that finds nothing new *)

Lemma fetch_skips env cfg keywords keywordIndex url updated st :
  url_unknown (acct st) url = false ->
  fetchAnsStorePictureUrl env cfg keywords keywordIndex url updated st = (st, Ret updated).
Proof.
  intros Hu. unfold fetchAnsStorePictureUrl, bind, gets, ret. simpl.
  by rewrite (url_known_guard _ _ Hu).
Qed.

Lemma fetchKeywordPictures_skips env cfg keywords urls : forall i updated st,
  Forall (fun url => url_unknown (acct st) url = false) urls ->
  fetchKeywordPictures env cfg keywords i urls updated st = (st, Ret updated).
Proof.
  induction urls as [|url urls IH]; intros i updated st Hall; [done|].
  apply Forall_cons in Hall as [Hurl Hall].
  simpl. unfold bind. rewrite (fetch_skips _ _ _ _ _ _ _ Hurl). by apply IH.
Qed.

(** X14: a run that finds nothing new touches nothing.  When the server's
    answer lists as many keywords as URLs and every URL in it, the default
    one included, is empty or already stored under a file name,
    [dumpAccountData] downloads nothing and writes nothing, not even the
    account state file: its only events are its announcement, the
    creation of the directory and the login request, and the account data
    is unchanged. *)
Theorem dumpAccountData_nothing_new env cfg st responseMap keywords urls :
  let announce := EvLog ("Fetching user info for: " +:+ username cfg) in
  let mkdir := EvMkdirAll (accountDataDir cfg) in
  io_MkdirAll env (trace st ++ [announce; mkdir]) (accountDataDir cfg) = None ->
  flat_login env (trace st ++ [announce; mkdir; EvFlatLogin]) = inr responseMap ->
  getLJFlatArray env "pickw" responseMap = Ret keywords ->
  getLJFlatArray env "pickwurl" responseMap = Ret urls ->
  length keywords = length urls ->
  Forall (fun url => url_unknown (acct st) url = false)
         (default "" (GoMap.assoc "defaultpicurl" responseMap) :: urls) ->
  dumpAccountData env cfg st
  = (set_trace (fun t => t ++ [announce; mkdir; EvFlatLogin]) st, Ret tt).
Proof.
  intros announce mkdir Hmk Hlogin Hkw Hurls Hlen Hall.
  apply Forall_cons in Hall as [Hdefault Hall].
  unfold dumpAccountData, MkdirAll. run.
  rewrite <- !app_assoc. simpl. fold announce. fold mkdir.
  rewrite Hmk. simpl. rewrite <- !app_assoc. simpl. fold announce. fold mkdir.
  rewrite Hlogin. simpl.
  rewrite Hkw. simpl. rewrite Hurls. simpl.
  rewrite Hlen, Nat.eqb_refl. simpl.
  rewrite fetch_skips by done.
  rewrite fetchKeywordPictures_skips by done.
  unfold set_trace. simpl. by rewrite <- !app_assoc.
Qed.

Lemma dumpAccountData_nothing_new_witness :
  dumpAccountData Scenario.pictures_listed Scenario.cfg
    (Scenario.with_acct Scenario.acct_two_pictures)
  = (set_trace (fun t => t ++ [EvLog "Fetching user info for: alice";
                               EvMkdirAll "account.data"; EvFlatLogin])
       (Scenario.with_acct Scenario.acct_two_pictures), Ret tt).
Proof.
  apply (dumpAccountData_nothing_new Scenario.pictures_listed Scenario.cfg
           (Scenario.with_acct Scenario.acct_two_pictures)
           Scenario.login_two_pictures ["cat"] ["http://pics/2"]); try reflexivity.
  repeat constructor.
Defined.

(** ** Pictures: no run-time panic *)

(** From account data whose maps are made, the computation comes back,
    leaves the maps made, and panics only with a message that [P] allows. *)
Definition acct_safe (P : string -> Prop) {E A} (m : M E A) : Prop :=
  forall st, accountData_made (acct st) ->
    accountData_made (acct (fst (m st)))
    /\ match snd (m st) with Panic msg => P msg | OutOfFuel => False | _ => True end.

Lemma acct_safe_ret P {E A} (a : A) : acct_safe P (@ret E A a).
Proof. by intros st H. Qed.
Lemma acct_safe_throw P {E A} (e : E) : acct_safe P (@throw E A e).
Proof. by intros st H. Qed.
Lemma acct_safe_gets P {E A} (f : St -> A) : acct_safe P (@gets E A f).
Proof. by intros st H. Qed.
Lemma acct_safe_emit P {E} ev : acct_safe P (@emit E ev).
Proof. by intros st H. Qed.
Lemma acct_safe_log P {E} line : acct_safe P (@log E line).
Proof. by intros st H. Qed.
Lemma acct_safe_modify P {E} (f : St -> St) :
  (forall st, accountData_made (acct st) -> accountData_made (acct (f st))) ->
  acct_safe P (@modify E f).
Proof. intros Hf st H. split; [by apply Hf|done]. Qed.

Lemma acct_safe_bind P {E A B} (m : M E A) (k : A -> M E B) :
  acct_safe P m -> (forall a, acct_safe P (k a)) -> acct_safe P (bind m k).
Proof.
  intros Hm Hk st H. unfold bind.
  destruct (Hm st H) as [Hmade Hres]. destruct (m st) as [s [a| |msg|]]; simpl in *; try done.
  by apply Hk.
Qed.

Lemma acct_safe_wrap P {A} f (m : M error A) : acct_safe P m -> acct_safe P (wrap f m).
Proof.
  intros Hm st H. unfold wrap.
  destruct (Hm st H) as [Hmade Hres]. by destruct (m st) as [s [a| |msg|]].
Qed.

Lemma acct_safe_lift_report P {A} (x : Report + A) : acct_safe P (lift_report x).
Proof. destruct x; [apply acct_safe_throw|apply acct_safe_ret]. Qed.

Lemma acct_safe_lift_res P {E A} (x : Res E A) :
  match x with Panic msg => P msg | OutOfFuel => False | _ => True end ->
  acct_safe P (lift_res x).
Proof. intros Hx st H. split; [done|exact Hx]. Qed.

(** The only panic of [getLJFlatArray] is that of [make]. *)
Definition make_refuses (env : Env) (msg : string) : Prop :=
  exists count, 0 <= count /\ runtime_makeslice env count = Some msg.

Lemma getLJFlatArray_panics env arrayName m :
  match getLJFlatArray env arrayName m with
  | Panic msg => make_refuses env msg
  | OutOfFuel => False
  | _ => True
  end.
Proof.
  unfold getLJFlatArray. destruct (decide _); [done|].
  destruct (ParseInt _) as [count|]; [|done].
  destruct (Z.ltb_spec count 0); [done|].
  destruct (runtime_makeslice env count) as [msg|] eqn:Hmake.
  - by exists count.
  - by destruct (getLJFlatArray_loop _ _ _ _).
Qed.

Ltac acct_safe_step :=
  first
    [ apply acct_safe_bind; [|intros ?]
    | apply acct_safe_ret | apply acct_safe_throw | apply acct_safe_gets
    | apply acct_safe_emit | apply acct_safe_log | apply acct_safe_wrap
    | apply acct_safe_lift_report
    | match goal with
      | |- acct_safe _ (match ?x with _ => _ end) => destruct x
      end ].

Lemma acct_safe_writeFileTempRename P env filePath data :
  acct_safe P (writeFileTempRename env filePath data).
Proof.
  unfold writeFileTempRename.
  repeat first [acct_safe_step | apply acct_safe_modify; by intros []].
Qed.

Lemma acct_safe_MkdirAll P env path : acct_safe P (MkdirAll env path).
Proof. unfold MkdirAll. repeat acct_safe_step. Qed.

Lemma acct_safe_assign_url P url file :
  acct_safe P (assign_acct pictureUrlFileMap set_pictureUrlFileMap url file).
Proof.
  intros st [[Hnil Hu] Hkw]. unfold assign_acct. run.
  destruct (pictureUrlFileMap (acct st)) as [m|] eqn:Hm; [|done]. simpl.
  split; [|done]. split; [|done].
  split; [done|]. by apply NoDup_keys_update.
Qed.

Lemma acct_safe_assign_keyword P keyword url :
  acct_safe P (assign_acct pictureKeywordUrlMap set_pictureKeywordUrlMap keyword url).
Proof.
  intros st [Hurl [Hnil Hu]]. unfold assign_acct. run.
  destruct (pictureKeywordUrlMap (acct st)) as [m|] eqn:Hm; [|done]. simpl.
  split; [|done]. split; [done|].
  split; [done|]. by apply NoDup_keys_update.
Qed.

Lemma acct_safe_fetchAnsStorePictureUrl P env cfg keywords keywordIndex url updated :
  (keywordIndex < 0 \/ (Z.to_nat keywordIndex < length keywords)%nat) ->
  acct_safe P (fetchAnsStorePictureUrl env cfg keywords keywordIndex url updated).
Proof.
  intros Hidx. unfold fetchAnsStorePictureUrl.
  apply acct_safe_bind; [apply acct_safe_gets|intros a].
  destruct (_ || _); [apply acct_safe_ret|].
  destruct (if 0 <=? keywordIndex then keywords !! Z.to_nat keywordIndex else Some "")
    as [keyword|] eqn:Hkw.
  - repeat first
      [ apply acct_safe_writeFileTempRename
      | apply acct_safe_assign_url | apply acct_safe_assign_keyword
      | acct_safe_step
      | apply acct_safe_modify; by intros [] ].
  - destruct (Z.leb_spec 0 keywordIndex) as [Hge|Hlt]; [|done].
    destruct Hidx as [Hneg|Hin]; [lia|].
    apply lookup_ge_None in Hkw. lia.
Qed.

Lemma acct_safe_fetchKeywordPictures P env cfg keywords urls : forall i updated,
  0 <= i -> (Z.to_nat i + length urls <= length keywords)%nat ->
  acct_safe P (fetchKeywordPictures env cfg keywords i urls updated).
Proof.
  induction urls as [|url urls IH]; intros i updated Hi Hlen; simpl.
  - apply acct_safe_ret.
  - simpl in Hlen. apply acct_safe_bind.
    + apply acct_safe_fetchAnsStorePictureUrl. right. lia.
    + intros updated'. apply IH; lia.
Qed.

Lemma acct_safe_writeAccountData P env cfg : acct_safe P (writeAccountData env cfg).
Proof.
  unfold writeAccountData.
  repeat first [apply acct_safe_writeFileTempRename | acct_safe_step].
Qed.

(** X15: the only run-time panic of [dumpAccountData] on account data
    whose maps are made, as [readAccountData] returns it, is that of
    [make] in [getLJFlatArray], when the count the server declares for the
    keywords or the URLs is more than the runtime allocates.  The keyword
    of a URL is always found, because the two arrays were checked to have
    the same length, and every map assignment finds its map.  So the
    function returns, fails with a report or panics in [make], and where
    it does not panic the maps are still made afterwards; with a runtime
    that allocates every count it returns or fails. *)
Theorem dumpAccountData_panics_only_in_make env cfg st :
  accountData_made (acct st) ->
  accountData_made (acct (fst (dumpAccountData env cfg st)))
  /\ (snd (dumpAccountData env cfg st) = Ret tt
      \/ (exists r, snd (dumpAccountData env cfg st) = Failed r)
      \/ (exists msg count,
            snd (dumpAccountData env cfg st) = Panic msg
            /\ 0 <= count /\ runtime_makeslice env count = Some msg))
  /\ ((forall count, 0 <= count -> runtime_makeslice env count = None) ->
      snd (dumpAccountData env cfg st) = Ret tt
      \/ exists r, snd (dumpAccountData env cfg st) = Failed r).
Proof.
  intros Hmade.
  assert (Hsafe : acct_safe (make_refuses env) (dumpAccountData env cfg)).
  { unfold dumpAccountData.
    apply acct_safe_bind; [apply acct_safe_log|intros _].
    apply acct_safe_bind; [apply acct_safe_wrap, acct_safe_MkdirAll|intros _].
    apply acct_safe_bind; [apply acct_safe_emit|intros _].
    apply acct_safe_bind; [apply acct_safe_gets|intros t].
    apply acct_safe_bind; [apply acct_safe_lift_report|intros responseMap].
    apply acct_safe_bind;
      [apply acct_safe_lift_res, getLJFlatArray_panics|intros keywords].
    apply acct_safe_bind;
      [apply acct_safe_lift_res, getLJFlatArray_panics|intros urls].
    destruct (Nat.eqb_spec (length keywords) (length urls)) as [Hlen|Hlen]; simpl;
      [|apply acct_safe_throw].
    apply acct_safe_bind; [apply acct_safe_fetchAnsStorePictureUrl; left; lia|intros updated].
    apply acct_safe_bind; [apply acct_safe_fetchKeywordPictures; simpl; lia|intros updated'].
    destruct updated'; [apply acct_safe_writeAccountData|apply acct_safe_ret]. }
  destruct (Hsafe st Hmade) as [Hmade' Hres]. split; [done|].
  destruct (snd (dumpAccountData env cfg st)) as [[]|r|msg|]; try done.
  - split; [|intros _]; eauto.
  - split; [|intros _]; eauto.
  - destruct Hres as (count & Hcount & Hmake). split.
    + right. right. by exists msg, count.
    + intros Hall. rewrite Hall in Hmake by done. discriminate.
Qed.

Lemma dumpAccountData_panics_only_in_make_witness :
  let run := dumpAccountData Scenario.pictures_listed Scenario.cfg Scenario.st0 in
  accountData_made (acct Scenario.st0)
  /\ accountData_made (acct (fst run))
  /\ (snd run = Ret tt
      \/ (exists r, snd run = Failed r)
      \/ (exists msg count,
            snd run = Panic msg
            /\ 0 <= count
            /\ runtime_makeslice Scenario.pictures_listed count = Some msg)).
Proof.
  assert (Hmade : accountData_made (acct Scenario.st0)) by (split; apply made_make).
  split; [exact Hmade|].
  destruct (dumpAccountData_panics_only_in_make Scenario.pictures_listed Scenario.cfg
              Scenario.st0 Hmade) as (H1 & H2 & _).
  split; [exact H1|exact H2].
Defined.

(** A server that declares more keywords than the runtime allocates makes
    the run panic in [make], with nothing downloaded or written. *)
Example huge_keyword_count_panics :
  let run := dumpAccountData Scenario.huge_keyword_count Scenario.cfg Scenario.st0 in
  snd run = Panic "runtime error: makeslice: len out of range"
  /\ fs (fst run) = fs Scenario.st0
  /\ acct (fst run) = acct Scenario.st0.
Proof. repeat split; vm_compute; reflexivity. Qed.

(** The first run of that scenario stores both pictures and the state. *)
Example pictures_listed_first_run :
  let st' := fst (dumpAccountData Scenario.pictures_listed Scenario.cfg Scenario.st0) in
  snd (dumpAccountData Scenario.pictures_listed Scenario.cfg Scenario.st0) = Ret tt
  /\ acct st'
     = {| fileCounter := 2; pictureDefaultUrl := "http://pics/1";
          pictureUrlFileMap := Some [("http://pics/1", "user-picture-1.png");
                                     ("http://pics/2", "user-picture-2-cat.png")];
          pictureKeywordUrlMap := Some [("cat", "http://pics/2")] |}
  /\ is_Some (fs st' !! "account.data/account.linedb").
Proof.
  split; [vm_compute; reflexivity|]. split; [vm_compute; reflexivity|].
  vm_compute. eauto.
Qed.

(** ** The journal driver: a run that finds nothing new *)

(** The journal state a non-empty state file decodes to. *)
Definition decoded_db (env : Env) (d : journalDB) (data : string) : journalDB :=
  fold_left journalDB_item (fst (linedb_Decode env data))
            (set_commentMap GoMap.make (set_userMap GoMap.make d)).

Lemma readJournalDB_current_eq env st data :
  let dbpath := filepath_Join (dir (jcx st)) journalDBFileName in
  io_ReadFile_fault env (trace st ++ [EvReadFile dbpath]) dbpath = None ->
  fs st !! dbpath = Some data -> data <> "" ->
  readJournalDB env st
  = (set_jcx (fun j => set_origDbLastSync (lastSync (decoded_db env (db j) data))
                         (set_db (fun d => decoded_db env d data) j))
       (set_trace (fun t => t ++ [EvReadFile dbpath]) st), Ret tt).
Proof.
  intros dbpath Hfault Hfile Hdata.
  unfold readJournalDB, ReadFile. run. fold dbpath. rewrite Hfault. simpl. rewrite Hfile. simpl.
  destruct data as [|c data]; [done|]. reflexivity.
Qed.

Lemma MkdirAll_ok env f path st :
  io_MkdirAll env (trace st ++ [EvMkdirAll path]) path = None ->
  wrap f (MkdirAll env path) st = (set_trace (fun t => t ++ [EvMkdirAll path]) st, Ret tt).
Proof. intros H. unfold MkdirAll. run. by rewrite H. Qed.

Lemma dumpJournalPosts_empty_feed env fuel st :
  xmlrpc_NewClient env (server (config (jcx st)) +:+ "/interface/xmlrpc") = None ->
  (forall t, xmlrpc_syncitems env t (lastSync (db (jcx st))) (name (jcx st)) = inr []) ->
  dumpJournalPosts env (S fuel) st
  = (set_trace (fun t => t ++ [EvLog ("Fetching journal entries for: " +:+ name (jcx st));
                               EvSyncItems (lastSync (db (jcx st))) (name (jcx st))]) st,
     Ret tt).
Proof.
  intros Hclient Hfeed. unfold dumpJournalPosts. run. rewrite Hclient.
  unfold call_syncitems. run. rewrite Hfeed. simpl.
  unfold set_trace. simpl. by rewrite <- app_assoc.
Qed.

Lemma dumpJournalComments_nothing_new env fuel st maxid :
  (forall t startid authas,
     export_comments_meta env t startid authas
     = ExportOk {| MaxId := maxid; mc_Comments := []; UserMaps := [] |}) ->
  (forall t startid authas,
     export_comments_body env t startid authas = ExportOk {| cc_Comments := [] |}) ->
  in_int64 maxid = true ->
  maxid <= maxStoredCommentId_of (commentMap (db (jcx st))) ->
  let startid := wrap64 (maxStoredCommentId_of (commentMap (db (jcx st))) + 1) in
  dumpJournalComments env (S fuel) st
  = (set_trace (fun t => t ++ [EvLog ("Fetching journal comments for: " +:+ name (jcx st));
                               EvExportComments "meta" startid (authas_of env (jcx st));
                               EvExportComments "body" startid (authas_of env (jcx st))]) st,
     Ret tt).
Proof.
  intros Hmeta Hbody Hin Hle startid.
  rewrite dumpJournalComments_stages, metaPass_S.
  unfold bind at 1. unfold bind at 1.
  unfold fetchCommentData_meta at 1. run. rewrite Hmeta.
  unfold metaChunk_in_int64. simpl. rewrite Hin. simpl.
  unfold absorbMetaChunk. simpl.
  destruct (Z.geb_spec (maxStoredCommentId_of (commentMap (db (jcx st)))) maxid) as [_|Hlt];
    [|lia].
  simpl. unfold fetchCommentData_body. run. rewrite Hbody. simpl.
  rewrite Z.geb_leb, Z.leb_refl. simpl.
  unfold mergeNewMeta. simpl. run.
  unfold set_trace, comments_started. simpl. by rewrite <- !app_assoc.
Qed.

(** The line that ends a run of [dumpJournal] without error. *)
Definition summary_line (j : journalContext) : string :=
  if decide (origDbLastSync j = "") then
    fmt_d (newEntries j) +:+ " new entries, " +:+ fmt_d (newComments j) +:+ " new comments"
  else
    fmt_d (newEntries j) +:+ " new entries, " +:+ fmt_d (newComments j)
    +:+ " new comments (since " +:+ origDbLastSync j +:+ ")".

(** X16: a run of [dumpJournal] that finds nothing new writes nothing.
    With a state file in the current format, an empty change feed, and a
    comment export that declares no comment beyond the stored ones,
    [dumpJournal] returns without error; no file is written, the state
    file included; the journal state is the decoded one and is not marked
    for writing.  Its events are the read of the state file, the creation
    of the directory, one feed request from the stored cursor, one
    metadata and one body request from the id after the largest stored
    one, and the log lines. *)
Theorem dumpJournal_nothing_new env fuel st data maxid :
  let dbpath := filepath_Join (dir (jcx st)) journalDBFileName in
  let db1 := decoded_db env (db (jcx st)) data in
  let startid := wrap64 (maxStoredCommentId_of (commentMap db1) + 1) in
  (forall t, io_ReadFile_fault env t dbpath = None) ->
  fs st !! dbpath = Some data -> data <> "" ->
  (forall t, io_MkdirAll env t (dir (jcx st)) = None) ->
  xmlrpc_NewClient env (server (config (jcx st)) +:+ "/interface/xmlrpc") = None ->
  (forall t, xmlrpc_syncitems env t (lastSync db1) (name (jcx st)) = inr []) ->
  (forall t startid authas,
     export_comments_meta env t startid authas
     = ExportOk {| MaxId := maxid; mc_Comments := []; UserMaps := [] |}) ->
  (forall t startid authas,
     export_comments_body env t startid authas = ExportOk {| cc_Comments := [] |}) ->
  in_int64 maxid = true ->
  maxid <= maxStoredCommentId_of (commentMap db1) ->
  shouldWriteDB (jcx st) = false ->
  let st' := fst (dumpJournal env (S fuel) st) in
  snd (dumpJournal env (S fuel) st) = Ret tt
  /\ fs st' = fs st
  /\ db (jcx st') = db1
  /\ shouldWriteDB (jcx st') = false
  /\ trace st'
     = trace st ++
       [EvReadFile dbpath; EvMkdirAll (dir (jcx st));
        EvLog ("Fetching journal entries for: " +:+ name (jcx st));
        EvSyncItems (lastSync db1) (name (jcx st));
        EvLog ("Fetching journal comments for: " +:+ name (jcx st));
        EvExportComments "meta" startid (authas_of env (jcx st));
        EvExportComments "body" startid (authas_of env (jcx st));
        EvLog (summary_line (set_origDbLastSync (lastSync db1) (jcx st)))].
Proof.
  intros dbpath db1 startid Hread Hfile Hdata Hmk Hclient Hfeed Hmeta Hbody Hin Hle Hclean.
  destruct (dumpJournal env (S fuel) st) as [s res] eqn:Hrun.
  unfold dumpJournal in Hrun.
  unfold bind at 1 in Hrun.
  rewrite (readJournalDB_current_eq env st data) in Hrun by (try apply Hread; done).
  unfold bind at 1 in Hrun. unfold gets at 1 in Hrun.
  unfold bind at 1 in Hrun.
  rewrite MkdirAll_ok in Hrun by apply Hmk.
  unfold bind at 1 in Hrun. unfold syncJournal in Hrun.
  unfold bind at 1 in Hrun. unfold catch at 1 in Hrun.
  rewrite dumpJournalPosts_empty_feed in Hrun by (simpl; first [exact Hclient|apply Hfeed]).
  unfold catch at 1 in Hrun.
  rewrite (dumpJournalComments_nothing_new _ _ _ maxid) in Hrun by (simpl; done).
  revert Hrun. unfold persistJournal. run. rewrite Hclean. simpl.
  fold dbpath. fold db1.
  assert (Hauthas : authas_of env
            (set_origDbLastSync (lastSync db1)
               (set_db (fun d => decoded_db env d data) (jcx st)))
          = authas_of env (jcx st)) by reflexivity.
  rewrite Hauthas. unfold summary_line. simpl.
  destruct (decide (lastSync db1 = "")); unfold emit, modify; intros [= <- <-]; simpl;
    rewrite <- !app_assoc; done.
Qed.

Lemma dumpJournal_nothing_new_witness :
  let st' := fst (dumpJournal Scenario.truncated_state_file 1 Scenario.st_current_db) in
  snd (dumpJournal Scenario.truncated_state_file 1 Scenario.st_current_db) = Ret tt
  /\ fs st' = fs Scenario.st_current_db
  /\ shouldWriteDB (jcx st') = false
  /\ trace st'
     = [EvReadFile "alice/journal.linedb"; EvMkdirAll "alice";
        EvLog "Fetching journal entries for: alice";
        EvSyncItems "2016-01-02 03:04:05" "alice";
        EvLog "Fetching journal comments for: alice";
        EvExportComments "meta" 13 ""; EvExportComments "body" 13 "";
        EvLog "0 new entries, 0 new comments (since 2016-01-02 03:04:05)"].
Proof.
  destruct (dumpJournal_nothing_new Scenario.truncated_state_file 0
              Scenario.st_current_db "lastSync ..." 0)
    as (Hres & Hfs & _ & Hclean & Htrace); try reflexivity; try discriminate.
  repeat split; assumption.
Defined.

(** ** Posts: items that are not fetched *)

(** X17: change-feed items that are well formed but are not entries (their
    type letter is not L) cost nothing but the cursor: a page of them is
    processed without any request, log line or file, and the journal
    context changes only in that the cursor takes the time of each item in
    turn and the state is marked for writing. *)
Theorem forEach_syncItem_other_items env items st :
  Forall (fun item => is_Some (parsed_item item) /\ is_entry item = false) items ->
  let st' := fst (forEach items (syncItem env) st) in
  snd (forEach items (syncItem env) st) = Ret tt
  /\ st' = fold_left (fun s item => advance item s) items st
  /\ trace st' = trace st /\ fs st' = fs st
  /\ newEntries (jcx st') = newEntries (jcx st)
  /\ lastSync (db (jcx st')) = cursorAfter (lastSync (db (jcx st))) items.
Proof.
  revert st. induction items as [|item items IH]; intros st Hall; [done|].
  apply Forall_cons in Hall as [[[itemid Hp] He] Hall].
  simpl. unfold bind. rewrite (syncItem_other _ _ _ _ Hp He).
  destruct (IH (advance item st) Hall) as (Hres & Hst & Htrace & Hfs & Hnew & Hcur).
  repeat (split; [done|]).
  rewrite Hcur. unfold cursorAfter. simpl. by rewrite Hp.
Qed.

Lemma forEach_syncItem_other_items_witness :
  let items := [Scenario.item_comment; Scenario.item_comment2] in
  let st' := fst (forEach items (syncItem Scenario.quiet) Scenario.st0) in
  snd (forEach items (syncItem Scenario.quiet) Scenario.st0) = Ret tt
  /\ trace st' = [] /\ fs st' = ∅
  /\ lastSync (db (jcx st')) = "2016-01-06 10:00:00"
  /\ shouldWriteDB (jcx st') = true.
Proof.
  destruct (forEach_syncItem_other_items Scenario.quiet
              [Scenario.item_comment; Scenario.item_comment2] Scenario.st0)
    as (Hres & Hst & Htrace & Hfs & _ & Hcur).
  - repeat constructor; eexists; reflexivity.
  - split; [exact Hres|]. split; [exact Htrace|]. split; [exact Hfs|].
    split; [exact Hcur|]. reflexivity.
Defined.

(** A malformed identifier that has a second byte. *)
Definition malformed_item (item : LJSyncItem) : Prop :=
  parsed_item item = None /\ is_Some (String.get 1 (Item item)).

Lemma forEach_malformed_items env items : forall st,
  Forall malformed_item items ->
  snd (forEach items (syncItem env) st) = Ret tt
  /\ jcx (fst (forEach items (syncItem env) st)) = jcx st
  /\ fs (fst (forEach items (syncItem env) st)) = fs st.
Proof.
  induction items as [|item items IH]; intros st Hall; [done|].
  apply Forall_cons in Hall as [[Hp [b Hb]] Hall].
  simpl. unfold bind. rewrite (syncItem_malformed_warns _ _ _ _ Hp Hb).
  destruct (IH (set_trace (fun t => t ++ [EvLog ("WARNING: invalid SyncItems id "
                                                 +:+ fmt_s_byte b)]) st) Hall)
    as (Hres & Hj & Hfs).
  by rewrite Hres, Hj, Hfs.
Qed.

(** X18: malformed items do not move the cursor, so a page made only of
    them is asked for again.  If the change feed answers every request
    with such a page, the loop of [dumpJournalPosts] never returns,
    however many iterations it is given, and the journal context and the
    files stay as they were. *)
Theorem dumpJournalPosts_loop_malformed_page env page :
  page <> [] -> Forall malformed_item page ->
  (forall t lastsync journal, xmlrpc_syncitems env t lastsync journal = inr page) ->
  forall fuel st,
    snd (dumpJournalPosts_loop env fuel st) = OutOfFuel
    /\ jcx (fst (dumpJournalPosts_loop env fuel st)) = jcx st
    /\ fs (fst (dumpJournalPosts_loop env fuel st)) = fs st.
Proof.
  intros Hne Hall Hfeed. induction fuel as [|fuel IH]; intros st; [done|].
  simpl. unfold bind at 1 3 5.
  destruct (call_syncitems env st) as [s1 r1] eqn:Hcall.
  apply call_syncitems_frame in Hcall as Hframe. destruct Hframe as (Hj1 & _ & Hfs1 & _).
  assert (r1 = Ret page) as ->.
  { revert Hcall. unfold call_syncitems. run. rewrite Hfeed. by intros [= _ <-]. }
  destruct page as [|item page]; [done|].
  unfold bind.
  destruct (forEach_malformed_items env (item :: page) s1 Hall) as (Hres & Hj & Hfs).
  destruct (forEach (item :: page) (syncItem env) s1) as [s2 r2]. simpl in Hres, Hj, Hfs.
  subst r2. destruct (IH s2) as (Hres' & Hj' & Hfs').
  rewrite Hres', Hj', Hfs', Hj, Hfs. done.
Qed.

Lemma dumpJournalPosts_loop_malformed_page_witness :
  snd (dumpJournalPosts_loop Scenario.feed_stuck 50 Scenario.st0) = OutOfFuel
  /\ jcx (fst (dumpJournalPosts_loop Scenario.feed_stuck 50 Scenario.st0)) = jcx Scenario.st0
  /\ fs (fst (dumpJournalPosts_loop Scenario.feed_stuck 50 Scenario.st0)) = fs Scenario.st0.
Proof.
  apply (dumpJournalPosts_loop_malformed_page Scenario.feed_stuck [Scenario.item_nodash]).
  - discriminate.
  - repeat constructor. by eexists.
  - reflexivity.
Defined.

(** ** The journal driver: the state file comes before the directory *)

(** Events of the local disk and the log: no directory is created and no
    request is sent. *)
Definition local_event (ev : Event) : Prop :=
  match ev with
  | EvLog _ | EvReadFile _ | EvWriteFile _ _ _ | EvRename _ _ _ => True
  | _ => False
  end.

(** The step from [s] to [s'] recorded local events only, and kept the
    directory of the journal. *)
Definition local_steps (s s' : St) : Prop :=
  dir (jcx s') = dir (jcx s)
  /\ exists evs, trace s' = trace s ++ evs /\ Forall local_event evs.

#[global] Instance local_steps_preorder : PreOrder local_steps.
Proof.
  split.
  - intros s. split; [done|]. exists []. by rewrite app_nil_r.
  - intros s1 s2 s3 (Hd1 & evs1 & Ht1 & Hl1) (Hd2 & evs2 & Ht2 & Hl2).
    split; [congruence|]. exists (evs1 ++ evs2).
    split; [by rewrite Ht2, Ht1, app_assoc|]. by apply Forall_app.
Qed.

Ltac local_steps_tac :=
  split; [reflexivity|];
  first [ exists []; split; [by rewrite app_nil_r|constructor]
        | eexists [_]; split; [reflexivity|]; repeat constructor ].

Lemma keeps_local_ReadFile env path : keeps local_steps (ReadFile env path).
Proof. unfold ReadFile. solve_keeps local_steps_tac. Qed.

Lemma keeps_local_writeFileTempRename env filePath data :
  keeps local_steps (writeFileTempRename env filePath data).
Proof. unfold writeFileTempRename. solve_keeps local_steps_tac. Qed.

Lemma keeps_local_writeJournalDB env : keeps local_steps (writeJournalDB env).
Proof.
  unfold writeJournalDB.
  apply keeps_bind; [apply _|apply keeps_gets; apply _|intros j].
  apply keeps_wrap, keeps_local_writeFileTempRename.
Qed.

Lemma keeps_local_legacy env :
  keeps local_steps
    (readPythonLastRunFile env ;; readPythonCommentMeta env ;; readPythonUserMap env).
Proof.
  unfold readPythonLastRunFile, readPythonCommentMeta, readPythonUserMap, openAndRead,
    pythonCommentMetaEntry, pythonUserMapEntry.
  repeat first [ apply keeps_local_ReadFile | keeps_step local_steps_tac ].
Qed.

Lemma keeps_local_readJournalDB env : keeps local_steps (readJournalDB env).
Proof.
  unfold readJournalDB.
  apply keeps_bind; [apply _|apply keeps_gets; apply _|intros j].
  apply keeps_bind; [apply _|apply keeps_wrap, keeps_local_ReadFile|intros dbdata].
  apply keeps_bind; [apply _| |intros _; solve_keeps local_steps_tac].
  destruct (_ =? _)%nat; [|solve_keeps local_steps_tac].
  apply keeps_bind; [apply _|solve_keeps local_steps_tac|intros _].
  apply keeps_bind; [apply _|apply keeps_wrap, keeps_local_legacy|intros _].
  apply keeps_local_writeJournalDB.
Qed.

Lemma comes_back_ReadFile env path : comes_back (ReadFile env path).
Proof. unfold ReadFile. solve_comes_back. Qed.

Lemma comes_back_legacy env :
  comes_back
    (readPythonLastRunFile env ;; readPythonCommentMeta env ;; readPythonUserMap env).
Proof.
  unfold readPythonLastRunFile, readPythonCommentMeta, readPythonUserMap, openAndRead,
    pythonCommentMetaEntry, pythonUserMapEntry.
  unfold log, emit.
  repeat first [ apply comes_back_ReadFile | comes_back_step ].
Qed.

(** X19: [dumpJournal] reads, and in the legacy branch writes, the state
    file before it creates the directory of the journal.  When the state
    file is absent or empty and the temporary state file cannot be written
    (as in a directory that does not exist yet), [dumpJournal] fails, and
    everything it did was local: it read and logged, but created no
    directory and sent no request. *)
Theorem dumpJournal_fails_before_MkdirAll env fuel st e :
  let dbpath := filepath_Join (dir (jcx st)) journalDBFileName in
  default "" (fs st !! dbpath) = "" ->
  (forall t data, io_WriteFile env t (dbpath +:+ ".tmp") data = Some e) ->
  (exists r, snd (dumpJournal env fuel st) = Failed r)
  /\ exists evs,
       trace (fst (dumpJournal env fuel st)) = trace st ++ evs
       /\ Forall local_event evs.
Proof.
  intros dbpath Hfile Hwrite.
  assert (Hfails : exists r, snd (readJournalDB env st) = Failed r).
  { unfold readJournalDB.
    unfold bind at 1. unfold gets at 1. fold dbpath.
    unfold bind at 1.
    destruct (wrap (fun e0 => WrapErr e0 "") (ReadFile env dbpath) st) as [s1 r1] eqn:Hread.
    assert (Hr1 : (exists r, r1 = Failed r)
                  \/ (r1 = Ret (fs st !! dbpath) /\ dir (jcx s1) = dir (jcx st))).
    { revert Hread. unfold ReadFile. run.
      destruct (io_ReadFile_fault env _ _); simpl; intros [= <- <-]; eauto. }
    destruct Hr1 as [[r ->]|[-> Hdir]]; [by exists r|].
    rewrite Hfile. simpl.
    unfold bind at 1. unfold bind at 1.
    unfold log at 1, emit at 1, modify at 1.
    unfold bind at 1.
    match goal with
    | |- context [wrap ?f ?m ?s] =>
        pose proof (comes_back_legacy env s) as Hback;
        pose proof (keeps_local_legacy env s) as [Hdir2 _];
        unfold wrap; destruct (m s) as [s2 [[]|err| |]]
    end; simpl in Hback; try done; simpl; [|eauto].
    unfold writeJournalDB. run.
    simpl in Hdir2. rewrite Hdir2, Hdir. fold dbpath.
    match goal with
    | |- context [writeFileTempRename env ?path ?data ?s] =>
        destruct (writeFileTempRename_fails env path data s e) as (s' & -> & _);
          [left; apply Hwrite|]
    end.
    simpl. eauto. }
  destruct Hfails as [r Hr].
  pose proof (keeps_local_readJournalDB env st) as [_ Hlocal].
  unfold dumpJournal, bind.
  destruct (readJournalDB env st) as [s1 r1]. simpl in Hr, Hlocal. subst r1.
  split; [by exists r|done].
Qed.

Lemma dumpJournal_fails_before_MkdirAll_witness :
  (exists r, snd (dumpJournal Scenario.disk_full 3 Scenario.st0) = Failed r)
  /\ exists evs,
       trace (fst (dumpJournal Scenario.disk_full 3 Scenario.st0)) = trace Scenario.st0 ++ evs
       /\ Forall local_event evs.
Proof.
  apply (dumpJournal_fails_before_MkdirAll Scenario.disk_full 3 Scenario.st0
           "no space left on device"); reflexivity.
Defined.

(** The events of that run. *)
Example first_run_without_directory :
  dumpJournal Scenario.disk_full 3 Scenario.st0
  = (set_trace (fun _ =>
       [EvReadFile "alice/journal.linedb";
        EvLog "Converting Python Journal DB into alice/journal.linedb";
        EvReadFile "alice/.last"; EvReadFile "alice/comment.meta";
        EvReadFile "alice/user.map";
        EvWriteFile "alice/journal.linedb.tmp" "" false]) Scenario.st0,
     Failed (WrapErr "no space left on device"
               "failed to write journal db file alice/journal.linedb")).
Proof. vm_compute. reflexivity. Qed.

(** ** Comments: when the final merge panics *)

Lemma forEach_assign_commentMap_cases entries st :
  (entries <> [] /\ commentMap (db (jcx st)) = None
   /\ forEach entries assign_commentMap st = (st, Panic "assignment to entry in nil map"))
  \/ ((entries = [] \/ commentMap (db (jcx st)) <> None)
      /\ exists st1,
           forEach entries assign_commentMap st = (st1, Ret tt)
           /\ userMap (db (jcx st1)) = userMap (db (jcx st))
           /\ shouldWriteDB (jcx st1) = shouldWriteDB (jcx st)).
Proof.
  destruct (commentMap (db (jcx st))) as [cm|] eqn:Hcm.
  - right. split; [by right|]. rewrite (forEach_assign_commentMap _ _ _ Hcm). eauto.
  - destruct entries as [|kv entries].
    + right. split; [by left|]. exists st. done.
    + left. by rewrite (forEach_assign_commentMap_nil _ _ _ Hcm).
Qed.

Lemma forEach_assign_userMap_cases entries st :
  (entries <> [] /\ userMap (db (jcx st)) = None
   /\ forEach entries assign_userMap st = (st, Panic "assignment to entry in nil map"))
  \/ ((entries = [] \/ userMap (db (jcx st)) <> None)
      /\ exists st1, forEach entries assign_userMap st = (st1, Ret tt)).
Proof.
  destruct (userMap (db (jcx st))) as [um|] eqn:Hum.
  - right. split; [by right|]. rewrite (forEach_assign_userMap _ _ _ Hum). eauto.
  - destruct entries as [|kv entries].
    + right. split; [by left|]. exists st. done.
    + left. by rewrite (forEach_assign_userMap_nil _ _ _ Hum).
Qed.

(** X20: the merge that ends [dumpJournalComments] panics exactly when it
    has an entry to assign to a map that is nil: a learned comment with a
    nil comment map, or a learned user with a nil user map.  It then
    leaves the state unmarked for writing; in every other case it
    returns.  *)
Theorem mergeNewMeta_panics_iff l st :
  ((exists msg, snd (mergeNewMeta l st) = Panic msg)
   <-> (commentMap (db (jcx st)) = None /\ l_newComments l <> [])
       \/ (userMap (db (jcx st)) = None /\ l_newCommentUsers l <> []))
  /\ ((exists msg, snd (mergeNewMeta l st) = Panic msg) ->
      shouldWriteDB (jcx (fst (mergeNewMeta l st))) = shouldWriteDB (jcx st))
  /\ ((forall msg, snd (mergeNewMeta l st) <> Panic msg) -> snd (mergeNewMeta l st) = Ret tt).
Proof.
  destruct (mergeNewMeta l st) as [s res] eqn:Hrun. simpl.
  unfold mergeNewMeta in Hrun.
  destruct (negb (length (l_newComments l) =? 0)%nat
            || negb (length (l_newCommentUsers l) =? 0)%nat) eqn:Hlearned; cycle 1.
  { injection Hrun as <- <-. apply orb_false_iff in Hlearned as [H1 H2].
    apply negb_false_iff, Nat.eqb_eq, nil_length_inv in H1.
    apply negb_false_iff, Nat.eqb_eq, nil_length_inv in H2.
    split; [|done]. split; [by intros [msg ?]|]. intros [[_ ?]|[_ ?]]; done. }
  unfold bind at 1 in Hrun.
  destruct (forEach_assign_commentMap_cases (l_newComments l) st)
    as [(Hne & Hnil & Heq)|(Hok & st1 & Heq & Hum1 & Hsw1)]; rewrite Heq in Hrun.
  { injection Hrun as <- <-. split; [|split; [done|]].
    - split; [intros _; by left|eauto].
    - intros H. by specialize (H "assignment to entry in nil map"). }
  unfold bind at 1 in Hrun.
  destruct (forEach_assign_userMap_cases (l_newCommentUsers l) st1)
    as [(Hne & Hnil & Heq2)|(Hok2 & st2 & Heq2)]; rewrite Heq2 in Hrun.
  { injection Hrun as <- <-. split; [|split; [done|]].
    - split; [intros _; right; by rewrite <- Hum1|eauto].
    - intros H. by specialize (H "assignment to entry in nil map"). }
  injection Hrun as <- <-. split; [|split; [by intros [msg ?]|done]].
  split; [by intros [msg ?]|].
  intros [[Hnil Hne]|[Hnil Hne]].
  - destruct Hok; done.
  - rewrite <- Hum1 in Hnil. destruct Hok2; done.
Qed.

(** ** Comments: where the download resumes *)

Lemma maxStoredCommentId_of_frontier (m : GoMap.t CommentId commentMeta) :
  maxStoredCommentId_of m = frontier_after (-1) (GoMap.keys m).
Proof. reflexivity. Qed.

(** X21: the id after which comment download resumes is the largest key
    of the comment map, and -1 for a map without a key above -1 (the nil
    and the empty map included); it does not depend on the order in which
    the map is ranged over. *)
Theorem maxStoredCommentId_of_is_max (m1 m2 : GoMap.t CommentId commentMeta) :
  (-1 <= maxStoredCommentId_of m1
   /\ (forall id, id ∈ GoMap.keys m1 -> id <= maxStoredCommentId_of m1)
   /\ (maxStoredCommentId_of m1 = -1 \/ maxStoredCommentId_of m1 ∈ GoMap.keys m1))
  /\ (same_content m1 m2 -> maxStoredCommentId_of m1 = maxStoredCommentId_of m2).
Proof.
  assert (Hmax : forall m : GoMap.t CommentId commentMeta,
            -1 <= maxStoredCommentId_of m
            /\ (forall id, id ∈ GoMap.keys m -> id <= maxStoredCommentId_of m)
            /\ (maxStoredCommentId_of m = -1 \/ maxStoredCommentId_of m ∈ GoMap.keys m)).
  { intros m. rewrite maxStoredCommentId_of_frontier. split; [apply frontier_after_le|]. split.
    - intros id Hid. pose proof (frontier_after_ge (-1) (GoMap.keys m)) as Hge.
      rewrite Forall_forall in Hge. by apply Hge.
    - destruct (frontier_after_in (-1) (GoMap.keys m)) as [?|Hin]; [by left|].
      right. by apply list_elem_of_In. }
  split; [apply Hmax|]. intros Hsame.
  pose proof (same_content_keys _ _ Hsame) as Hkeys.
  destruct (Hmax m1) as (Hlo1 & Hub1 & Hin1). destruct (Hmax m2) as (Hlo2 & Hub2 & Hin2).
  apply Z.le_antisymm.
  - destruct Hin1 as [->|Hin1]; [done|]. apply Hub2. by rewrite <- Hkeys.
  - destruct Hin2 as [->|Hin2]; [done|]. apply Hub1. by rewrite Hkeys.
Qed.

(** ** The journal driver: what is marked for writing is written *)

(** The dirty flag and the directory of the journal are as before. *)
Definition same_flag (s s' : St) : Prop :=
  shouldWriteDB (jcx s') = shouldWriteDB (jcx s) /\ dir (jcx s') = dir (jcx s).

#[global] Instance same_flag_preorder : PreOrder same_flag.
Proof.
  split.
  - intros s. by split.
  - intros s1 s2 s3 [H1 H2] [K1 K2]. split; congruence.
Qed.

Ltac same_flag_tac := split; reflexivity.

Lemma keeps_flag_readJournalDB env : keeps same_flag (readJournalDB env).
Proof.
  unfold readJournalDB, writeJournalDB, readPythonLastRunFile, readPythonCommentMeta,
    readPythonUserMap, openAndRead, pythonCommentMetaEntry, pythonUserMapEntry, ReadFile,
    writeFileTempRename.
  solve_keeps same_flag_tac.
Qed.

Lemma keeps_flag_MkdirAll env path : keeps same_flag (MkdirAll env path).
Proof. unfold MkdirAll. solve_keeps same_flag_tac. Qed.

Lemma writeJournalDB_attempt env st :
  let dbpath := filepath_Join (dir (jcx st)) journalDBFileName in
  let bytes := linedb_GetBytes env (journalDB_calls (db (jcx st))) in
  let st' := fst (writeJournalDB env st) in
  jcx st' = jcx st
  /\ (exists ok, EvWriteFile (dbpath +:+ ".tmp") bytes ok ∈ trace st')
  /\ came_back (snd (writeJournalDB env st))
  /\ (snd (writeJournalDB env st) = Ret tt -> fs st' !! dbpath = Some bytes).
Proof.
  unfold writeJournalDB, writeFileTempRename. run.
  destruct (io_WriteFile env _ _ _) as [e|]; simpl.
  - split; [done|]. split; [|done]. exists false. apply elem_of_app. right. by left.
  - destruct (io_Rename env _ _ _) as [e|]; simpl.
    + split; [done|]. split; [|done]. exists true.
      apply elem_of_app. left. apply elem_of_app. right. by left.
    + split; [done|]. split; [|split; [done|]].
      * exists true. apply elem_of_app. left. apply elem_of_app. right. by left.
      * intros _. by rewrite lookup_insert_eq.
Qed.

Lemma syncJournal_not_Failed env fuel st r : snd (syncJournal env fuel st) <> Failed r.
Proof.
  unfold syncJournal, bind, catch.
  destruct (dumpJournalPosts env fuel st) as [s1 [[]|r1| |]]; simpl; try done.
  destruct (dumpJournalComments env fuel s1) as [s2 [[]|r2| |]]; done.
Qed.

(** X22: what [dumpJournal] marks for writing, it writes.  From a journal
    context that is not marked, whenever [dumpJournal] comes back (returns
    or fails) with the journal state marked for writing, it has tried to
    write the state file with exactly the bytes of the journal state it
    ends with, whether synchronisation had succeeded or failed; and when
    it returns nil, the state file holds these bytes. *)
Theorem dumpJournal_writes_marked_state env fuel st :
  shouldWriteDB (jcx st) = false ->
  let st' := fst (dumpJournal env fuel st) in
  let dbpath := filepath_Join (dir (jcx st')) journalDBFileName in
  let bytes := linedb_GetBytes env (journalDB_calls (db (jcx st'))) in
  came_back (snd (dumpJournal env fuel st)) ->
  shouldWriteDB (jcx st') = true ->
  (exists ok, EvWriteFile (dbpath +:+ ".tmp") bytes ok ∈ trace st')
  /\ (snd (dumpJournal env fuel st) = Ret tt -> fs st' !! dbpath = Some bytes).
Proof.
  intros Hclean.
  destruct (dumpJournal env fuel st) as [s res] eqn:Hrun. simpl.
  unfold dumpJournal in Hrun.
  unfold bind at 1 in Hrun.
  pose proof (keeps_flag_readJournalDB env st) as [Hflag1 _].
  destruct (readJournalDB env st) as [s1 [[]|r1| |]]; simpl in Hflag1;
    try (injection Hrun as <- <-; intros; congruence).
  unfold bind at 1 in Hrun. unfold gets at 1 in Hrun.
  unfold bind at 1 in Hrun.
  pose proof (keeps_wrap same_flag
                (fun e => WrapErr e ("failed to create directory for journal " +:+ dir (jcx s1)))
                (MkdirAll env (dir (jcx s1))) (keeps_flag_MkdirAll env _) s1) as [Hflag2 _].
  destruct (wrap _ (MkdirAll env (dir (jcx s1))) s1) as [s2 [[]|r2| |]]; simpl in Hflag2;
    try (injection Hrun as <- <-; intros; congruence).
  unfold bind at 1 in Hrun.
  pose proof (syncJournal_not_Failed env fuel s2) as Hsync.
  destruct (syncJournal env fuel s2) as [s3 [r3|r3| |]]; simpl in Hsync;
    try (injection Hrun as <- <-; intros; done); [|by specialize (Hsync r3)].
  unfold persistJournal in Hrun.
  unfold bind at 1 in Hrun. unfold bind at 1 in Hrun. unfold gets at 1 in Hrun.
  destruct (shouldWriteDB (jcx s3)) eqn:Hdirty.
  - unfold bind at 1 in Hrun. unfold catch in Hrun.
    destruct (writeJournalDB_attempt env s3) as (Hj & [ok Hattempt] & Hback & Hfile).
    destruct (writeJournalDB env s3) as [s4 [[]|r4| |]]; simpl in Hj, Hattempt, Hback, Hfile;
      try done; unfold ret in Hrun.
    + destruct r3 as [r3|]; simpl in Hrun.
      * injection Hrun as <- <-. rewrite Hj. intros _ _. split; [eauto|done].
      * revert Hrun. unfold log, emit, modify, bind, gets.
        destruct (decide (origDbLastSync (jcx s4) = "")); cbn beta iota.
        all: intros [= <- <-]; simpl; rewrite Hj; intros _ _;
          (split; [exists ok; apply elem_of_app; by left|intros _; by apply Hfile]).
    + destruct r3 as [r3|]; simpl in Hrun; injection Hrun as <- <-; rewrite Hj; intros _ _;
        (split; [eauto|done]).
  - unfold ret in Hrun. destruct r3 as [r3|]; simpl in Hrun.
    + injection Hrun as <- <-. intros _ ?. congruence.
    + revert Hrun. unfold log, emit, modify, bind, gets.
      destruct (decide (origDbLastSync (jcx s3) = "")); cbn beta iota;
        intros [= <- <-]; simpl; intros _ ?; congruence.
Qed.

Lemma dumpJournal_writes_marked_state_witness :
  let env := Scenario.second_fetch_fails in
  let st' := fst (dumpJournal env 3 Scenario.st_current_db) in
  let dbpath := filepath_Join (dir (jcx st')) journalDBFileName in
  let bytes := linedb_GetBytes env (journalDB_calls (db (jcx st'))) in
  (exists ok, EvWriteFile (dbpath +:+ ".tmp") bytes ok ∈ trace st')
  /\ (snd (dumpJournal env 3 Scenario.st_current_db) = Ret tt -> fs st' !! dbpath = Some bytes).
Proof.
  apply (dumpJournal_writes_marked_state Scenario.second_fetch_fails 3 Scenario.st_current_db).
  - reflexivity.
  - vm_compute. exact I.
  - vm_compute. reflexivity.
Defined.

(** In that run the second entry cannot be fetched: the run fails, and the
    state file is written with the cursor of the first entry. *)
Example progress_survives_a_failed_fetch :
  let out := dumpJournal Scenario.second_fetch_fails 3 Scenario.st_current_db in
  snd out = Failed (WrapErr "connection reset" "")
  /\ lastSync (db (jcx (fst out))) = Time Scenario.item1
  /\ is_Some (fs (fst out) !! "alice/L-1")
  /\ is_Some (fs (fst out) !! "alice/journal.linedb").
Proof. vm_compute. repeat split; eauto. Qed.

(** ** Posts: the count of new entries *)

(** The item is a well-formed entry item: it is fetched. *)
Definition fetched_entry (item : LJSyncItem) : bool :=
  match parsed_item item with
  | Some _ => is_entry item
  | None => false
  end.

Lemma wrap64_wrap64_add a b : wrap64 (wrap64 a + b) = wrap64 (a + b).
Proof.
  unfold wrap64.
  replace ((a + 2 ^ 63) mod 2 ^ 64 - 2 ^ 63 + b + 2 ^ 63) with ((a + 2 ^ 63) mod 2 ^ 64 + b)
    by lia.
  rewrite Zplus_mod_idemp_l. f_equal. f_equal. lia.
Qed.

Lemma syncItem_counts env item st st' :
  syncItem env item st = (st', Ret tt) ->
  newEntries (jcx st')
  = if fetched_entry item then wrap64 (newEntries (jcx st) + 1) else newEntries (jcx st).
Proof.
  unfold fetched_entry.
  destruct (parsed_item item) as [itemid|] eqn:Hp.
  - rewrite (syncItem_parsed _ _ _ Hp). unfold bind at 1.
    destruct (is_entry item).
    + unfold syncEntry.
      unfold bind at 1. unfold log at 1, emit at 1, modify at 1. unfold bind at 1.
      destruct (call_getevents env itemid _) as [s2 r2] eqn:Hget.
      apply call_getevents_frame in Hget as (Hj2 & _). simpl in Hj2.
      destruct r2 as [[|event events]| | |]; try discriminate.
      unfold bind at 1.
      destruct (writeLJEventDump env "L" itemid event s2) as [s3 r3] eqn:Hw.
      apply writeLJEventDump_frame in Hw as [Hj3 _].
      destruct r3 as [[]| | |]; try discriminate.
      intros [= <-]. simpl. by rewrite Hj3, Hj2.
    + intros [= <-]. done.
  - rewrite (syncItem_malformed _ _ Hp). unfold warnInvalidSyncItem.
    destruct (String.get 1 (Item item)); [|discriminate].
    intros [= <-]. done.
Qed.

(** X23: the number of new entries that the summary of a run reports is
    the number of entries fetched and written: after a page is processed
    without error, [newEntries] has grown by the number of well-formed
    entry items of the page (as an [int] sum), other items and malformed
    ones not counted. *)
Theorem forEach_syncItem_counts env items st st' :
  in_int64 (newEntries (jcx st)) = true ->
  forEach items (syncItem env) st = (st', Ret tt) ->
  newEntries (jcx st')
  = wrap64 (newEntries (jcx st) + Z.of_nat (length (filter fetched_entry items))).
Proof.
  intros Hin.
  assert (Hgen : forall items st st',
            forEach items (syncItem env) st = (st', Ret tt) ->
            wrap64 (newEntries (jcx st'))
            = wrap64 (newEntries (jcx st) + Z.of_nat (length (filter fetched_entry items)))
            /\ (in_int64 (newEntries (jcx st)) = true -> in_int64 (newEntries (jcx st')) = true)).
  { clear. induction items as [|item items IH]; intros st st'; simpl.
    - intros [= <-]. split; [f_equal; lia|done].
    - unfold bind. destruct (syncItem env item st) as [s1 [[]| | |]] eqn:Hitem; try discriminate.
      intros Hrest. apply syncItem_counts in Hitem.
      destruct (IH _ _ Hrest) as [Hcount Hrange]. rewrite Hcount, Hitem.
      destruct (fetched_entry item) eqn:Hfetched.
      + rewrite filter_cons_True by (by rewrite Hfetched). simpl length. split.
        * rewrite wrap64_wrap64_add. f_equal. lia.
        * intros _. apply Hrange. rewrite Hitem.
          unfold in_int64, wrap64, int64_min, int64_max.
          pose proof (Z.mod_pos_bound (newEntries (jcx st) + 1 + 2 ^ 63) (2 ^ 64) ltac:(lia)).
          apply andb_true_iff. split; apply Z.leb_le; lia.
      + rewrite filter_cons_False by (rewrite Hfetched; exact id). split; [done|].
        intros H. apply Hrange. by rewrite Hitem. }
  intros Hrun. destruct (Hgen _ _ _ Hrun) as [Hcount Hrange].
  rewrite <- Hcount. symmetry. apply wrap64_in_range. by apply Hrange.
Qed.

Lemma forEach_syncItem_counts_witness :
  let items := [Scenario.item_comment; Scenario.item1; Scenario.item_nodash] in
  let out := forEach items (syncItem Scenario.feed_with_nodash_id) Scenario.st0 in
  snd out = Ret tt
  /\ newEntries (jcx (fst out))
     = wrap64 (newEntries (jcx Scenario.st0) + Z.of_nat (length (filter fetched_entry items))).
Proof.
  split; [vm_compute; reflexivity|].
  apply (forEach_syncItem_counts Scenario.feed_with_nodash_id
           [Scenario.item_comment; Scenario.item1; Scenario.item_nodash] Scenario.st0).
  - reflexivity.
  - vm_compute. reflexivity.
Defined.

(** ** Legacy conversion: which maps are made *)

(** Files, directory and both maps are as before. *)
Definition same_maps (s s' : St) : Prop :=
  fs s' = fs s /\ dir (jcx s') = dir (jcx s)
  /\ userMap (db (jcx s')) = userMap (db (jcx s))
  /\ commentMap (db (jcx s')) = commentMap (db (jcx s)).

(** The same, but for entries assigned to the comment map, if it is made. *)
Definition fills_commentMap (s s' : St) : Prop :=
  fs s' = fs s /\ dir (jcx s') = dir (jcx s)
  /\ userMap (db (jcx s')) = userMap (db (jcx s))
  /\ GoMap.is_nil (commentMap (db (jcx s'))) = GoMap.is_nil (commentMap (db (jcx s))).

Definition fills_userMap (s s' : St) : Prop :=
  fs s' = fs s /\ dir (jcx s') = dir (jcx s)
  /\ commentMap (db (jcx s')) = commentMap (db (jcx s))
  /\ GoMap.is_nil (userMap (db (jcx s'))) = GoMap.is_nil (userMap (db (jcx s))).

#[global] Instance same_maps_preorder : PreOrder same_maps.
Proof.
  split.
  - intros s. by repeat split.
  - intros s1 s2 s3 (H1 & H2 & H3 & H4) (K1 & K2 & K3 & K4). repeat split; congruence.
Qed.

#[global] Instance fills_commentMap_preorder : PreOrder fills_commentMap.
Proof.
  split.
  - intros s. by repeat split.
  - intros s1 s2 s3 (H1 & H2 & H3 & H4) (K1 & K2 & K3 & K4). repeat split; congruence.
Qed.

#[global] Instance fills_userMap_preorder : PreOrder fills_userMap.
Proof.
  split.
  - intros s. by repeat split.
  - intros s1 s2 s3 (H1 & H2 & H3 & H4) (K1 & K2 & K3 & K4). repeat split; congruence.
Qed.

Ltac same_maps_tac := repeat split; reflexivity.

Ltac fills_tac :=
  repeat split; try reflexivity;
  simpl;
  try match goal with |- context [option_map _ ?m] => destruct m end;
  reflexivity.

Lemma keeps_maps_ReadFile env path : keeps same_maps (ReadFile env path).
Proof. unfold ReadFile. solve_keeps same_maps_tac. Qed.

Lemma keeps_maps_readPythonLastRunFile env : keeps same_maps (readPythonLastRunFile env).
Proof.
  unfold readPythonLastRunFile, openAndRead.
  repeat first [apply keeps_maps_ReadFile | keeps_step same_maps_tac].
Qed.

Lemma keeps_fills_commentMap p entries :
  keeps fills_commentMap (forEach entries (pythonCommentMetaEntry p)).
Proof.
  apply keeps_forEach; [apply _|]. intros kv. unfold pythonCommentMetaEntry.
  repeat keeps_step fills_tac.
Qed.

Lemma keeps_fills_userMap p entries :
  keeps fills_userMap (forEach entries (pythonUserMapEntry p)).
Proof.
  apply keeps_forEach; [apply _|]. intros kv. unfold pythonUserMapEntry.
  repeat keeps_step fills_tac.
Qed.

Lemma ReadFile_outcome env path s :
  (exists e, ReadFile env path s
             = (set_trace (fun t => t ++ [EvReadFile path]) s, Failed e))
  \/ ReadFile env path s
     = (set_trace (fun t => t ++ [EvReadFile path]) s, Ret (fs s !! path)).
Proof.
  unfold ReadFile. run.
  destruct (io_ReadFile_fault env _ _) as [e|]; simpl; [left; by exists e|by right].
Qed.

Lemma readPythonCommentMeta_maps env s s' :
  readPythonCommentMeta env s = (s', Ret tt) ->
  fs s' = fs s /\ dir (jcx s') = dir (jcx s)
  /\ userMap (db (jcx s')) = userMap (db (jcx s))
  /\ (fs s !! filepath_Join (dir (jcx s)) "comment.meta" = None ->
      commentMap (db (jcx s')) = commentMap (db (jcx s)))
  /\ (is_Some (fs s !! filepath_Join (dir (jcx s)) "comment.meta") ->
      GoMap.is_nil (commentMap (db (jcx s'))) = false).
Proof.
  unfold readPythonCommentMeta, openAndRead.
  unfold bind at 1. unfold gets at 1.
  unfold bind at 1.
  destruct (ReadFile_outcome env (filepath_Join (dir (jcx s)) "comment.meta") s)
    as [[e ->]| ->]; [discriminate|].
  destruct (fs s !! filepath_Join (dir (jcx s)) "comment.meta") as [data|] eqn:Hfile.
  - destruct (pickle_Dict env data) as [e|entries]; [discriminate|].
    unfold bind at 1. unfold modify at 1.
    match goal with
    | |- forEach _ _ ?s2 = _ -> _ =>
        pose proof (keeps_fills_commentMap
                      (filepath_Join (dir (jcx s)) "comment.meta") entries s2)
          as (Hfs & Hdir & Hum & Hnil)
    end.
    intros Hrun. rewrite Hrun in Hfs, Hdir, Hum, Hnil. simpl in Hfs, Hdir, Hum, Hnil.
    split; [done|]. split; [done|]. split; [done|]. split; [done|].
    intros _. exact Hnil.
  - intros [= <-]. simpl. split; [done|]. split; [done|]. split; [done|]. split; [done|].
    by intros [? ?].
Qed.

Lemma readPythonUserMap_maps env s s' :
  readPythonUserMap env s = (s', Ret tt) ->
  fs s' = fs s /\ dir (jcx s') = dir (jcx s)
  /\ commentMap (db (jcx s')) = commentMap (db (jcx s))
  /\ (fs s !! filepath_Join (dir (jcx s)) "user.map" = None ->
      userMap (db (jcx s')) = userMap (db (jcx s)))
  /\ (is_Some (fs s !! filepath_Join (dir (jcx s)) "user.map") ->
      GoMap.is_nil (userMap (db (jcx s'))) = false).
Proof.
  unfold readPythonUserMap, openAndRead.
  unfold bind at 1. unfold gets at 1.
  unfold bind at 1.
  destruct (ReadFile_outcome env (filepath_Join (dir (jcx s)) "user.map") s)
    as [[e ->]| ->]; [discriminate|].
  destruct (fs s !! filepath_Join (dir (jcx s)) "user.map") as [data|] eqn:Hfile.
  - destruct (pickle_DictString env data) as [e|entries]; [discriminate|].
    unfold bind at 1. unfold modify at 1.
    match goal with
    | |- forEach _ _ ?s2 = _ -> _ =>
        pose proof (keeps_fills_userMap
                      (filepath_Join (dir (jcx s)) "user.map") entries s2)
          as (Hfs & Hdir & Hcm & Hnil)
    end.
    intros Hrun. rewrite Hrun in Hfs, Hdir, Hcm, Hnil. simpl in Hfs, Hdir, Hcm, Hnil.
    split; [done|]. split; [done|]. split; [done|]. split; [done|].
    intros _. exact Hnil.
  - intros [= <-]. simpl. split; [done|]. split; [done|]. split; [done|]. split; [done|].
    by intros [? ?].
Qed.

Lemma legacy_maps env s s' :
  (readPythonLastRunFile env ;; readPythonCommentMeta env ;; readPythonUserMap env) s
  = (s', Ret tt) ->
  fs s' = fs s /\ dir (jcx s') = dir (jcx s)
  /\ (fs s !! filepath_Join (dir (jcx s)) "comment.meta" = None ->
      commentMap (db (jcx s')) = commentMap (db (jcx s)))
  /\ (is_Some (fs s !! filepath_Join (dir (jcx s)) "comment.meta") ->
      GoMap.is_nil (commentMap (db (jcx s'))) = false)
  /\ (fs s !! filepath_Join (dir (jcx s)) "user.map" = None ->
      userMap (db (jcx s')) = userMap (db (jcx s)))
  /\ (is_Some (fs s !! filepath_Join (dir (jcx s)) "user.map") ->
      GoMap.is_nil (userMap (db (jcx s'))) = false).
Proof.
  unfold bind at 1.
  pose proof (keeps_maps_readPythonLastRunFile env s) as (Hfs1 & Hdir1 & Hum1 & Hcm1).
  destruct (readPythonLastRunFile env s) as [s1 [[]| | |]]; try discriminate.
  simpl in Hfs1, Hdir1, Hum1, Hcm1.
  unfold bind at 1.
  destruct (readPythonCommentMeta env s1) as [s2 [[]| | |]] eqn:Hmeta; try discriminate.
  apply readPythonCommentMeta_maps in Hmeta as (Hfs2 & Hdir2 & Hum2 & Hcm2 & Hcm2').
  intros Huser.
  apply readPythonUserMap_maps in Huser as (Hfs3 & Hdir3 & Hcm3 & Hum3 & Hum3').
  rewrite Hfs1, Hdir1 in Hcm2, Hcm2'. rewrite Hfs2, Hdir2, Hfs1, Hdir1 in Hum3, Hum3'.
  split; [congruence|]. split; [congruence|].
  split; [intros H; rewrite Hcm3, Hcm2 by done; done|].
  split; [intros H; rewrite Hcm3; by apply Hcm2'|].
  split; [intros H; rewrite Hum3 by done; congruence|].
  exact Hum3'.
Qed.

(** X24: the conversion of a legacy journal makes a map only when the
    legacy file of that map exists.  When the state file is absent or
    empty and [readJournalDB] returns without error, the comment map is
    made if [comment.meta] exists and is as it was before (nil, in a fresh
    journal context) if not; the same holds of the user map and
    [user.map]; and the converted state has been written to the state
    file. *)
Theorem readJournalDB_legacy_maps env st :
  let d := dir (jcx st) in
  default "" (fs st !! filepath_Join d journalDBFileName) = "" ->
  snd (readJournalDB env st) = Ret tt ->
  let st' := fst (readJournalDB env st) in
  (fs st !! filepath_Join d "comment.meta" = None ->
   commentMap (db (jcx st')) = commentMap (db (jcx st)))
  /\ (is_Some (fs st !! filepath_Join d "comment.meta") ->
      GoMap.is_nil (commentMap (db (jcx st'))) = false)
  /\ (fs st !! filepath_Join d "user.map" = None ->
      userMap (db (jcx st')) = userMap (db (jcx st)))
  /\ (is_Some (fs st !! filepath_Join d "user.map") ->
      GoMap.is_nil (userMap (db (jcx st'))) = false)
  /\ fs st' !! filepath_Join d journalDBFileName
     = Some (linedb_GetBytes env (journalDB_calls (db (jcx st')))).
Proof.
  intros d Hfile.
  destruct (readJournalDB env st) as [s res] eqn:Hrun. simpl. intros ->.
  unfold readJournalDB in Hrun.
  unfold bind at 1 in Hrun. unfold gets at 1 in Hrun. fold d in Hrun.
  unfold bind at 1 in Hrun.
  destruct (wrap (fun e0 => WrapErr e0 "") (ReadFile env (filepath_Join d journalDBFileName)) st)
    as [s1 r1] eqn:Hread.
  assert (Hr1 : (exists r, r1 = Failed r)
                \/ (r1 = Ret (fs st !! filepath_Join d journalDBFileName)
                    /\ jcx s1 = jcx st /\ fs s1 = fs st)).
  { revert Hread. unfold ReadFile. run.
    destruct (io_ReadFile_fault env _ _); simpl; intros [= <- <-]; eauto. }
  destruct Hr1 as [[r ->]|(-> & Hj1 & Hfs1)]; [discriminate|].
  rewrite Hfile in Hrun. simpl in Hrun.
  unfold bind at 1 in Hrun. unfold bind at 1 in Hrun.
  unfold bind at 1 in Hrun. unfold log at 1, emit at 1, modify at 1 in Hrun.
  unfold bind at 1 in Hrun.
  match type of Hrun with
  | context [wrap ?f ?m ?s2] =>
      destruct (wrap f m s2) as [s3 r3] eqn:Hlegacy
  end.
  destruct r3 as [[]| | |]; try discriminate.
  apply wrap_Ret in Hlegacy. apply legacy_maps in Hlegacy.
  simpl in Hlegacy. rewrite Hj1, Hfs1 in Hlegacy. fold d in Hlegacy.
  destruct Hlegacy as (Hfs3 & Hdir3 & Hcm & Hcm' & Hum & Hum').
  destruct (writeJournalDB_attempt env s3) as (Hj4 & _ & _ & Hwritten).
  destruct (writeJournalDB env s3) as [s4 [[]| | |]]; try discriminate.
  simpl in Hj4, Hwritten. specialize (Hwritten eq_refl).
  injection Hrun as <-. simpl. rewrite Hj4. rewrite Hdir3 in Hwritten.
  repeat split; assumption.
Qed.

Lemma readJournalDB_legacy_maps_witness :
  let st := Scenario.st_legacy_comments in
  let st' := fst (readJournalDB Scenario.quiet st) in
  snd (readJournalDB Scenario.quiet st) = Ret tt
  /\ GoMap.is_nil (commentMap (db (jcx st'))) = false
  /\ userMap (db (jcx st')) = None
  /\ fs st' !! "alice/journal.linedb"
     = Some (linedb_GetBytes Scenario.quiet (journalDB_calls (db (jcx st')))).
Proof.
  split; [reflexivity|].
  destruct (readJournalDB_legacy_maps Scenario.quiet Scenario.st_legacy_comments)
    as (_ & Hcm & Hum & _ & Hfile); try reflexivity.
  split; [apply Hcm; by eexists|]. split; [by apply Hum|exact Hfile].
Defined.
